(** * GetOptCpp: a shallow embedding of [getoptc++.hpp]

    The header defines one class template, [__impl_GetOpt<I, C, F, S>], with
    four registration members ([flagBoolean], [flagFloating], [flagInt],
    [flagString]) and the parse member [readArgs], which dispatches on a
    [BEHAVIOUR] to [__internal_readArgs_STRICT] or [__internal_readArgs_AS_IS].

    The embedding follows the instantiation
    [GetOpt = __impl_GetOpt<int, char, double, std::string>]: integers are [Z],
    tokens are [string], [size_type] values are [N] with the 64-bit wrap-around
    written out.  The floating type and [std::stod] stay parameters, as the
    template has them.

    The parser works on raw memory: [_argv] is a [char**], the expansion buffer
    is a second pointer array whose first [_argc] cells are copies of the
    caller's pointers, and the storage cells handed out by registration are
    shared between all aliases of a flag.  The model therefore has an explicit
    [Memory] of character buffers, pointer arrays and typed cells, all
    addressed by natural numbers. *)

From Stdlib Require Import ZArith NArith Ascii String List Lia Bool.
From stdpp Require Import base option list gmap strings.

(** ** Enumerations and exceptions *)

Inductive BEHAVIOUR : Type :=
| STRICT
| AS_IS.

(** The private [enum TYPE] used by the main lookup table. *)
Inductive TYPE : Type :=
| BOOL
| FLOAT
| INT
| STR.

(** The exceptions the header can raise: its own [no_argv] and
    [impossible_case_reached], [std::out_of_range] (from [std::map::at] and
    from [std::stoi]/[std::stod]) and [std::invalid_argument] (from the
    conversions). *)
Inductive exn : Type :=
| no_argv
| impossible_case_reached
| out_of_range
| invalid_argument.

(** [std::stoi] and [std::stod] raise one of two of them. *)
Inductive conversion_exn : Type :=
| conv_invalid_argument
| conv_out_of_range.

Definition raise_conversion (e : conversion_exn) : exn :=
  match e with
  | conv_invalid_argument => invalid_argument
  | conv_out_of_range => out_of_range
  end.

(** Ways in which the C++ program leaves defined behaviour. *)
Inductive ub : Type :=
| null_argv            (* [_argv] dereferenced while null *)
| wild_pointer         (* a pointer array or character buffer that is not live *)
| index_out_of_bounds  (* [_argv[k]] with [k] outside the pointer array *)
| begin_of_empty_map   (* [main_lookup.begin()->first] on an empty map *)
| back_of_empty_string (* [s.back()] on an empty string *)
| buffer_overrun.      (* [strcpy] of three bytes into a shorter buffer *)

#[global] Instance BEHAVIOUR_eq_dec : EqDecision BEHAVIOUR.
Proof. solve_decision. Defined.
#[global] Instance TYPE_eq_dec : EqDecision TYPE.
Proof. solve_decision. Defined.
#[global] Instance exn_eq_dec : EqDecision exn.
Proof. solve_decision. Defined.

(** ** [std::string] operations on [size_type] *)

Module Str.

(** [size_type] is a 64-bit unsigned integer. *)
Definition modulus : N := 2 ^ 64.

(** [std::string::npos], i.e. [size_type(-1)]. *)
Definition npos : N := modulus - 1.

(** Unsigned addition and subtraction, wrapping at [2^64]. *)
Definition add (a b : N) : N := ((a + b) mod modulus)%N.
Definition sub (a b : N) : N := ((a + modulus - b mod modulus) mod modulus)%N.

Definition size (s : string) : N := N.of_nat (String.length s).

(** [s.find(pat)]: position of the first occurrence, [npos] when absent. *)
Definition find (pat s : string) : N :=
  match String.index 0 pat s with
  | Some k => N.of_nat k
  | None => npos
  end.

(** [s.find_last_of(c)] for a one-character set. *)
Fixpoint find_last_of_from (c : ascii) (pos : N) (s : string) : N :=
  match s with
  | EmptyString => npos
  | String d r =>
      let later := find_last_of_from c (pos + 1)%N r in
      if N.eqb later npos
      then (if Ascii.eqb c d then pos else npos)
      else later
  end.

Definition find_last_of (c : ascii) (s : string) : N :=
  find_last_of_from c 0%N s.

(** [s.substr(pos, n)] and the constructor [string_t(s, pos, n)]: the
    characters from [pos], at most [n] of them, clamped to the end of [s].
    The C++ function throws [std::out_of_range] when [pos > s.size()]; every
    call in the header has [pos <= s.size()] (see the call sites), where the
    clamp below is exact. *)
Definition substr (s : string) (pos n : N) : string :=
  String.substring (N.to_nat pos) (N.to_nat (N.min n (size s - pos))) s.

(** [s[0]]: the first character, the terminating NUL for an empty string. *)
Definition front (s : string) : ascii :=
  match s with
  | EmptyString => Ascii.zero
  | String c _ => c
  end.

(** [s.back()]; undefined on an empty string. *)
Fixpoint back (s : string) : option ascii :=
  match s with
  | EmptyString => None
  | String c EmptyString => Some c
  | String _ r => back r
  end.

(** The characters of a string, as [s[0]], ..., [s[size-1]]. *)
Definition chars (s : string) : list ascii := list_ascii_of_string s.

(** [string_t("-").append(1, c)]. *)
Definition dash (c : ascii) : string := String "-" (String c EmptyString).

End Str.

(** ** [__internal::stripQuotes] *)

Definition dquote : ascii := Ascii.ascii_of_nat 34.
Definition squote : ascii := Ascii.ascii_of_nat 39.

Definition quoted_by (q : ascii) (s : string) : bool :=
  N.eqb (Str.find (String q EmptyString) s) 0
  && N.eqb (Str.find_last_of q s) (Str.sub (Str.size s) 1).

Definition stripQuotes (s : string) : string :=
  if quoted_by dquote s || quoted_by squote s
  then Str.substr s 1 (Str.sub (Str.size s) 2)
  else s.

(** ** [std::stoi]

    [std::stoi(str)] runs [strtol(str.c_str(), &end, 10)]: leading white space
    is skipped, one optional sign is read, then the longest run of decimal
    digits.  No digit at all raises [std::invalid_argument]; a value outside
    [int] raises [std::out_of_range]. *)

Definition INT_MAX : Z := 2147483647.
Definition INT_MIN : Z := -2147483648.

Definition isspace (c : ascii) : bool :=
  let n := N_of_ascii c in
  N.eqb n 32 || (N.leb 9 n && N.leb n 13).

Definition digit (c : ascii) : option Z :=
  let n := N_of_ascii c in
  if N.leb 48 n && N.leb n 57 then Some (Z.of_N n - 48)%Z else None.

Fixpoint skip_space (s : string) : string :=
  match s with
  | String c r => if isspace c then skip_space r else s
  | EmptyString => s
  end.

(** The digits at the front of [s], accumulated on [acc]. *)
Fixpoint read_digits (acc : Z) (s : string) : Z :=
  match s with
  | String c r =>
      match digit c with
      | Some d => read_digits (10 * acc + d)%Z r
      | None => acc
      end
  | EmptyString => acc
  end.

Definition starts_with_digit (s : string) : bool :=
  match s with
  | String c _ => bool_decide (is_Some (digit c))
  | EmptyString => false
  end.

Definition stoi (str : string) : conversion_exn + Z :=
  let s := skip_space str in
  let '(negative, body) :=
    match s with
    | String "-" r => (true, r)
    | String "+" r => (false, r)
    | _ => (false, s)
    end in
  if starts_with_digit body then
    let magnitude := read_digits 0 body in
    let value := if negative then (- magnitude)%Z else magnitude in
    if (Z.leb INT_MIN value && Z.leb value INT_MAX)%Z
    then inr value
    else inl conv_out_of_range
  else inl conv_invalid_argument.

(** ** [std::map<std::string, V>]

    A [std::map] keyed by [std::string] is a finite map, iterated in the
    byte-wise lexicographic order of its keys.  The header uses three of its
    members: [find]/[at] (lookup), [insert] and [begin]. *)

(** [m.insert(std::make_pair(k, v))]: inserts only when [k] is not yet a key;
    an existing entry is kept as it is. *)
Definition map_insert {V : Type} (k : string) (v : V) (m : gmap string V)
  : gmap string V :=
  match m !! k with
  | Some _ => m
  | None => <[k := v]> m
  end.

(** The smaller of two keys in the order of [std::less<std::string>]. *)
Definition min_key (k1 k2 : string) : string :=
  if String.leb k1 k2 then k1 else k2.

Definition least_key (ks : list string) : option string :=
  match ks with
  | [] => None
  | k :: r => Some (fold_right min_key k r)
  end.

(** [m.begin()->first]: the least key; [None] for the empty map, where
    [begin() == end()] must not be dereferenced. *)
Definition map_begin {V : Type} (m : gmap string V) : option string :=
  least_key (map_to_list m).*1.

(** The pieces that [std::getline(ss, flag, ',')] yields on [flagName], the
    last one included: the text between consecutive commas.  There is always a
    last piece, empty when [flagName] is empty or ends in a comma. *)
Fixpoint getlines (flagName : string) : list string :=
  match flagName with
  | EmptyString => [EmptyString]
  | String c r =>
      if Ascii.eqb c ","%char then EmptyString :: getlines r
      else match getlines r with
           | piece :: pieces => String c piece :: pieces
           | [] => [String c EmptyString]
           end
  end.

(** ** The parser object *)

(** Addresses of character buffers, of pointer arrays and of storage cells. *)
Abbreviation addr := nat (only parsing).

(** The data members of [__impl_GetOpt].  [_argv] is [None] for [nullptr] and
    otherwise the address of a pointer array in [Memory].  [_argc] and the
    loop variable [i] are [int]s; they are kept in [Z] without wrap-around,
    since overflow of a signed integer is undefined and the values here are
    bounded by the number of tokens. *)
Record GetOpt : Type := mkGetOpt {
  _argc : Z;
  _argv : option addr;
  _from_sys : bool;
  allocs : list addr;
  options : list string;
  main_lookup : gmap string TYPE;
  bool_lookup : gmap string addr;
  float_lookup : gmap string addr;
  int_lookup : gmap string addr;
  str_lookup : gmap string addr
}.

(** The default member initialisers. *)
Definition GetOpt_default : GetOpt :=
  {| _argc := 0; _argv := None; _from_sys := true;
     allocs := []; options := [];
     main_lookup := ∅; bool_lookup := ∅; float_lookup := ∅;
     int_lookup := ∅; str_lookup := ∅ |}.

Definition set_argc (n : Z) (g : GetOpt) : GetOpt :=
  mkGetOpt n (_argv g) (_from_sys g) (allocs g) (options g) (main_lookup g)
    (bool_lookup g) (float_lookup g) (int_lookup g) (str_lookup g).

Definition set_argv (p : option addr) (g : GetOpt) : GetOpt :=
  mkGetOpt (_argc g) p (_from_sys g) (allocs g) (options g) (main_lookup g)
    (bool_lookup g) (float_lookup g) (int_lookup g) (str_lookup g).

Definition set_from_sys (b : bool) (g : GetOpt) : GetOpt :=
  mkGetOpt (_argc g) (_argv g) b (allocs g) (options g) (main_lookup g)
    (bool_lookup g) (float_lookup g) (int_lookup g) (str_lookup g).

Definition set_allocs (l : list addr) (g : GetOpt) : GetOpt :=
  mkGetOpt (_argc g) (_argv g) (_from_sys g) l (options g) (main_lookup g)
    (bool_lookup g) (float_lookup g) (int_lookup g) (str_lookup g).

Definition set_options (l : list string) (g : GetOpt) : GetOpt :=
  mkGetOpt (_argc g) (_argv g) (_from_sys g) (allocs g) l (main_lookup g)
    (bool_lookup g) (float_lookup g) (int_lookup g) (str_lookup g).

Definition set_main_lookup (t : gmap string TYPE) (g : GetOpt) : GetOpt :=
  mkGetOpt (_argc g) (_argv g) (_from_sys g) (allocs g) (options g) t
    (bool_lookup g) (float_lookup g) (int_lookup g) (str_lookup g).

Definition set_bool_lookup (t : gmap string addr) (g : GetOpt) : GetOpt :=
  mkGetOpt (_argc g) (_argv g) (_from_sys g) (allocs g) (options g)
    (main_lookup g) t (float_lookup g) (int_lookup g) (str_lookup g).

Definition set_float_lookup (t : gmap string addr) (g : GetOpt) : GetOpt :=
  mkGetOpt (_argc g) (_argv g) (_from_sys g) (allocs g) (options g)
    (main_lookup g) (bool_lookup g) t (int_lookup g) (str_lookup g).

Definition set_int_lookup (t : gmap string addr) (g : GetOpt) : GetOpt :=
  mkGetOpt (_argc g) (_argv g) (_from_sys g) (allocs g) (options g)
    (main_lookup g) (bool_lookup g) (float_lookup g) t (str_lookup g).

Definition set_str_lookup (t : gmap string addr) (g : GetOpt) : GetOpt :=
  mkGetOpt (_argc g) (_argv g) (_from_sys g) (allocs g) (options g)
    (main_lookup g) (bool_lookup g) (float_lookup g) (int_lookup g) t.

(** [getOptions()]. *)
Definition getOptions (g : GetOpt) : list string := options g.

(** The four typed lookup tables, selected as the macros select them by token
    pasting ([TYPE##_lookup]). *)
Definition typed_lookup (t : TYPE) (g : GetOpt) : gmap string addr :=
  match t with
  | BOOL => bool_lookup g
  | FLOAT => float_lookup g
  | INT => int_lookup g
  | STR => str_lookup g
  end.

Definition set_typed_lookup (t : TYPE) (tbl : gmap string addr) (g : GetOpt)
  : GetOpt :=
  match t with
  | BOOL => set_bool_lookup tbl g
  | FLOAT => set_float_lookup tbl g
  | INT => set_int_lookup tbl g
  | STR => set_str_lookup tbl g
  end.

(** One round of [SETUP_FLAG]'s two [insert] calls, for the alias [flag]. *)
Definition insert_alias (t : TYPE) (returnVal : addr) (g : GetOpt)
  (flag : string) : GetOpt :=
  let g1 := set_main_lookup (map_insert flag t (main_lookup g)) g in
  set_typed_lookup t (map_insert flag returnVal (typed_lookup t g1)) g1.

(** The [while] loop of [SETUP_FLAG] followed by the two inserts after it:
    every piece read by [getline] is inserted, the last one after the loop. *)
Definition SETUP_FLAG (t : TYPE) (flagName : string) (returnVal : addr)
  (g : GetOpt) : GetOpt :=
  fold_left (insert_alias t returnVal) (getlines flagName) g.

(** ** Memory, registration and parsing

    Everything below is generic in the template parameter [F] (the floating
    type) and in the conversion [std::stod] used for it. *)

Section Parser.

Context {floating_t : Type}.
Variable stod : string -> conversion_exn + floating_t.

(** Raw memory.  [buffers] holds the NUL-terminated character buffers (the
    caller's tokens and the three-byte buffers the parser allocates) by
    their text, [arrays] the [char*] arrays (the caller's [argv] and the
    expansion buffers); a deleted block is [None].  The four cell lists are
    the objects created by [new TYPE_CPP(default_value)].  Buffers are
    writable, as the type [char**] of [argv] says, and a buffer is taken to be
    exactly as long as the token it held when it was created.  Strings are
    shorter than [2^64] characters. *)
Record Memory : Type := mkMemory {
  buffers : list (option string);
  arrays : list (option (list addr));
  bool_cells : list bool;
  float_cells : list floating_t;
  int_cells : list Z;
  str_cells : list string
}.

Definition Memory_empty : Memory := mkMemory [] [] [] [] [] [].

Definition set_buffers (b : list (option string)) (m : Memory) : Memory :=
  mkMemory b (arrays m) (bool_cells m) (float_cells m) (int_cells m)
    (str_cells m).

Definition set_arrays (a : list (option (list addr))) (m : Memory) : Memory :=
  mkMemory (buffers m) a (bool_cells m) (float_cells m) (int_cells m)
    (str_cells m).

Definition set_bool_cells (c : list bool) (m : Memory) : Memory :=
  mkMemory (buffers m) (arrays m) c (float_cells m) (int_cells m)
    (str_cells m).

Definition set_float_cells (c : list floating_t) (m : Memory) : Memory :=
  mkMemory (buffers m) (arrays m) (bool_cells m) c (int_cells m)
    (str_cells m).

Definition set_int_cells (c : list Z) (m : Memory) : Memory :=
  mkMemory (buffers m) (arrays m) (bool_cells m) (float_cells m) c
    (str_cells m).

Definition set_str_cells (c : list string) (m : Memory) : Memory :=
  mkMemory (buffers m) (arrays m) (bool_cells m) (float_cells m)
    (int_cells m) c.

(** *** [initialize] and the registration members *)

(** The caller builds an argument vector: one buffer per token and one
    pointer array over them.  Returns the array's address. *)
Definition make_argv (tokens : list string) (m : Memory) : addr * Memory :=
  let base := length (buffers m) in
  let m1 := set_buffers (buffers m ++ (Some <$> tokens)) m in
  (length (arrays m),
   set_arrays (arrays m ++ [Some (seq base (length tokens))]) m1).

Definition initialize (argc : Z) (argv : option addr) (isFromSystem : bool)
  (g : GetOpt) : GetOpt :=
  set_from_sys isFromSystem (set_argv argv (set_argc argc g)).

(** Each registration allocates one cell holding [default_value], enters
    every alias of [flagName] and returns the cell's address. *)
Definition flagBoolean (flagName : string) (default_value : bool)
  (g : GetOpt) (m : Memory) : addr * GetOpt * Memory :=
  let returnVal := length (bool_cells m) in
  (returnVal, SETUP_FLAG BOOL flagName returnVal g,
   set_bool_cells (bool_cells m ++ [default_value]) m).

Definition flagFloating (flagName : string) (default_value : floating_t)
  (g : GetOpt) (m : Memory) : addr * GetOpt * Memory :=
  let returnVal := length (float_cells m) in
  (returnVal, SETUP_FLAG FLOAT flagName returnVal g,
   set_float_cells (float_cells m ++ [default_value]) m).

Definition flagInt (flagName : string) (default_value : Z)
  (g : GetOpt) (m : Memory) : addr * GetOpt * Memory :=
  let returnVal := length (int_cells m) in
  (returnVal, SETUP_FLAG INT flagName returnVal g,
   set_int_cells (int_cells m ++ [default_value]) m).

Definition flagString (flagName : string) (default_value : string)
  (g : GetOpt) (m : Memory) : addr * GetOpt * Memory :=
  let returnVal := length (str_cells m) in
  (returnVal, SETUP_FLAG STR flagName returnVal g,
   set_str_cells (str_cells m ++ [default_value]) m).

(** *** Outcomes *)

(** A member function returns, throws (leaving the object and the memory as
    they were at the [throw]) or has undefined behaviour. *)
Inductive outcome (A : Type) : Type :=
| Returns (a : A)
| Throws (e : exn) (g : GetOpt) (m : Memory)
| Undefined (u : ub).

Arguments Returns {A} a.
Arguments Throws {A} e g m.
Arguments Undefined {A} u.

Definition outcome_bind {A B : Type} (f : A -> outcome B) (o : outcome A)
  : outcome B :=
  match o with
  | Returns a => f a
  | Throws e g m => Throws e g m
  | Undefined u => Undefined u
  end.

#[local] Instance outcome_mbind : MBind outcome := @outcome_bind.
#[local] Instance outcome_mret : MRet outcome := @Returns.

(** The state of one parse pass: the object, the memory and the locals [i]
    and [invalid_flags] of [__internal_readArgs_*]. *)
Record Frame : Type := mkFrame {
  this : GetOpt;
  mem : Memory;
  i : Z;
  invalid_flags : list string
}.

(** [string_t(_argv[k])]. *)
Definition read_argv (g : GetOpt) (m : Memory) (k : Z) : outcome string :=
  match _argv g with
  | None => Undefined null_argv
  | Some p =>
      match arrays m !! p with
      | Some (Some arr) =>
          if (k <? 0)%Z then Undefined index_out_of_bounds
          else match arr !! Z.to_nat k with
               | None => Undefined index_out_of_bounds
               | Some a =>
                   match buffers m !! a with
                   | Some (Some s) => Returns s
                   | _ => Undefined wild_pointer
                   end
               end
      | _ => Undefined wild_pointer
      end
  end.

(** Reading and assigning through a cell pointer [data]. *)
Definition load {A : Type} (cells : list A) (data : addr) : outcome A :=
  match cells !! data with
  | Some v => Returns v
  | None => Undefined wild_pointer
  end.

Definition store {A : Type} (cells : list A) (data : addr) (v : A)
  : outcome (list A) :=
  match cells !! data with
  | Some _ => Returns (<[data := v]> cells)
  | None => Undefined wild_pointer
  end.

(** [TYPE##_lookup.at(flag_only)]. *)
Definition at_lookup (t : TYPE) (f : Frame) (flag_only : string)
  : outcome addr :=
  match typed_lookup t (this f) !! flag_only with
  | Some data => Returns data
  | None => Throws out_of_range (this f) (mem f)
  end.

Definition advance (n : Z) (f : Frame) : Frame :=
  mkFrame (this f) (mem f) (i f + n)%Z (invalid_flags f).

Definition with_mem (m : Memory) (f : Frame) : Frame :=
  mkFrame (this f) m (i f) (invalid_flags f).

(** [invalid_flags.push_back(flag)] and [options.push_back(flag)]. *)
Definition push_invalid (flag : string) (f : Frame) : Frame :=
  mkFrame (this f) (mem f) (i f) (invalid_flags f ++ [flag]).

Definition push_option (flag : string) (f : Frame) : Frame :=
  mkFrame (set_options (options (this f) ++ [flag]) (this f)) (mem f) (i f)
    (invalid_flags f).

(** *** The loop body: a token that is not in the lookup table *)

(** The combination-flag branch (lines 212-227 and 351-365): [newFlags] is a
    fresh pointer array of [_argc + s.size()] cells; [memcpy] fills the first
    [_argc] with the pointers of the current [_argv]; one fresh three-byte
    buffer per interior character follows; then [strcpy] writes the final
    flag through [newFlags[i]], i.e. into the buffer the current token lives
    in.  [i] is not advanced. *)
Definition expand (flag : string) (f : Frame) : outcome Frame :=
  let g := this f in
  let m := mem f in
  match Str.back flag with
  | None => Undefined back_of_empty_string
  | Some lastFlag =>
      let s := Str.substr flag 1 (Str.sub (Str.size flag) 2) in
      match _argv g with
      | None => Undefined null_argv
      | Some p =>
          match arrays m !! p with
          | Some (Some old) =>
              if (_argc g <? 0)%Z || (Z.of_nat (length old) <? _argc g)%Z
              then Undefined index_out_of_bounds
              else
                let fresh := seq (length (buffers m)) (length (Str.chars s)) in
                let newFlags := take (Z.to_nat (_argc g)) old ++ fresh in
                let written :=
                  buffers m ++ ((fun c => Some (Str.dash c)) <$> Str.chars s) in
                if (i f <? 0)%Z then Undefined index_out_of_bounds
                else
                  match newFlags !! Z.to_nat (i f) with
                  | None => Undefined index_out_of_bounds
                  | Some a =>
                      match written !! a with
                      | Some (Some current) =>
                          if (String.length current <? 2)%nat
                          then Undefined buffer_overrun
                          else
                            let m' :=
                              set_arrays (arrays m ++ [Some newFlags])
                                (set_buffers
                                   (<[a := Some (Str.dash lastFlag)]> written)
                                   m) in
                            let g' :=
                              set_argv (Some (length (arrays m)))
                                (set_argc (_argc g + Z.of_N (Str.size s))%Z
                                   (set_allocs (allocs g ++ fresh) g)) in
                            Returns (mkFrame g' m' (i f) (invalid_flags f))
                      | _ => Undefined wild_pointer
                      end
                  end
          | _ => Undefined wild_pointer
          end
      end
  end.

(** Lines 208-231 (STRICT) and 347-369 (AS_IS), which are the same text: the
    token is compared with the first character of the first key of
    [main_lookup]; on a match its first two characters decide between an
    invalid flag and a combination flag; otherwise it is an option. *)
Definition not_in_lookup (flag : string) (f : Frame) : outcome Frame :=
  match map_begin (main_lookup (this f)) with
  | None => Undefined begin_of_empty_map
  | Some first =>
      if Ascii.eqb (Str.front first) (Str.front flag) then
        match main_lookup (this f) !! Str.substr flag 0 2 with
        | None => Returns (advance 1 (push_invalid flag f))
        | Some _ => expand flag f
        end
      else Returns (advance 1 (push_option flag f))
  end.

(** *** The loop body: boolean flags *)

(** The value assigned at lines 242 and 387: [false] when
    [stripQuotes(string_t(flag, index + 1))] is the text 0, else [true]. *)
Definition bool_of_suffix (flag : string) (index : N) : bool :=
  if String.eqb (stripQuotes (Str.substr flag (Str.add index 1) Str.npos)) "0"
  then false else true.

Definition store_bool (data : addr) (v : bool) (f : Frame) : outcome Frame :=
  cells ← store (bool_cells (mem f)) data v;
  mret (with_mem (set_bool_cells cells (mem f)) f).

(** The condition and the two branches of lines 246-253 and 378-385: the
    left operand of the disjunction compares
    [stripQuotes(string_t(_argv[index + 1]))] with the text 0; the right
    operand assigns to the cell [true] when that token is the text 1 and the
    cell's own value otherwise.  The token read is [_argv[index + 1]], with
    the local [index] and not the loop variable [i].  The left operand
    assigns nothing; the right operand assigns and yields the assigned
    value. *)
Definition bool_of_next (data : addr) (index : N) (f : Frame)
  : outcome Frame :=
  next ← read_argv (this f) (mem f) (Z.of_N (Str.add index 1));
  if String.eqb (stripQuotes next) "0" then mret (advance 2 f)
  else
    current ← load (bool_cells (mem f)) data;
    let assigned := if String.eqb (stripQuotes next) "1" then true else current in
    f1 ← store_bool data assigned f;
    if assigned then mret (advance 2 f1)
    else
      f2 ← store_bool data true f1;
      mret (advance 1 f2).

(** [case BOOL] of [__internal_readArgs_STRICT] (lines 234-256).  [index] is
    initialised to [0] and assigned only in the long-name branch. *)
Definition bool_STRICT (flag flag_only : string) (f : Frame) : outcome Frame :=
  data ← at_lookup BOOL f flag_only;
  let index := 0%N in
  if N.eqb (Str.find "--" flag) 0 then
    let index := Str.find "=" flag in
    f1 ← (if N.eqb index Str.npos then store_bool data true f
          else store_bool data (bool_of_suffix flag index) f);
    mret (advance 1 f1)
  else bool_of_next data index f.

(** [case BOOL] of [__internal_readArgs_AS_IS] (lines 372-390).  Here [index]
    is assigned [flag.find('=')] before the test, so in the branch without
    an equals sign it is [npos]. *)
Definition bool_AS_IS (flag flag_only : string) (f : Frame) : outcome Frame :=
  data ← at_lookup BOOL f flag_only;
  let index := Str.find "=" flag in
  if N.eqb index Str.npos then bool_of_next data index f
  else
    f1 ← store_bool data (bool_of_suffix flag index) f;
    mret (advance 1 f1).

(** *** The loop body: flags that take a value *)

Definition store_float (data : addr) (v : floating_t) (f : Frame)
  : outcome Frame :=
  cells ← store (float_cells (mem f)) data v;
  mret (with_mem (set_float_cells cells (mem f)) f).

Definition store_int (data : addr) (v : Z) (f : Frame) : outcome Frame :=
  cells ← store (int_cells (mem f)) data v;
  mret (with_mem (set_int_cells cells (mem f)) f).

Definition store_str (data : addr) (v : string) (f : Frame) : outcome Frame :=
  cells ← store (str_cells (mem f)) data v;
  mret (with_mem (set_str_cells cells (mem f)) f).

(** The assignment of [CONVERSION_FUNCTION(stripQuotes(text))] to the cell:
    the conversion runs first and may throw. *)
Definition assign_converted {A : Type}
  (conversion : string -> conversion_exn + A)
  (assign : addr -> A -> Frame -> outcome Frame)
  (data : addr) (text : string) (f : Frame) : outcome Frame :=
  match conversion (stripQuotes text) with
  | inl e => Throws (raise_conversion e) (this f) (mem f)
  | inr v => assign data v f
  end.

(** The macro [HANDLE_NUMERIC_FLAGS] (lines 258-277), with its parameters
    [TYPE] and [CONVERSION_FUNCTION]. *)
Definition HANDLE_NUMERIC_FLAGS {A : Type} (t : TYPE)
  (conversion : string -> conversion_exn + A)
  (assign : addr -> A -> Frame -> outcome Frame)
  (flag flag_only : string) (f : Frame) : outcome Frame :=
  data ← at_lookup t f flag_only;
  if N.eqb (Str.find "--" flag) 0 then
    let index := Str.find "=" flag in
    f1 ← (if negb (N.eqb index Str.npos)
          then assign_converted conversion assign data
                 (Str.substr flag (Str.add index 1) Str.npos) f
          else mret (push_invalid flag f));
    mret (advance 1 f1)
  else
    if (i f + 1 >=? _argc (this f))%Z
    then mret (advance 1 (push_invalid flag f))
    else
      next ← read_argv (this f) (mem f) (i f + 1)%Z;
      f1 ← assign_converted conversion assign data next f;
      mret (advance 2 f1).

(** The macro [HANDLE_NUMERIC_FLAGS_AS_IS] (lines 392-408). *)
Definition HANDLE_NUMERIC_FLAGS_AS_IS {A : Type} (t : TYPE)
  (conversion : string -> conversion_exn + A)
  (assign : addr -> A -> Frame -> outcome Frame)
  (flag flag_only : string) (f : Frame) : outcome Frame :=
  data ← at_lookup t f flag_only;
  let index := Str.find "=" flag in
  if negb (N.eqb index Str.npos) then
    f1 ← assign_converted conversion assign data
           (Str.substr flag (Str.add index 1) Str.npos) f;
    mret (advance 1 f1)
  else
    if (i f + 1 >=? _argc (this f))%Z
    then mret (advance 1 (push_invalid flag f))
    else
      next ← read_argv (this f) (mem f) (i f + 1)%Z;
      f1 ← assign_converted conversion assign data next f;
      mret (advance 2 f1).

(** [case STR] (lines 289-310 and 420-437) is the text of the two macros
    with the conversion left out: the quote-stripped text is stored. *)
Definition no_conversion (text : string) : conversion_exn + string :=
  inr text.

(** *** One iteration of the [while] loop *)

(** [flag.substr(0, flag.find('='))]. *)
Definition flag_only_of (flag : string) : string :=
  Str.substr flag 0 (Str.find "=" flag).

Definition body_STRICT (f : Frame) : outcome Frame :=
  flag ← read_argv (this f) (mem f) (i f);
  let flag_only := flag_only_of flag in
  match main_lookup (this f) !! flag_only with
  | None => not_in_lookup flag f
  | Some BOOL => bool_STRICT flag flag_only f
  | Some FLOAT => HANDLE_NUMERIC_FLAGS FLOAT stod store_float flag flag_only f
  | Some INT => HANDLE_NUMERIC_FLAGS INT stoi store_int flag flag_only f
  | Some STR =>
      HANDLE_NUMERIC_FLAGS STR no_conversion store_str flag flag_only f
  end.

Definition body_AS_IS (f : Frame) : outcome Frame :=
  flag ← read_argv (this f) (mem f) (i f);
  let flag_only := flag_only_of flag in
  match main_lookup (this f) !! flag_only with
  | None => not_in_lookup flag f
  | Some BOOL => bool_AS_IS flag flag_only f
  | Some FLOAT =>
      HANDLE_NUMERIC_FLAGS_AS_IS FLOAT stod store_float flag flag_only f
  | Some INT => HANDLE_NUMERIC_FLAGS_AS_IS INT stoi store_int flag flag_only f
  | Some STR =>
      HANDLE_NUMERIC_FLAGS_AS_IS STR no_conversion store_str flag flag_only f
  end.

Definition body (behaviour : BEHAVIOUR) : Frame -> outcome Frame :=
  match behaviour with
  | STRICT => body_STRICT
  | AS_IS => body_AS_IS
  end.

(** *** The loop and the two parse members *)

(** [while (i < _argc) { ... }].  The loop need not terminate (a two-character
    token with an equals sign that is itself an alias is expanded into
    itself for ever), so it runs on fuel: [None] means the fuel ran out. *)
Fixpoint while_loop (bd : Frame -> outcome Frame) (fuel : nat) (f : Frame)
  : option (outcome Frame) :=
  if (i f <? _argc (this f))%Z then
    match fuel with
    | O => None
    | S fuel' =>
        match bd f with
        | Returns f' => while_loop bd fuel' f'
        | Throws e g m => Some (Throws e g m)
        | Undefined u => Some (Undefined u)
        end
    end
  else Some (Returns f).

(** [delete[] it] for every [it] in [allocs]. *)
Definition delete_all (ptrs : list addr) (bufs : list (option string))
  : list (option string) :=
  fold_left (fun b a => <[a := None]> b) ptrs bufs.

(** Lines 318-329 and 446-457: the allocations are deleted, the expansion
    buffer is deleted and [_argv] restored if it was replaced, [allocs] is
    cleared and [invalid_flags] returned. *)
Definition epilogue (_argv_backup : option addr) (f : Frame)
  : list string * GetOpt * Memory :=
  let g := this f in
  let m1 := set_buffers (delete_all (allocs g) (buffers (mem f))) (mem f) in
  if decide (_argv g = _argv_backup)
  then (invalid_flags f, set_allocs [] g, m1)
  else
    let deleted :=
      match _argv g with
      | Some p => <[p := None]> (arrays m1)
      | None => arrays m1
      end in
    (invalid_flags f, set_allocs [] (set_argv _argv_backup g),
     set_arrays deleted m1).

(** The frame a parse member starts from: [i = _from_sys],
    [invalid_flags = {}]. *)
Definition prologue (g : GetOpt) (m : Memory) : Frame :=
  mkFrame g m (if _from_sys g then 1 else 0)%Z [].

Definition __internal_readArgs (behaviour : BEHAVIOUR) (fuel : nat)
  (g : GetOpt) (m : Memory)
  : option (outcome (list string * GetOpt * Memory)) :=
  match _argv g with
  | None => Some (Throws no_argv g m)
  | Some _ =>
      let _argv_backup := _argv g in
      match while_loop (body behaviour) fuel (prologue g m) with
      | None => None
      | Some (Returns f) => Some (Returns (epilogue _argv_backup f))
      | Some (Throws e g' m') => Some (Throws e g' m')
      | Some (Undefined u) => Some (Undefined u)
      end
  end.

Definition __internal_readArgs_STRICT := __internal_readArgs STRICT.
Definition __internal_readArgs_AS_IS := __internal_readArgs AS_IS.

(** [readArgs] (lines 177-192).  [BEHAVIOUR] is a closed enumeration here, so
    the [default] case of the [switch] has no counterpart. *)
Definition readArgs (behaviour : BEHAVIOUR) (fuel : nat) (g : GetOpt)
  (m : Memory) : option (outcome (list string * GetOpt * Memory)) :=
  match _argv g with
  | None => Some (Throws no_argv g m)
  | Some _ =>
      match behaviour with
      | STRICT => __internal_readArgs_STRICT fuel g m
      | AS_IS => __internal_readArgs_AS_IS fuel g m
      end
  end.

(** *** Registration calls as data *)

(** A call of one of the four registration members, with its arguments. *)
Inductive registration : Type :=
| call_flagBoolean (flagName : string) (default_value : bool)
| call_flagFloating (flagName : string) (default_value : floating_t)
| call_flagInt (flagName : string) (default_value : Z)
| call_flagString (flagName : string) (default_value : string).

Definition register (r : registration) (g : GetOpt) (m : Memory)
  : addr * GetOpt * Memory :=
  match r with
  | call_flagBoolean flagName d => flagBoolean flagName d g m
  | call_flagFloating flagName d => flagFloating flagName d g m
  | call_flagInt flagName d => flagInt flagName d g m
  | call_flagString flagName d => flagString flagName d g m
  end.

End Parser.

Arguments Memory : clear implicits.
Arguments Frame : clear implicits.
Arguments outcome : clear implicits.
Arguments registration : clear implicits.
Arguments Returns {floating_t A} a.
Arguments Throws {floating_t A} e g m.
Arguments Undefined {floating_t A} u.

(** ** Scenarios

    The programs a caller runs before [readArgs]: registrations on a fresh
    object, an argument vector built in memory, and [initialize].  Each
    scenario returns the handles it was given, the object and the memory. *)

(** Flags [-a] (boolean, default [false]) and [-n] (integer, default [0]); the
    system-style vector [prog -a -n 5 file.txt]. *)
Definition end_to_end {F : Type} : addr * addr * GetOpt * Memory F :=
  let '(a, g, m) := flagBoolean "-a" false GetOpt_default Memory_empty in
  let '(n, g, m) := flagInt "-n" 0 g m in
  let '(argv, m) := make_argv ["prog"; "-a"; "-n"; "5"; "file.txt"] m in
  (a, n, initialize 5 (Some argv) true g, m).

(** Boolean flags [-a], [-b], [-c] with the default default value, and the
    caller-made one-token vector [-abc].  The vector's address is returned as
    well. *)
Definition clustered {F : Type}
  : addr * addr * addr * addr * GetOpt * Memory F :=
  let '(a, g, m) := flagBoolean "-a" false GetOpt_default Memory_empty in
  let '(b, g, m) := flagBoolean "-b" false g m in
  let '(c, g, m) := flagBoolean "-c" false g m in
  let '(argv, m) := make_argv ["-abc"] m in
  (a, b, c, argv, initialize 1 (Some argv) false g, m).

(** The same with the given default values of [-a], [-b] and [-c]. *)
Definition clustered_with {F : Type} (default_a default_b default_c : bool)
  : addr * addr * addr * addr * GetOpt * Memory F :=
  let '(a, g, m) := flagBoolean "-a" default_a GetOpt_default Memory_empty in
  let '(b, g, m) := flagBoolean "-b" default_b g m in
  let '(c, g, m) := flagBoolean "-c" default_c g m in
  let '(argv, m) := make_argv ["-abc"] m in
  (a, b, c, argv, initialize 1 (Some argv) false g, m).

(** One boolean flag with the aliases [-a] and [--append] and the given
    default, and the vector [tokens], system-style or not. *)
Definition one_boolean {F : Type} (default_value : bool) (tokens : list string)
  (isFromSystem : bool) : addr * GetOpt * Memory F :=
  let '(a, g, m) :=
    flagBoolean "-a,--append" default_value GetOpt_default Memory_empty in
  let '(argv, m) := make_argv tokens m in
  (a, initialize (Z.of_nat (length tokens)) (Some argv) isFromSystem g, m).

(** The alias [-a] registered as a boolean flag and then again as an integer
    flag, and the system-style vector [prog -a 7].  Returns the boolean and
    the integer handle. *)
Definition registered_twice {F : Type} : addr * addr * GetOpt * Memory F :=
  let '(first, g, m) := flagBoolean "-a" false GetOpt_default Memory_empty in
  let '(second, g, m) := flagInt "-a" 0 g m in
  let '(argv, m) := make_argv ["prog"; "-a"; "7"] m in
  (first, second, initialize 3 (Some argv) true g, m).

(** The alias [-a] registered as a boolean flag two times, and the
    system-style vector [prog -a].  Returns the two handles. *)
Definition registered_again {F : Type} : addr * addr * GetOpt * Memory F :=
  let '(first, g, m) := flagBoolean "-a" false GetOpt_default Memory_empty in
  let '(second, g, m) := flagBoolean "-a" false g m in
  let '(argv, m) := make_argv ["prog"; "-a"] m in
  (first, second, initialize 2 (Some argv) true g, m).

(** The integer flag [--count] with the default [7] and the system-style
    vector [prog --count]. *)
Definition long_count {F : Type} : addr * GetOpt * Memory F :=
  let '(count, g, m) := flagInt "--count" 7 GetOpt_default Memory_empty in
  let '(argv, m) := make_argv ["prog"; "--count"] m in
  (count, initialize 2 (Some argv) true g, m).

(** Two boolean flags with different markers, [-a] and [/b], and the
    caller-made vector [/x]. *)
Definition two_markers {F : Type} : GetOpt * Memory F :=
  let '(_, g, m) := flagBoolean "-a" false GetOpt_default Memory_empty in
  let '(_, g, m) := flagBoolean "/b" false g m in
  let '(argv, m) := make_argv ["/x"] m in
  (initialize 1 (Some argv) false g, m).

(** One boolean flag whose spelling is [-=], and the caller-made vector [-=]. *)
Definition self_expanding {F : Type} : GetOpt * Memory F :=
  let '(_, g, m) := flagBoolean "-=" false GetOpt_default Memory_empty in
  let '(argv, m) := make_argv ["-="] m in
  (initialize 1 (Some argv) false g, m).

(** The instance for closed statements.  None of the scenarios registers a
    floating flag; for such programs the floating type can be the empty type:
    no floating cell exists and [stod] is never reached. *)
Definition no_float : Type := Empty_set.

Definition no_stod (text : string) : conversion_exn + no_float :=
  inl conv_invalid_argument.

(** ** Predicates used in the statements *)

(** The test of the specification for a token that is not in the registry:
    its first character is the first character of some registered spelling. *)
Definition spec_looks_flag_like (g : GetOpt) (flag : string) : Prop :=
  exists spelling : string,
    is_Some (main_lookup g !! spelling)
    /\ Str.front spelling = Str.front flag.

(** Every key of the main table is a key of the table of its type; then
    [TYPE##_lookup.at(flag_only)] cannot throw. *)
Definition registry_wf (g : GetOpt) : Prop :=
  forall (k : string) (t : TYPE),
    main_lookup g !! k = Some t -> is_Some (typed_lookup t g !! k).

(** The frames of the loop on [self_expanding]: the token [-=] at position 0
    of a one-cell vector, to be looked at next. *)
Definition expands_into_itself {F : Type} (f : Frame F) : Prop :=
  i f = 0%Z
  /\ _argc (this f) = 1%Z
  /\ main_lookup (this f) = {[ "-=" := BOOL ]}
  /\ buffers (mem f) !! 0%nat = Some (Some "-=")
  /\ exists p, _argv (this f) = Some p
              /\ arrays (mem f) !! p = Some (Some [0%nat]).

(** The fuel sufficed. *)
Definition finished {A : Type} (o : option A) : bool :=
  match o with
  | Some _ => true
  | None => false
  end.

(** The outcome is not the exception [no_argv]. *)
Definition not_no_argv {F A : Type} (o : outcome F A) : Prop :=
  match o with
  | Throws e _ _ => e <> no_argv
  | _ => True
  end.

(** ** The destructor *)

(** [~__impl_GetOpt] (lines 131-135): [delete[] it] for every [it] in
    [allocs]. *)
Definition destructor {F : Type} (g : GetOpt) (m : Memory F) : Memory F :=
  set_buffers (delete_all (allocs g) (buffers m)) m.

(** ** What one iteration can do *)

(** An assignment through the cell pointer that one of the typed tables holds
    for some spelling. *)
Inductive cell_write {F : Type} (g : GetOpt) (m : Memory F)
  : Memory F -> Prop :=
| write_bool (k : string) (data : addr) (v : bool) :
    bool_lookup g !! k = Some data ->
    is_Some (bool_cells m !! data) ->
    cell_write g m (set_bool_cells (<[data := v]> (bool_cells m)) m)
| write_float (k : string) (data : addr) (v : F) :
    float_lookup g !! k = Some data ->
    is_Some (float_cells m !! data) ->
    cell_write g m (set_float_cells (<[data := v]> (float_cells m)) m)
| write_int (k : string) (data : addr) (v : Z) :
    int_lookup g !! k = Some data ->
    is_Some (int_cells m !! data) ->
    cell_write g m (set_int_cells (<[data := v]> (int_cells m)) m)
| write_str (k : string) (data : addr) (v : string) :
    str_lookup g !! k = Some data ->
    is_Some (str_cells m !! data) ->
    cell_write g m (set_str_cells (<[data := v]> (str_cells m)) m).

(** The five things an iteration that returns has done to its frame, after
    it has read the current token [flag]: reported it, collected it as an
    option, expanded it (its flag-only part is no spelling, its first two
    characters are one), passed two tokens without storing, or stored one
    value and passed one or two tokens. *)
Inductive iteration {F : Type} (f : Frame F) : Frame F -> Prop :=
| iteration_invalid (flag : string) :
    read_argv (this f) (mem f) (i f) = Returns flag ->
    iteration f (advance 1 (push_invalid flag f))
| iteration_option (flag : string) :
    read_argv (this f) (mem f) (i f) = Returns flag ->
    iteration f (advance 1 (push_option flag f))
| iteration_expand (flag : string) (t : TYPE) (f' : Frame F) :
    read_argv (this f) (mem f) (i f) = Returns flag ->
    main_lookup (this f) !! flag_only_of flag = None ->
    main_lookup (this f) !! Str.substr flag 0 2 = Some t ->
    expand flag f = Returns f' ->
    iteration f f'
| iteration_pass (flag : string) :
    read_argv (this f) (mem f) (i f) = Returns flag ->
    iteration f (advance 2 f)
| iteration_store (flag : string) (m' : Memory F) (n : Z) :
    read_argv (this f) (mem f) (i f) = Returns flag ->
    cell_write (this f) (mem f) m' ->
    n = 1%Z \/ n = 2%Z ->
    iteration f (advance n (with_mem m' f)).

(** What an iteration that throws has thrown: the exception of a conversion,
    or [std::out_of_range] from [at] on a spelling that the main table has
    and the table of its type has not. *)
Definition iteration_exception (g : GetOpt) (e : exn) : Prop :=
  (exists c : conversion_exn, e = raise_conversion c)
  \/ (e = out_of_range
      /\ exists (k : string) (t : TYPE),
           main_lookup g !! k = Some t /\ typed_lookup t g !! k = None).

(** ** Observations on the object *)

(** The five lookup tables. *)
Definition registry_of (g : GetOpt)
  : gmap string TYPE * gmap string addr * gmap string addr
    * gmap string addr * gmap string addr :=
  (main_lookup g, bool_lookup g, float_lookup g, int_lookup g, str_lookup g).

(** The cell [data] is the target of no spelling in the table of the type
    [t]. *)
Definition unbound (t : TYPE) (g : GetOpt) (data : addr) : Prop :=
  forall k : string, typed_lookup t g !! k <> Some data.

(** ** Observations on the memory *)

(** The buffer at [a] has been allocated and not deleted. *)
Definition live {F : Type} (m : Memory F) (a : addr) : Prop :=
  exists text : string, buffers m !! a = Some (Some text).

(** The buffer at [a] has been deleted. *)
Definition deleted {F : Type} (m : Memory F) (a : addr) : Prop :=
  buffers m !! a = Some None.

(** The allocations of a pass on [g] and [m] that started with none, seen in
    the frame [f]: [allocs] lists the buffers allocated since the start, which
    are all the buffers beyond those of the start, all live; no buffer of the
    start has been deleted; [_argc] has grown by their number. *)
Definition allocation_invariant {F : Type} (g : GetOpt) (m : Memory F)
  (f : Frame F) : Prop :=
  exists k : nat,
    allocs (this f) = seq (length (buffers m)) k
    /\ length (buffers (mem f)) = (length (buffers m) + k)%nat
    /\ _argc (this f) = (_argc g + Z.of_nat k)%Z
    /\ (forall a, live m a -> live (mem f) a)
    /\ (forall a, (length (buffers m) <= a < length (buffers (mem f)))%nat ->
                  live (mem f) a).

(** ** Expansion vectors *)

(** The pointer array at [p] is allocated; it has been freed. *)
Definition array_live {F : Type} (m : Memory F) (p : addr) : Prop :=
  exists arr : list addr, arrays m !! p = Some (Some arr).


(** The expansion vectors of a pass on [g] and [m], seen in the frame [f]:
    the arrays are those of the start followed by the vectors allocated
    since, all of them still allocated; [_argv] is the caller's as long as
    there is none, and afterwards the last one, the caller's being an array
    of the start. *)
Definition expansion_invariant {F : Type} (g : GetOpt) (m : Memory F)
  (f : Frame F) : Prop :=
  exists vectors : list (list addr),
    arrays (mem f) = arrays m ++ (Some <$> vectors)
    /\ match vectors with
       | [] => _argv (this f) = _argv g
       | _ :: _ =>
           _argv (this f)
           = Some (length (arrays m) + length vectors - 1)%nat
           /\ exists p, _argv g = Some p /\ (p < length (arrays m))%nat
       end.

(** ** The exception of an iteration *)

(** The iteration on [f] throws [e] because a conversion failed: the token
    at [i] is a registered integer or floating flag, the text of its value
    (what follows its equals sign, or the token after it) is one on which
    [std::stoi], or [std::stod], throws, and [e] is what it throws. *)
Definition conversion_failed {F : Type} (stod : string -> conversion_exn + F)
  (f : Frame F) (e : exn) : Prop :=
  exists (flag text : string) (c : conversion_exn),
    read_argv (this f) (mem f) (i f) = Returns flag
    /\ (Str.find "=" flag <> Str.npos
        /\ text = Str.substr flag (Str.add (Str.find "=" flag) 1) Str.npos
        \/ read_argv (this f) (mem f) (i f + 1) = Returns text)
    /\ (main_lookup (this f) !! flag_only_of flag = Some INT
        /\ stoi (stripQuotes text) = inl c
        \/ main_lookup (this f) !! flag_only_of flag = Some FLOAT
           /\ stod (stripQuotes text) = inl c)
    /\ e = raise_conversion c.

(** The iteration on [f] throws because [at] does not find the spelling of
    the token at [i] in the table of its type. *)
Definition at_failed {F : Type} (f : Frame F) : Prop :=
  exists (flag : string) (t : TYPE),
    read_argv (this f) (mem f) (i f) = Returns flag
    /\ main_lookup (this f) !! flag_only_of flag = Some t
    /\ typed_lookup t (this f) !! flag_only_of flag = None.

(** How a run ended. *)
Definition returned {F A : Type} (o : option (outcome F A)) : bool :=
  match o with
  | Some (Returns _) => true
  | _ => false
  end.

Definition thrown {F A : Type} (o : option (outcome F A)) : option exn :=
  match o with
  | Some (Throws e _ _) => Some e
  | _ => None
  end.

(** ** Tokens *)

(** The text has no equals sign. *)
Definition no_equals (name : string) : Prop :=
  String.index 0 "=" name = None.

(** The token [name=value]. *)
Definition with_value (name value : string) : string :=
  name +:+ String "=" value.

(** The text fits a [size_type]. *)
Definition fits (s : string) : Prop := (Str.size s < Str.npos)%N.

(** ** Assignments to the cells *)

(** The frame [f] after the assignment of [v] through [data]. *)
Definition assign_bool {F : Type} (data : addr) (v : bool) (f : Frame F)
  : Frame F :=
  with_mem (set_bool_cells (<[data := v]> (bool_cells (mem f))) (mem f)) f.

Definition assign_float {F : Type} (data : addr) (v : F) (f : Frame F)
  : Frame F :=
  with_mem (set_float_cells (<[data := v]> (float_cells (mem f))) (mem f)) f.

Definition assign_int {F : Type} (data : addr) (v : Z) (f : Frame F)
  : Frame F :=
  with_mem (set_int_cells (<[data := v]> (int_cells (mem f))) (mem f)) f.

Definition assign_str {F : Type} (data : addr) (v : string) (f : Frame F)
  : Frame F :=
  with_mem (set_str_cells (<[data := v]> (str_cells (mem f))) (mem f)) f.

(** The form in which a dialect accepts [name=value]: STRICT for long names
    only, AS_IS for every name. *)
Definition takes_equals (behaviour : BEHAVIOUR) (name : string) : Prop :=
  match behaviour with
  | STRICT => Str.find "--" name = 0%N
  | AS_IS => True
  end.

(** The form in which a dialect takes the value of a flag from another
    token: STRICT for tokens that do not start with the long marker (an
    equals sign in them is not looked for), AS_IS for tokens without an
    equals sign. *)
Definition takes_next (behaviour : BEHAVIOUR) (flag : string) : Prop :=
  match behaviour with
  | STRICT => Str.find "--" flag <> 0%N
  | AS_IS => Str.find "=" flag = Str.npos
  end.

(** The position of the token that a boolean flag without a value examines:
    [index + 1] for the [index] of each dialect. *)
Definition examined_position (behaviour : BEHAVIOUR) : Z :=
  match behaviour with
  | STRICT => Z.of_N (Str.add 0 1)
  | AS_IS => Z.of_N (Str.add Str.npos 1)
  end.

(** ** Registrations *)

(** The type tag, the alias list and the default of a registration call. *)
Definition registration_type {F : Type} (r : registration F) : TYPE :=
  match r with
  | call_flagBoolean _ _ => BOOL
  | call_flagFloating _ _ => FLOAT
  | call_flagInt _ _ => INT
  | call_flagString _ _ => STR
  end.

Definition registration_names {F : Type} (r : registration F) : string :=
  match r with
  | call_flagBoolean flagName _ | call_flagFloating flagName _
  | call_flagInt flagName _ | call_flagString flagName _ => flagName
  end.

(** The cell [handle] of the registration's type holds its default. *)
Definition holds_default {F : Type} (r : registration F) (handle : addr)
  (m : Memory F) : Prop :=
  match r with
  | call_flagBoolean _ d => bool_cells m !! handle = Some d
  | call_flagFloating _ d => float_cells m !! handle = Some d
  | call_flagInt _ d => int_cells m !! handle = Some d
  | call_flagString _ d => str_cells m !! handle = Some d
  end.

(** The registration's type had no cell [handle] in [m]. *)
Definition new_cell {F : Type} (r : registration F) (handle : addr)
  (m : Memory F) : Prop :=
  match r with
  | call_flagBoolean _ _ => bool_cells m !! handle = None
  | call_flagFloating _ _ => float_cells m !! handle = None
  | call_flagInt _ _ => int_cells m !! handle = None
  | call_flagString _ _ => str_cells m !! handle = None
  end.

(** A sequence of registration calls, the handles dropped. *)
Fixpoint registers {F : Type} (rs : list (registration F)) (g : GetOpt)
  (m : Memory F) : GetOpt * Memory F :=
  match rs with
  | [] => (g, m)
  | r :: rs' => registers rs' (register r g m).1.2 (register r g m).2
  end.

(** The text has no comma. *)
Definition no_comma (s : string) : Prop :=
  ","%char ∉ list_ascii_of_string s.

(** ** Quotes *)

(** One of the two characters that [stripQuotes] strips. *)
Definition is_quote (q : ascii) : Prop := q = dquote \/ q = squote.

(** The text [s] between two [q]. *)
Definition quoted (q : ascii) (s : string) : string :=
  String q (s +:+ String q EmptyString).

(** ** Termination of the loop *)

(** The loop stands on the token [-=], within the vector, while [-=] is a
    spelling, [-] is none and the first key starts with the marker. *)
Definition stands_on_dash_equals {F : Type} (f : Frame F) : Prop :=
  (0 <= i f < _argc (this f))%Z
  /\ is_Some (main_lookup (this f) !! "-=")
  /\ main_lookup (this f) !! "-" = None
  /\ (exists first, map_begin (main_lookup (this f)) = Some first
                    /\ Str.front first = "-"%char)
  /\ exists (p a : addr) (arr : list addr),
       _argv (this f) = Some p
       /\ arrays (mem f) !! p = Some (Some arr)
       /\ (_argc (this f) <= Z.of_nat (length arr))%Z
       /\ arr !! Z.to_nat (i f) = Some a
       /\ buffers (mem f) !! a = Some (Some "-=").

(** No spelling of at most two characters has an equals sign. *)
Definition short_spellings_plain (g : GetOpt) : Prop :=
  forall k : string,
    is_Some (main_lookup g !! k) ->
    (String.length k <= 2)%nat -> no_equals k.

(** Every live buffer holds a text that fits a [size_type]. *)
Definition buffers_fit {F : Type} (m : Memory F) : Prop :=
  forall (a : addr) (text : string),
    buffers m !! a = Some (Some text) -> fits text.

(** The weight of a token: its length if it can be expanded into more than
    one token, else one. *)
Definition token_weight (text : string) : nat :=
  if (String.length text <=? 2)%nat then 1%nat else String.length text.

Definition buffer_weight (bufs : list (option string)) (a : addr) : nat :=
  match bufs !! a with
  | Some (Some text) => token_weight text
  | _ => 1%nat
  end.

(** The weight of the tokens from [i] to the end of the vector: it bounds the
    number of iterations that are left. *)
Definition remaining_weight {F : Type} (f : Frame F) : nat :=
  match _argv (this f) with
  | Some p =>
      match arrays (mem f) !! p with
      | Some (Some arr) =>
          sum_list
            (buffer_weight (buffers (mem f))
               <$> drop (Z.to_nat (i f))
                     (take (Z.to_nat (_argc (this f))) arr))
      | _ => 0%nat
      end
  | None => 0%nat
  end.

(** ** Further scenarios *)

(** A floating type for closed statements about floating flags: the whole
    numbers, converted as [std::stoi] converts them. *)
Definition whole_float : Type := Z.

Definition whole_stod (text : string) : conversion_exn + whole_float :=
  stoi text.

(** One flag of each type, each with a short and a long alias, and the
    vector [tokens], system-style or not: [-v,--verbose] (boolean, default
    [false]), [-n,--count] (integer, default [0]), [-r,--ratio] (floating,
    default [0]) and [-o,--output] (string, default empty).  Every handle is
    the cell [0] of its type. *)
Definition four_flags (tokens : list string) (isFromSystem : bool)
  : GetOpt * Memory whole_float :=
  let '(_, g, m) :=
    flagBoolean "-v,--verbose" false GetOpt_default Memory_empty in
  let '(_, g, m) := flagInt "-n,--count" 0 g m in
  let '(_, g, m) := flagFloating "-r,--ratio" 0%Z g m in
  let '(_, g, m) := flagString "-o,--output" EmptyString g m in
  let '(argv, m) := make_argv tokens m in
  (initialize (Z.of_nat (length tokens)) (Some argv) isFromSystem g, m).

(** No flag at all, and the caller-made vector [file.txt]. *)
Definition no_flags {F : Type} : GetOpt * Memory F :=
  let '(argv, m) := make_argv ["file.txt"] Memory_empty in
  (initialize 1 (Some argv) false GetOpt_default, m).


(** The two conditions of termination, as tests. *)
Definition short_spellings_plainb (g : GetOpt) : bool :=
  forallb
    (fun k =>
       implb (String.length k <=? 2)%nat
         (if String.index 0 "=" k is None then true else false))
    (map_to_list (main_lookup g)).*1.

Definition buffers_fitb {F : Type} (m : Memory F) : bool :=
  forallb
    (fun buffer =>
       if buffer is Some text then (Str.size text <? Str.npos)%N else true)
    (buffers m).

(** * Properties *)

(** ** The order of the keys *)

Lemma string_leb_refl (s : string) : String.leb s s = true.
Proof. destruct (String.leb_total s s); done. Qed.

Lemma string_leb_trans (s1 s2 s3 : string) :
  String.leb s1 s2 = true -> String.leb s2 s3 = true ->
  String.leb s1 s3 = true.
Proof.
  unfold String.leb. revert s2 s3.
  induction s1 as [|c1 s1 IH]; intros [|c2 s2] [|c3 s3]; simpl; try done.
  unfold Ascii.compare.
  destruct (N.compare_spec (N_of_ascii c1) (N_of_ascii c2));
    destruct (N.compare_spec (N_of_ascii c2) (N_of_ascii c3));
    destruct (N.compare_spec (N_of_ascii c1) (N_of_ascii c3));
    try done; try lia.
  apply IH.
Qed.

Lemma min_key_cases (k1 k2 : string) :
  (min_key k1 k2 = k1 /\ String.leb k1 k2 = true)
  \/ (min_key k1 k2 = k2 /\ String.leb k2 k1 = true).
Proof.
  unfold min_key. destruct (String.leb k1 k2) eqn:E; [by left|right].
  split; [done|]. destruct (String.leb_total k1 k2); congruence.
Qed.

Lemma fold_min_key_spec (k : string) (ks : list string) :
  fold_right min_key k ks ∈ k :: ks
  /\ forall k', k' ∈ k :: ks -> String.leb (fold_right min_key k ks) k' = true.
Proof.
  induction ks as [|k0 ks [IHin IHle]]; simpl.
  - split; [apply elem_of_cons; by left|].
    intros k' [->|Hnil]%elem_of_cons; [apply string_leb_refl|].
    by apply elem_of_nil in Hnil.
  - assert (Hweak : forall x, x ∈ k :: ks -> x ∈ k :: k0 :: ks).
    { intros x. rewrite !elem_of_cons. tauto. }
    destruct (min_key_cases k0 (fold_right min_key k ks)) as [[-> Hle]|[-> Hle]].
    + split; [rewrite !elem_of_cons; tauto|].
      intros k'. rewrite !elem_of_cons. intros [->|[->|Hin]].
      * eapply string_leb_trans; [exact Hle|]. apply IHle, elem_of_cons; tauto.
      * apply string_leb_refl.
      * eapply string_leb_trans; [exact Hle|]. apply IHle, elem_of_cons; tauto.
    + split; [by apply Hweak|].
      intros k'. rewrite !elem_of_cons. intros [->|[->|Hin]].
      * apply IHle, elem_of_cons; tauto.
      * done.
      * apply IHle, elem_of_cons; tauto.
Qed.

(** [map_begin] yields a key of the map that is below every key: the key of
    [begin()]. *)
Lemma map_begin_least {V : Type} (m : gmap string V) (first : string) :
  map_begin m = Some first ->
  is_Some (m !! first)
  /\ forall k, is_Some (m !! k) -> String.leb first k = true.
Proof.
  unfold map_begin, least_key.
  assert (Hkeys : forall k, k ∈ (map_to_list m).*1 <-> is_Some (m !! k)).
  { intros k. rewrite list_elem_of_fmap. split.
    - intros [[k' v] [-> Hin]]. apply elem_of_map_to_list in Hin. eauto.
    - intros [v Hv]. exists (k, v). split; [done|].
      by apply elem_of_map_to_list. }
  destruct ((map_to_list m).*1) as [|k0 ks]; [done|].
  intros [= <-]. destruct (fold_min_key_spec k0 ks) as [Hin Hle].
  split; [by apply Hkeys|]. intros k Hk. apply Hle. by apply Hkeys.
Qed.

Lemma map_begin_None {V : Type} (m : gmap string V) :
  map_begin m = None <-> m = ∅.
Proof.
  unfold map_begin, least_key. split.
  - destruct (map_to_list m) as [|[k v] l] eqn:E; [|done].
    intros _. by apply map_to_list_empty_iff.
  - intros ->. by rewrite map_to_list_empty.
Qed.

(** ** The registry *)

Lemma map_insert_kept {V : Type} (k k' : string) (v v' : V)
  (m : gmap string V) :
  m !! k = Some v -> map_insert k' v' m !! k = Some v.
Proof.
  intros Hk. unfold map_insert. destruct (m !! k') eqn:Hk'; [done|].
  rewrite lookup_insert_ne; [done|]. intros ->. congruence.
Qed.

Lemma map_insert_is_Some {V : Type} (k : string) (v : V) (m : gmap string V) :
  is_Some (map_insert k v m !! k).
Proof.
  unfold map_insert. destruct (m !! k) eqn:Hk; [by rewrite Hk|].
  rewrite lookup_insert_eq. eauto.
Qed.

Lemma map_insert_fresh {V : Type} (k k' : string) (v v' : V)
  (m : gmap string V) :
  m !! k = None -> map_insert k' v' m !! k = Some v -> k' = k /\ v' = v.
Proof.
  intros Hk. unfold map_insert. destruct (m !! k') eqn:Hk'; [congruence|].
  destruct (decide (k' = k)) as [->|Hne].
  - rewrite lookup_insert_eq. by intros [= ->].
  - rewrite lookup_insert_ne by done. congruence.
Qed.

Lemma main_lookup_insert_alias (t : TYPE) (p : addr) (g : GetOpt)
  (flag : string) :
  main_lookup (insert_alias t p g flag) = map_insert flag t (main_lookup g).
Proof. by destruct t. Qed.

Lemma typed_lookup_insert_alias (t t' : TYPE) (p : addr) (g : GetOpt)
  (flag : string) :
  typed_lookup t' (insert_alias t p g flag)
  = if decide (t' = t) then map_insert flag p (typed_lookup t g)
    else typed_lookup t' g.
Proof. by destruct t, t'. Qed.

(** An alias that is already entered keeps its type tag and its cell through
    [SETUP_FLAG]. *)
Lemma SETUP_FLAG_kept (t t0 : TYPE) (flagName k : string) (p p0 : addr)
  (g : GetOpt) :
  main_lookup g !! k = Some t0 ->
  typed_lookup t0 g !! k = Some p0 ->
  main_lookup (SETUP_FLAG t flagName p g) !! k = Some t0
  /\ typed_lookup t0 (SETUP_FLAG t flagName p g) !! k = Some p0.
Proof.
  unfold SETUP_FLAG. generalize (getlines flagName) as pieces.
  intros pieces. revert g.
  induction pieces as [|flag pieces IH]; intros g Hmain Htyped; [done|].
  simpl. apply IH.
  - rewrite main_lookup_insert_alias. by apply map_insert_kept.
  - rewrite typed_lookup_insert_alias.
    destruct (decide (t0 = t)) as [->|]; [by apply map_insert_kept|done].
Qed.

Lemma insert_alias_wf (t : TYPE) (p : addr) (g : GetOpt) (flag : string) :
  registry_wf g -> registry_wf (insert_alias t p g flag).
Proof.
  intros Hwf k t0. rewrite main_lookup_insert_alias, typed_lookup_insert_alias.
  intros Hk. destruct (main_lookup g !! k) as [t1|] eqn:Hold.
  - rewrite (map_insert_kept _ _ _ _ _ Hold) in Hk. simplify_eq.
    destruct (Hwf _ _ Hold) as [p0 Hp0].
    destruct (decide (t0 = t)) as [->|]; [|eauto].
    rewrite (map_insert_kept _ _ _ _ _ Hp0). eauto.
  - destruct (map_insert_fresh _ _ _ _ _ Hold Hk) as [-> ->].
    rewrite decide_True by done. apply map_insert_is_Some.
Qed.

(** Registration keeps the registry well formed: [at] finds every key that
    [find] finds. *)
Lemma SETUP_FLAG_wf (t : TYPE) (flagName : string) (p : addr) (g : GetOpt) :
  registry_wf g -> registry_wf (SETUP_FLAG t flagName p g).
Proof.
  unfold SETUP_FLAG. generalize (getlines flagName) as pieces.
  intros pieces. revert g.
  induction pieces as [|flag pieces IH]; intros g Hwf; [done|].
  simpl. by apply IH, insert_alias_wf.
Qed.

Lemma GetOpt_default_wf : registry_wf GetOpt_default.
Proof. intros k t. unfold GetOpt_default. simpl. by rewrite lookup_empty. Qed.

(** ** Opening a scenario *)

Lemma tuple3_eta {A B C : Type} (t : A * B * C) : t = (t.1.1, t.1.2, t.2).
Proof. by destruct t as [[? ?] ?]. Qed.

Lemma tuple4_eta {A B C D : Type} (t : A * B * C * D) :
  t = (t.1.1.1, t.1.1.2, t.1.2, t.2).
Proof. by destruct t as [[[? ?] ?] ?]. Qed.

Lemma tuple6_eta {A B C D E F : Type} (t : A * B * C * D * E * F) :
  t = (t.1.1.1.1.1, t.1.1.1.1.2, t.1.1.1.2, t.1.1.2, t.1.2, t.2).
Proof. by destruct t as [[[[[? ?] ?] ?] ?] ?]. Qed.

(** Opens the tuple pattern of a statement on the scenario [sc]: the bound
    names become projections of [sc], which stays folded until the goal is
    evaluated. *)
Ltac open_scenario eta :=
  rewrite eta; cbv beta iota zeta.

Section Properties.

Context {floating_t : Type}.
Variable stod : string -> conversion_exn + floating_t.

(** ** Fuel *)

(** A loop that finishes within [n] iterations finishes with the same
    outcome on any larger fuel. *)
Lemma while_loop_more_fuel
  (bd : Frame floating_t -> outcome floating_t (Frame floating_t))
  (n k : nat) (f : Frame floating_t) :
  finished (while_loop bd n f) = true ->
  while_loop bd (n + k) f = while_loop bd n f.
Proof.
  revert f. induction n as [|n IH]; intros f; simpl.
  - destruct k; simpl; destruct (i f <? _argc (this f))%Z; done.
  - destruct (i f <? _argc (this f))%Z; [|done].
    destruct (bd f); auto.
Qed.

Lemma readArgs_more_fuel (behaviour : BEHAVIOUR) (n k : nat) (g : GetOpt)
  (m : Memory floating_t) :
  finished (readArgs stod behaviour n g m) = true ->
  readArgs stod behaviour (n + k) g m = readArgs stod behaviour n g m.
Proof.
  unfold readArgs, __internal_readArgs_STRICT, __internal_readArgs_AS_IS,
    __internal_readArgs.
  destruct (_argv g); [|done].
  destruct behaviour;
    (destruct (while_loop _ n _) as [o'|] eqn:E; [|done];
     rewrite while_loop_more_fuel; rewrite E; done).
Qed.

(** Replaces the fuel [n + k] of the goal's call by [n], which suffices, and
    evaluates the goal. *)
Ltac run_readArgs :=
  rewrite readArgs_more_fuel by (vm_compute; reflexivity);
  vm_compute.

(** ** A pass that does not return *)

(** The loop need not terminate: the token [-=], registered as a spelling, is
    not its own flag-only part, so it is looked up as [-], not found, and
    expanded; it has no interior character, so the expansion rewrites it to
    itself and the vector does not grow. *)
Lemma expands_into_itself_step (behaviour : BEHAVIOUR) (f : Frame floating_t) :
  expands_into_itself f ->
  exists f', body stod behaviour f = Returns f' /\ expands_into_itself f'.
Proof.
  intros (Hi & Hargc & Hmain & Hbuf & p & Hargv & Harr).
  assert (Hread : read_argv (this f) (mem f) (i f) = Returns "-=").
  { unfold read_argv. rewrite Hargv, Harr, Hi. simpl. by rewrite Hbuf. }
  assert (Hbody : body stod behaviour f = expand "-=" f).
  { destruct behaviour; unfold body, body_STRICT, body_AS_IS;
      rewrite Hread; simpl; rewrite Hmain;
      (replace ({[ "-=" := BOOL ]} !! flag_only_of "-=")
         with (@None TYPE) by (vm_compute; reflexivity));
      unfold not_in_lookup; rewrite Hmain;
      (replace (map_begin ({[ "-=" := BOOL ]} : gmap string TYPE))
         with (Some "-=") by (vm_compute; reflexivity));
      simpl;
      (replace (({[ "-=" := BOOL ]} : gmap string TYPE) !! Str.substr "-=" 0 2)
         with (Some BOOL) by (vm_compute; reflexivity));
      reflexivity. }
  rewrite Hbody. unfold expand. cbv zeta.
  rewrite Hargv, Harr, Hi, Hargc. simpl.
  assert (Hlt : (0 < length (buffers (mem f)))%nat)
    by (by eapply lookup_lt_Some).
  rewrite app_nil_r, Hbuf. simpl.
  eexists. split; [reflexivity|].
  unfold expands_into_itself. simpl.
  split; [done|]. split; [done|]. split; [done|].
  split; [by rewrite list_lookup_insert_eq|].
  eexists. split; [reflexivity|].
  rewrite lookup_app_r by lia. by rewrite Nat.sub_diag.
Qed.

Lemma while_loop_expands_for_ever (behaviour : BEHAVIOUR) (fuel : nat)
  (f : Frame floating_t) :
  expands_into_itself f -> while_loop (body stod behaviour) fuel f = None.
Proof.
  revert f. induction fuel as [|fuel IH]; intros f Hf.
  - destruct Hf as (Hi & Hargc & _). simpl. by rewrite Hi, Hargc.
  - destruct (expands_into_itself_step behaviour f Hf) as (f' & Hbody & Hf').
    destruct Hf as (Hi & Hargc & _). simpl. rewrite Hi, Hargc, Hbody. simpl.
    by apply IH.
Qed.

Lemma readArgs_need_not_terminate (behaviour : BEHAVIOUR) (fuel : nat) :
  let '(g, m) := self_expanding (F := floating_t) in
  readArgs stod behaviour fuel g m = None.
Proof.
  rewrite (surjective_pairing (@self_expanding floating_t)).
  unfold readArgs, __internal_readArgs_STRICT, __internal_readArgs_AS_IS,
    __internal_readArgs.
  replace (_argv (@self_expanding floating_t).1) with (Some 0%nat)
    by (vm_compute; reflexivity).
  assert (Hstart : expands_into_itself
                     (prologue (@self_expanding floating_t).1
                        (@self_expanding floating_t).2)).
  { unfold expands_into_itself.
    repeat apply conj; try (vm_compute; reflexivity).
    exists 0%nat. split; vm_compute; reflexivity. }
  destruct behaviour;
    by rewrite (while_loop_expands_for_ever _ fuel _ Hstart).
Qed.

(** ** End to end *)

(** C3.  End to end under STRICT: with the boolean flag [-a] (default
    [false]) and the integer flag [-n] (default [0]) registered, parsing the
    system-style vector [prog -a -n 5 file.txt] returns, with any fuel from
    three iterations on: no flag is reported as unrecognized, the boolean is
    [true], the integer is [5] and the options are [file.txt] alone. *)
Theorem C3_end_to_end_STRICT (fuel : nat) :
  let '(a, n, g, m) := end_to_end (F := floating_t) in
  match readArgs stod STRICT (3 + fuel) g m with
  | Some (Returns (unrecognized, g', m')) =>
      unrecognized = []
      /\ bool_cells m' !! a = Some true
      /\ int_cells m' !! n = Some 5%Z
      /\ getOptions g' = ["file.txt"]
  | _ => False
  end.
Proof.
  open_scenario (tuple4_eta (@end_to_end floating_t)).
  run_readArgs. done.
Qed.

(** ** Registration *)

(** C6.  When an alias that is already in the registry is registered again,
    by any of the four registration members, the registry's entries for it
    stay as they were: the alias keeps the type tag and the storage cell of
    the earlier registration, which are what [find] and [at] give to the
    parse. *)
Theorem C6_earlier_registration_is_kept (r : registration floating_t)
  (g : GetOpt) (m : Memory floating_t) (alias : string) (t : TYPE)
  (data : addr) :
  main_lookup g !! alias = Some t ->
  typed_lookup t g !! alias = Some data ->
  let '(_, g', _) := register r g m in
  main_lookup g' !! alias = Some t /\ typed_lookup t g' !! alias = Some data.
Proof.
  intros Hmain Htyped.
  destruct r; simpl; by apply SETUP_FLAG_kept.
Qed.

Lemma register_wf (r : registration floating_t) (g : GetOpt)
  (m : Memory floating_t) :
  registry_wf g -> registry_wf (register r g m).1.2.
Proof. intros Hwf. destruct r; simpl; by apply SETUP_FLAG_wf. Qed.

(** ** Value flags in long form *)

(** A token without an equals sign is its own flag-only part. *)
Lemma flag_only_of_no_equals (flag : string) :
  (Str.size flag <= Str.npos)%N ->
  Str.find "=" flag = Str.npos ->
  flag_only_of flag = flag.
Proof.
  intros Hsize Hfind. unfold flag_only_of, Str.substr. rewrite Hfind.
  rewrite N.sub_0_r, N.min_r by done.
  unfold Str.size. rewrite Nat2N.id. change (N.to_nat 0) with 0%nat.
  clear. induction flag as [|c flag IH]; simpl; [done|by rewrite IH].
Qed.

(** C8.  STRICT: when the token at [i] is a long-form spelling (it starts
    with the long marker) without an equals sign, and it is registered as an
    integer or as a floating flag, the iteration appends the whole token to
    the unrecognized flags and advances [i] by one; the object and the
    memory, so also the bound cell, are left as they were. *)
Theorem C8_numeric_long_form_without_equals (f : Frame floating_t)
  (flag : string) (t : TYPE) (data : addr) :
  t = INT \/ t = FLOAT ->
  read_argv (this f) (mem f) (i f) = Returns flag ->
  Str.find "--" flag = 0%N ->
  Str.find "=" flag = Str.npos ->
  main_lookup (this f) !! flag_only_of flag = Some t ->
  typed_lookup t (this f) !! flag_only_of flag = Some data ->
  body stod STRICT f
  = Returns (mkFrame (this f) (mem f) (i f + 1)%Z (invalid_flags f ++ [flag])).
Proof.
  intros Ht Hread Hlong Hequals Hmain Htyped.
  unfold body, body_STRICT. rewrite Hread. simpl. rewrite Hmain.
  destruct Ht as [-> | ->];
    unfold HANDLE_NUMERIC_FLAGS, at_lookup; rewrite Htyped; simpl;
    rewrite Hlong, Hequals; reflexivity.
Qed.

(** ** Tokens that are not in the registry *)

Lemma expand_keeps_i (flag : string) (f f' : Frame floating_t) :
  expand flag f = Returns f' -> i f' = i f.
Proof.
  unfold expand. intros H. repeat case_match; simplify_eq; done.
Qed.

(** C7.  For a token whose flag-only part is not in the registry, in either
    dialect: the token is treated as flag-like (reported as unrecognized
    when its first two characters are no registered spelling, expanded as a
    combination flag otherwise) exactly when its first character is the
    first character of the first key of the registry, the least spelling in
    byte order; every other token is appended to the options and [i]
    advances by one. *)
Theorem C7_flag_like_iff_first_key (behaviour : BEHAVIOUR)
  (f : Frame floating_t) (flag first : string) :
  read_argv (this f) (mem f) (i f) = Returns flag ->
  main_lookup (this f) !! flag_only_of flag = None ->
  map_begin (main_lookup (this f)) = Some first ->
  (Str.front flag = Str.front first ->
   body stod behaviour f
   = match main_lookup (this f) !! Str.substr flag 0 2 with
     | None => Returns (advance 1 (push_invalid flag f))
     | Some _ => expand flag f
     end)
  /\ (Str.front flag <> Str.front first <->
      body stod behaviour f = Returns (advance 1 (push_option flag f))).
Proof.
  intros Hread Hmain Hfirst.
  assert (Hbody : body stod behaviour f = not_in_lookup flag f).
  { destruct behaviour; unfold body, body_STRICT, body_AS_IS;
      rewrite Hread; simpl; by rewrite Hmain. }
  rewrite Hbody. unfold not_in_lookup. rewrite Hfirst.
  destruct (Ascii.eqb_spec (Str.front first) (Str.front flag)) as [Heq|Hne].
  - split; [done|]. split; [congruence|]. intros Hopt _.
    destruct (main_lookup (this f) !! Str.substr flag 0 2).
    + apply expand_keeps_i in Hopt. simpl in Hopt. lia.
    + apply (f_equal (fun o => match o with
                               | Returns f' => length (invalid_flags f')
                               | _ => 0%nat
                               end)) in Hopt.
      simpl in Hopt. rewrite length_app in Hopt. simpl in Hopt. lia.
  - split; [congruence|]. split; [done|congruence].
Qed.

(** ** The error [no_argv] *)

Lemma bind_not_no_argv {A B : Type} (o : outcome floating_t A)
  (k : A -> outcome floating_t B) :
  not_no_argv o -> (forall a, not_no_argv (k a)) ->
  not_no_argv (outcome_bind k o).
Proof. destruct o; simpl; auto. Qed.

Lemma read_argv_not_no_argv (g : GetOpt) (m : Memory floating_t) (k : Z) :
  not_no_argv (read_argv g m k).
Proof. unfold read_argv. repeat case_match; done. Qed.

Lemma load_not_no_argv {A : Type} (cells : list A) (data : addr) :
  not_no_argv (load (floating_t := floating_t) cells data).
Proof. unfold load. case_match; done. Qed.

Lemma store_not_no_argv {A : Type} (cells : list A) (data : addr) (v : A) :
  not_no_argv (store (floating_t := floating_t) cells data v).
Proof. unfold store. case_match; done. Qed.

Lemma at_lookup_not_no_argv (t : TYPE) (f : Frame floating_t)
  (flag_only : string) :
  not_no_argv (at_lookup t f flag_only).
Proof. unfold at_lookup. case_match; done. Qed.

Lemma expand_not_no_argv (flag : string) (f : Frame floating_t) :
  not_no_argv (expand flag f).
Proof. unfold expand. repeat case_match; done. Qed.

Lemma not_in_lookup_not_no_argv (flag : string) (f : Frame floating_t) :
  not_no_argv (not_in_lookup flag f).
Proof.
  unfold not_in_lookup. repeat case_match; try done.
  apply expand_not_no_argv.
Qed.

Lemma assign_converted_not_no_argv {A : Type}
  (conversion : string -> conversion_exn + A)
  (assign : addr -> A -> Frame floating_t -> outcome floating_t (Frame floating_t))
  (data : addr) (text : string) (f : Frame floating_t) :
  (forall d v f', not_no_argv (assign d v f')) ->
  not_no_argv (assign_converted conversion assign data text f).
Proof.
  intros Hassign. unfold assign_converted.
  destruct (conversion _) as [[]|v]; simpl; auto; done.
Qed.

(** The steps of the loop body that cannot raise [no_argv]. *)
Ltac not_no_argv_step :=
  first
    [ apply bind_not_no_argv; [|intros ?]
    | apply read_argv_not_no_argv
    | apply load_not_no_argv
    | apply store_not_no_argv
    | apply at_lookup_not_no_argv
    | apply not_in_lookup_not_no_argv
    | apply assign_converted_not_no_argv; intros ? ? ?
    | case_match
    | exact I ].

Lemma body_not_no_argv (behaviour : BEHAVIOUR) (f : Frame floating_t) :
  not_no_argv (body stod behaviour f).
Proof.
  destruct behaviour;
    unfold body, body_STRICT, body_AS_IS, bool_STRICT, bool_AS_IS,
      HANDLE_NUMERIC_FLAGS, HANDLE_NUMERIC_FLAGS_AS_IS, bool_of_next,
      store_bool, store_float, store_int, store_str;
    repeat not_no_argv_step.
Qed.

Lemma while_loop_not_no_argv (behaviour : BEHAVIOUR) (fuel : nat)
  (f : Frame floating_t) (o : outcome floating_t (Frame floating_t)) :
  while_loop (body stod behaviour) fuel f = Some o -> not_no_argv o.
Proof.
  revert f. induction fuel as [|fuel IH]; intros f; simpl.
  - case_match; [done|]. by intros [= <-].
  - case_match; [|by intros [= <-]].
    pose proof (body_not_no_argv behaviour f) as Hbody.
    destruct (body stod behaviour f); [apply IH| |]; by intros [= <-].
Qed.

(** C9.  [readArgs], in either dialect and with any fuel, throws [no_argv]
    exactly when [_argv] is null, i.e. when no argument vector has been
    supplied; it then throws at once, with the object (registry and options
    included) and the memory (every storage cell included) as they were. *)
Theorem C9_no_argv_iff_unset (behaviour : BEHAVIOUR) (fuel : nat)
  (g : GetOpt) (m : Memory floating_t) :
  ((exists g' m',
      readArgs stod behaviour fuel g m = Some (Throws no_argv g' m'))
   <-> _argv g = None)
  /\ (_argv g = None ->
      readArgs stod behaviour fuel g m = Some (Throws no_argv g m)).
Proof.
  assert (Hnull : _argv g = None ->
                  readArgs stod behaviour fuel g m = Some (Throws no_argv g m)).
  { unfold readArgs. by intros ->. }
  split; [split|]; [|by eauto|done].
  intros (g' & m' & Hthrow).
  destruct (_argv g) as [p|] eqn:Hp; [exfalso|done].
  unfold readArgs, __internal_readArgs_STRICT, __internal_readArgs_AS_IS,
    __internal_readArgs in Hthrow.
  rewrite Hp in Hthrow.
  assert (exists f0, while_loop (body stod behaviour) fuel f0
                     = Some (Throws no_argv g' m')) as [f0 Hloop].
  { destruct behaviour;
      destruct (while_loop _ fuel _) as [[| |]|] eqn:Hloop;
      simplify_eq; eauto. }
  by apply while_loop_not_no_argv in Hloop.
Qed.

(** ** Combination flags *)
Lemma length_chars (s : string) : length (Str.chars s) = String.length s.
Proof.
  unfold Str.chars. induction s as [|c s IH]; simpl; [done|by rewrite IH].
Qed.

(** The combination-flag branch in general.  For a vector whose current
    token lives in a buffer of at least two characters, the expansion returns
    without advancing [i]; the vector grows by one token per interior
    character; the token at [i] now reads marker plus final character; every
    other old position whose pointer differs from the one at [i] reads as
    before; and the new positions read marker plus interior character, in
    order.  The rewrite at [i] goes through the old pointer: it changes the
    buffer [a] that the old vector points to as well. *)
Lemma expand_spec (flag : string) (f : Frame floating_t) (p a : addr)
  (old : list addr) (current : string) (lastFlag : ascii) :
  _argv (this f) = Some p ->
  arrays (mem f) !! p = Some (Some old) ->
  (0 <= i f < _argc (this f))%Z ->
  (_argc (this f) <= Z.of_nat (length old))%Z ->
  old !! Z.to_nat (i f) = Some a ->
  buffers (mem f) !! a = Some (Some current) ->
  (2 <= String.length current)%nat ->
  Str.back flag = Some lastFlag ->
  let interior := Str.chars (Str.substr flag 1 (Str.sub (Str.size flag) 2)) in
  exists f',
    expand flag f = Returns f'
    /\ i f' = i f
    /\ invalid_flags f' = invalid_flags f
    /\ _argc (this f') = (_argc (this f) + Z.of_nat (length interior))%Z
    /\ buffers (mem f') !! a = Some (Some (Str.dash lastFlag))
    /\ arrays (mem f') !! p = Some (Some old)
    /\ read_argv (this f') (mem f') (i f) = Returns (Str.dash lastFlag)
    /\ (forall (j : nat) (b : addr) (token : string),
          (Z.of_nat j < _argc (this f))%Z ->
          old !! j = Some b -> b <> a ->
          buffers (mem f) !! b = Some (Some token) ->
          read_argv (this f') (mem f') (Z.of_nat j) = Returns token)
    /\ (forall (k : nat) (c : ascii),
          interior !! k = Some c ->
          read_argv (this f') (mem f') (_argc (this f) + Z.of_nat k)
          = Returns (Str.dash c)).
Proof.
  intros Hargv Hold Hi Hargc Ha Hcur Hlen Hback interior.
  unfold expand. cbv zeta. rewrite Hback, Hargv. rewrite Hold.
  assert (Hno : ((_argc (this f) <? 0)%Z
                 || (Z.of_nat (length old) <? _argc (this f))%Z) = false).
  { apply orb_false_iff. split; apply Z.ltb_ge; lia. }
  rewrite Hno.
  assert (Hi0 : (i f <? 0)%Z = false) by (apply Z.ltb_ge; lia).
  rewrite Hi0.
  fold interior.
  set (fresh := seq (length (buffers (mem f))) (length interior)).
  set (kept := take (Z.to_nat (_argc (this f))) old).
  assert (Hkept_len : length kept = Z.to_nat (_argc (this f))).
  { unfold kept. rewrite length_take. lia. }
  assert (Hkept : forall j, (Z.of_nat j < _argc (this f))%Z ->
                            (kept ++ fresh) !! j = old !! j).
  { intros j Hj. rewrite lookup_app_l by lia.
    unfold kept. apply lookup_take_lt. lia. }
  assert (Ha_lt : (a < length (buffers (mem f)))%nat)
    by (by eapply lookup_lt_Some).
  rewrite (Hkept (Z.to_nat (i f))) by lia. rewrite Ha.
  rewrite lookup_app_l by done. rewrite Hcur.
  assert (Hlt2 : (String.length current <? 2)%nat = false)
    by (apply Nat.ltb_ge; lia).
  rewrite Hlt2.
  eexists. split; [reflexivity|]. simpl.
  split; [done|]. split; [done|]. split.
  { unfold interior, Str.size. rewrite length_chars. lia. }
  split.
  { rewrite list_lookup_insert_eq; [done|]. rewrite length_app. lia. }
  split.
  { rewrite lookup_app_l; [done|]. by eapply lookup_lt_Some. }
  assert (Harr : forall A (l : list A) x, (l ++ [x]) !! length l = Some x).
  { intros A l x. rewrite lookup_app_r by lia.
    by rewrite Nat.sub_diag. }
  unfold read_argv. simpl. rewrite Harr.
  split.
  { rewrite Hi0. rewrite (Hkept (Z.to_nat (i f))) by lia. rewrite Ha.
    rewrite list_lookup_insert_eq; [done|]. rewrite length_app. lia. }
  split.
  - intros j b token Hj Hb Hne Htoken.
    assert (Hj0 : (Z.of_nat j <? 0)%Z = false) by (apply Z.ltb_ge; lia).
    rewrite Hj0, Nat2Z.id, (Hkept j) by lia. rewrite Hb.
    rewrite list_lookup_insert_ne by done.
    rewrite lookup_app_l by (by eapply lookup_lt_Some). by rewrite Htoken.
  - intros k c Hk.
    assert (Hk0 : (_argc (this f) + Z.of_nat k <? 0)%Z = false)
      by (apply Z.ltb_ge; lia).
    rewrite Hk0.
    assert (Hklt : (k < length interior)%nat) by (by eapply lookup_lt_Some).
    replace (Z.to_nat (_argc (this f) + Z.of_nat k))
      with (length kept + k)%nat by lia.
    rewrite lookup_app_r by lia.
    replace (length kept + k - length kept)%nat with k by lia.
    unfold fresh. rewrite lookup_seq_lt by done.
    rewrite list_lookup_insert_ne by lia.
    rewrite lookup_app_r by lia.
    replace (length (buffers (mem f)) + k - length (buffers (mem f)))%nat
      with k by lia.
    rewrite list_lookup_fmap, Hk. done.
Qed.

(** C4.  With the boolean flags [-a], [-b] and [-c] registered, whatever
    their default values, and the caller-made vector [-abc], one parse pass
    (either dialect) returns and reports no unrecognized flag, and its first
    iteration expands the cluster as the claim says: [i] is not advanced,
    the current position is rewritten to the marker and the final character
    ([-c]) and one two-character token per interior character ([-a], [-b])
    follows the old end.  The three booleans are not all set, though: a
    boolean flag whose cell is [true] already passes two tokens, so [-c]
    with the default [true] passes over [-a], which keeps its default, and
    [-a] with the default [true] passes over [-b].  With
    [flagBoolean("-c", true)] and [flagBoolean("-a", false)] the boolean of
    [-a] is [false] after the pass. *)
Theorem C4_clustered_flags_depend_on_defaults (behaviour : BEHAVIOUR)
  (fuel : nat) (default_a default_b default_c : bool) :
  let '(a, b, c, argv, g, m) :=
    clustered_with (F := floating_t) default_a default_b default_c in
  match readArgs stod behaviour (4 + fuel) g m with
  | Some (Returns (unrecognized, g', m')) =>
      unrecognized = []
      /\ bool_cells m' !! a = Some (if default_c then default_a else true)
      /\ bool_cells m' !! b
         = Some (if default_c then true
                 else if default_a then default_b else true)
      /\ bool_cells m' !! c = Some true
  | _ => False
  end
  /\ _argc g = 1%Z
  /\ read_argv g m 0 = Returns "-abc"
  /\ match body stod behaviour (prologue g m) with
     | Returns f =>
         i f = 0%Z
         /\ invalid_flags f = []
         /\ _argc (this f) = 3%Z
         /\ read_argv (this f) (mem f) 0 = Returns "-c"
         /\ read_argv (this f) (mem f) 1 = Returns "-a"
         /\ read_argv (this f) (mem f) 2 = Returns "-b"
     | _ => False
     end.
Proof.
  open_scenario
    (tuple6_eta (@clustered_with floating_t default_a default_b default_c)).
  destruct default_a, default_b, default_c, behaviour; run_readArgs; done.
Qed.

(** ** The caller's vector *)

(** [readArgs] hands back the object with the [_argv] it was called with,
    whether or not the vector was expanded on the way. *)
Lemma readArgs_restores_argv (behaviour : BEHAVIOUR) (fuel : nat)
  (g g' : GetOpt) (m m' : Memory floating_t) (inv : list string) :
  readArgs stod behaviour fuel g m = Some (Returns (inv, g', m')) ->
  _argv g' = _argv g.
Proof.
  unfold readArgs, __internal_readArgs_STRICT, __internal_readArgs_AS_IS,
    __internal_readArgs.
  destruct (_argv g) as [p|] eqn:Hp; [|destruct behaviour; discriminate].
  intros H.
  assert (exists f, (inv, g', m') = epilogue (Some p) f) as [f Hf].
  { destruct behaviour;
      destruct (while_loop _ fuel _) as [[f| |]|]; simplify_eq; eauto. }
  unfold epilogue in Hf.
  destruct (decide (_argv (this f) = Some p)); simplify_eq; done.
Qed.

(** An iteration leaves the pointer arrays that exist as they are; it can
    only add one, the expansion buffer. *)
Lemma body_keeps_arrays (behaviour : BEHAVIOUR) (f f' : Frame floating_t) :
  body stod behaviour f = Returns f' ->
  exists added, arrays (mem f') = arrays (mem f) ++ added.
Proof.
  intros H.
  assert (Hsame : forall f0 : Frame floating_t,
             arrays (mem f0) = arrays (mem f) ->
             exists added, arrays (mem f0) = arrays (mem f) ++ added).
  { intros f0 ->. exists []. by rewrite app_nil_r. }
  destruct behaviour;
    unfold body, body_STRICT, body_AS_IS, bool_STRICT, bool_AS_IS,
      HANDLE_NUMERIC_FLAGS, HANDLE_NUMERIC_FLAGS_AS_IS, bool_of_next,
      assign_converted, store_bool, store_float, store_int, store_str,
      not_in_lookup, expand, at_lookup, load, store, no_conversion,
      mbind, mret, outcome_mbind, outcome_mret, outcome_bind in H;
    repeat case_match; simplify_eq; simpl;
    try (by apply Hsame); by eexists [_].
Qed.
Lemma while_loop_keeps_arrays (behaviour : BEHAVIOUR) (fuel : nat)
  (f f' : Frame floating_t) :
  while_loop (body stod behaviour) fuel f = Some (Returns f') ->
  exists added, arrays (mem f') = arrays (mem f) ++ added.
Proof.
  assert (Hnone : forall f0 : Frame floating_t,
             exists added, arrays (mem f0) = arrays (mem f0) ++ added).
  { intros f0. exists []. by rewrite app_nil_r. }
  revert f. induction fuel as [|fuel IH]; intros f; simpl.
  - case_match; [done|]. by intros [= <-].
  - case_match; [|by intros [= <-]].
    destruct (body stod behaviour f) as [f1| |] eqn:Hbody; [|done|done].
    intros Hloop.
    destruct (body_keeps_arrays _ _ _ Hbody) as [added1 H1].
    destruct (IH _ Hloop) as [added2 H2].
    exists (added1 ++ added2). by rewrite H2, H1, app_assoc.
Qed.

(** The pointer array of the caller comes back as it was handed in, and
    [_argv] points to it again: what a pass changes of the caller's vector
    are token buffers, never the array. *)
Lemma readArgs_keeps_callers_array (behaviour : BEHAVIOUR) (fuel : nat)
  (g g' : GetOpt) (m m' : Memory floating_t) (inv : list string)
  (p : addr) (cells : option (list addr)) :
  _argv g = Some p ->
  arrays m !! p = Some cells ->
  readArgs stod behaviour fuel g m = Some (Returns (inv, g', m')) ->
  _argv g' = Some p /\ arrays m' !! p = Some cells.
Proof.
  intros Hp Hcells Hrun.
  split; [by rewrite (readArgs_restores_argv _ _ _ _ _ _ _ Hrun)|].
  unfold readArgs, __internal_readArgs_STRICT, __internal_readArgs_AS_IS,
    __internal_readArgs in Hrun.
  rewrite Hp in Hrun.
  assert (exists f, while_loop (body stod behaviour) fuel (prologue g m)
                    = Some (Returns f)
                    /\ (inv, g', m') = epilogue (Some p) f)
    as (f & Hloop & Hepi).
  { destruct behaviour;
      destruct (while_loop _ fuel _) as [[f| |]|] eqn:Hloop;
      simplify_eq; eauto. }
  destruct (while_loop_keeps_arrays _ _ _ _ Hloop) as [added Hadded].
  simpl in Hadded.
  assert (Hkept : arrays (mem f) !! p = Some cells).
  { rewrite Hadded. rewrite lookup_app_l; [done|]. by eapply lookup_lt_Some. }
  unfold epilogue in Hepi.
  destruct (decide (_argv (this f) = Some p)) as [|Hne]; simplify_eq; [done|].
  simpl. destruct (_argv (this f)) as [q|]; [|done].
  rewrite list_lookup_insert_ne; [done|]. congruence.
Qed.

(** C5.  The cluster expansion writes through the copied pointer: with the
    flags [-a], [-b], [-c] and the caller-made vector [-abc], the parse
    returns with [_argv] restored to the caller's array and that array's
    cell unchanged, but the caller's token now reads [-c]; [_argc] stays at
    the expanded length. *)
Theorem C5_cluster_overwrites_callers_token (behaviour : BEHAVIOUR)
  (fuel : nat) :
  let '(a, b, c, argv, g, m) := clustered (F := floating_t) in
  _argv g = Some argv
  /\ read_argv g m 0 = Returns "-abc"
  /\ match readArgs stod behaviour (4 + fuel) g m with
     | Some (Returns (unrecognized, g', m')) =>
         _argv g' = Some argv
         /\ arrays m' !! argv = arrays m !! argv
         /\ read_argv g' m' 0 = Returns "-c"
         /\ _argc g' = 3%Z
     | _ => False
     end.
Proof.
  open_scenario (tuple6_eta (@clustered floating_t)).
  destruct behaviour; run_readArgs; done.
Qed.

(** ** Boolean flags followed by a value *)

(** What the shared condition of lines 246-253 and 378-385 does, for a live
    cell holding [current] and [next] the token at [_argv[index + 1]]: on the
    text 0 the cell is left alone and two tokens are passed; otherwise the
    cell becomes [true], and two tokens are passed when [next] is the text 1
    or the cell was already [true], one token otherwise. *)
Lemma bool_of_next_spec (data : addr) (index : N) (f : Frame floating_t)
  (next : string) (current : bool) :
  read_argv (this f) (mem f) (Z.of_N (Str.add index 1)) = Returns next ->
  bool_cells (mem f) !! data = Some current ->
  bool_of_next data index f
  = Returns
      (if String.eqb (stripQuotes next) "0" then advance 2 f
       else
         let f' :=
           with_mem
             (set_bool_cells
                (<[data := true]> (bool_cells (mem f))) (mem f)) f in
         if String.eqb (stripQuotes next) "1" || current
         then advance 2 f' else advance 1 f').
Proof.
  intros Hnext Hcell. unfold bool_of_next. rewrite Hnext. simpl.
  destruct (String.eqb (stripQuotes next) "0"); [done|].
  unfold load. rewrite Hcell. simpl.
  destruct (String.eqb (stripQuotes next) "1"); simpl.
  - unfold store_bool, store. rewrite Hcell. done.
  - destruct current; unfold store_bool, store; rewrite Hcell; simpl.
    + done.
    + rewrite list_lookup_insert_eq by (by eapply lookup_lt_Some).
      simpl. unfold with_mem, set_bool_cells, advance. simpl.
      by rewrite list_insert_insert_eq.
Qed.

(** In STRICT a short-form boolean flag looks at [_argv[1]], in AS_IS a
    boolean flag without an equals sign looks at [_argv[0]], wherever the flag
    itself stands. *)
Lemma body_STRICT_boolean_short (f : Frame floating_t) (flag : string)
  (data : addr) :
  read_argv (this f) (mem f) (i f) = Returns flag ->
  main_lookup (this f) !! flag_only_of flag = Some BOOL ->
  bool_lookup (this f) !! flag_only_of flag = Some data ->
  Str.find "--" flag <> 0%N ->
  body stod STRICT f = bool_of_next data 0 f
  /\ Z.of_N (Str.add 0 1) = 1%Z.
Proof.
  intros Hread Hmain Hdata Hshort. split; [|done].
  unfold body, body_STRICT. rewrite Hread. simpl. rewrite Hmain.
  unfold bool_STRICT, at_lookup. simpl. rewrite Hdata. simpl.
  by apply N.eqb_neq in Hshort as ->.
Qed.

Lemma body_AS_IS_boolean_without_equals (f : Frame floating_t) (flag : string)
  (data : addr) :
  read_argv (this f) (mem f) (i f) = Returns flag ->
  main_lookup (this f) !! flag_only_of flag = Some BOOL ->
  bool_lookup (this f) !! flag_only_of flag = Some data ->
  Str.find "=" flag = Str.npos ->
  body stod AS_IS f = bool_of_next data Str.npos f
  /\ Z.of_N (Str.add Str.npos 1) = 0%Z.
Proof.
  intros Hread Hmain Hdata Hequals. split; [|done].
  unfold body, body_AS_IS. rewrite Hread. simpl. rewrite Hmain.
  unfold bool_AS_IS, at_lookup. simpl. rewrite Hdata. simpl.
  by rewrite Hequals.
Qed.

(** C1.  STRICT, one boolean flag [-a].  On the system-style vector
    [prog -a 0] (default [false]) the token compared with the text 0 is
    [_argv[1]], the flag itself: the boolean ends up [true] and the token [0]
    is not consumed but collected as an option.  On the caller-made vector
    [-a 0] (default [true]), where [_argv[1]] is the following token, the two
    tokens are consumed but nothing is stored: the boolean is still [true]. *)
Theorem C1_strict_short_zero_not_stored (fuel : nat) :
  (let '(a, g, m) :=
     one_boolean (F := floating_t) false ["prog"; "-a"; "0"] true in
   match readArgs stod STRICT (2 + fuel) g m with
   | Some (Returns (unrecognized, g', m')) =>
       unrecognized = []
       /\ bool_cells m' !! a = Some true
       /\ getOptions g' = ["0"]
   | _ => False
   end)
  /\ (let '(a, g, m) :=
        one_boolean (F := floating_t) true ["-a"; "0"] false in
      match readArgs stod STRICT (1 + fuel) g m with
      | Some (Returns (unrecognized, g', m')) =>
          unrecognized = []
          /\ bool_cells m' !! a = Some true
          /\ getOptions g' = []
      | _ => False
      end).
Proof.
  split.
  - open_scenario
      (tuple3_eta (@one_boolean floating_t false ["prog"; "-a"; "0"] true)).
    run_readArgs. done.
  - open_scenario
      (tuple3_eta (@one_boolean floating_t true ["-a"; "0"] false)).
    run_readArgs. done.
Qed.

(** C2.  AS_IS, flag [-a,--append] (default [false]): the forms without an
    equals sign compare [_argv[0]] (the index is [npos + 1]) with the text 0
    and leave the boolean [true], with [0] collected as an option; the forms
    with an equals sign set it to [false]. *)
Theorem C2_as_is_forms_differ (fuel : nat) :
  let run tokens :=
    let '(a, g, m) := one_boolean (F := floating_t) false tokens true in
    match readArgs stod AS_IS (2 + fuel) g m with
    | Some (Returns (unrecognized, g', m')) =>
        Some (unrecognized, bool_cells m' !! a, getOptions g')
    | _ => None
    end in
  run ["prog"; "-a"; "0"] = Some ([], Some true, ["0"])
  /\ run ["prog"; "--append"; "0"] = Some ([], Some true, ["0"])
  /\ run ["prog"; "-a=0"] = Some ([], Some false, [])
  /\ run ["prog"; "--append=0"] = Some ([], Some false, []).
Proof.
  cbv zeta. split; [|split; [|split]].
  - open_scenario
      (tuple3_eta (@one_boolean floating_t false ["prog"; "-a"; "0"] true)).
    run_readArgs. done.
  - open_scenario
      (tuple3_eta
         (@one_boolean floating_t false ["prog"; "--append"; "0"] true)).
    run_readArgs. done.
  - open_scenario
      (tuple3_eta (@one_boolean floating_t false ["prog"; "-a=0"] true)).
    run_readArgs. done.
  - open_scenario
      (tuple3_eta
         (@one_boolean floating_t false ["prog"; "--append=0"] true)).
    run_readArgs. done.
Qed.

(** C10.  STRICT, flag [-a], caller-made vector [-a]: the boolean branch
    reads [_argv[1]] of a one-cell array. *)
Theorem C10_strict_boolean_last_token_out_of_bounds (fuel : nat) :
  let '(a, g, m) := one_boolean (F := floating_t) false ["-a"] false in
  _argc g = 1%Z
  /\ read_argv g m 0 = Returns "-a"
  /\ readArgs stod STRICT (1 + fuel) g m
     = Some (Undefined index_out_of_bounds).
Proof.
  open_scenario (tuple3_eta (@one_boolean floating_t false ["-a"] false)).
  run_readArgs. done.
Qed.

(** ** One iteration, in general *)

Lemma store_twice {A : Type} (cells : list A) (data : addr) (v v' : A) :
  <[data := v']> (<[data := v]> cells) = <[data := v']> cells.
Proof. apply list_insert_insert_eq. Qed.

Lemma read_argv_never_throws (g g' : GetOpt) (m m' : Memory floating_t)
  (k : Z) (e : exn) :
  read_argv g m k <> Throws e g' m'.
Proof. unfold read_argv. repeat case_match; done. Qed.

Lemma expand_never_throws (flag : string) (f : Frame floating_t) (e : exn)
  (g' : GetOpt) (m' : Memory floating_t) :
  expand flag f <> Throws e g' m'.
Proof. unfold expand. repeat case_match; done. Qed.

Lemma store_bool_twice (f : Frame floating_t) (data : addr) (v v' : bool) :
  with_mem
    (set_bool_cells (<[data := v']> (<[data := v]> (bool_cells (mem f))))
       (set_bool_cells (<[data := v]> (bool_cells (mem f))) (mem f)))
    (with_mem (set_bool_cells (<[data := v]> (bool_cells (mem f))) (mem f)) f)
  = with_mem (set_bool_cells (<[data := v']> (bool_cells (mem f))) (mem f)) f.
Proof.
  unfold with_mem, set_bool_cells. simpl. by rewrite list_insert_insert_eq.
Qed.

(** Every iteration is one of the five of [iteration]; an iteration that
    throws has changed nothing. *)
Lemma body_sound (behaviour : BEHAVIOUR) (f : Frame floating_t) :
  match body stod behaviour f with
  | Returns f' => iteration f f'
  | Throws e g m => g = this f /\ m = mem f /\ iteration_exception (this f) e
  | Undefined _ => True
  end.
Proof.
  destruct (read_argv (this f) (mem f) (i f)) as [flag| |] eqn:Hread.
  2:{ by apply read_argv_never_throws in Hread. }
  2:{ destruct behaviour; unfold body, body_STRICT, body_AS_IS;
        by rewrite Hread. }
  destruct behaviour;
    unfold body, body_STRICT, body_AS_IS; rewrite Hread; simpl;
    unfold bool_STRICT, bool_AS_IS,
      HANDLE_NUMERIC_FLAGS, HANDLE_NUMERIC_FLAGS_AS_IS, bool_of_next,
      assign_converted, store_bool, store_float, store_int, store_str,
      not_in_lookup, at_lookup, load, store, no_conversion,
      mbind, mret, outcome_mbind, outcome_mret, outcome_bind;
    repeat case_match; simplify_eq; simpl; try done;
    try (exfalso; eapply read_argv_never_throws; eassumption);
    try (exfalso; eapply expand_never_throws; eassumption);
    try (split; [done|split; [done|]]);
    try (left; by eexists);
    try (right; split; [done|]; eexists _, _; split; eassumption);
    try (by apply iteration_invalid);
    try (by apply iteration_option);
    try (eapply iteration_expand; eassumption);
    try (eapply iteration_pass; eassumption);
    rewrite ?store_bool_twice;
    (eapply iteration_store; [eassumption| |by auto]);
    first [ eapply write_bool | eapply write_float
          | eapply write_int | eapply write_str ]; eauto.
Qed.

(** ** Invariants of a pass *)

(** What holds at the start of the loop and is kept by every iteration that
    returns holds in the frame the loop ends with, and in the frame of the
    iteration that throws. *)
Lemma while_loop_invariant (P : Frame floating_t -> Prop)
  (behaviour : BEHAVIOUR) (fuel : nat) (f : Frame floating_t)
  (o : outcome floating_t (Frame floating_t)) :
  P f ->
  (forall f1 f2, P f1 -> iteration f1 f2 -> P f2) ->
  while_loop (body stod behaviour) fuel f = Some o ->
  match o with
  | Returns f' => P f' /\ (_argc (this f') <= i f')%Z
  | Throws e g m =>
      exists f', P f' /\ g = this f' /\ m = mem f'
                 /\ iteration_exception (this f') e
  | Undefined _ => True
  end.
Proof.
  intros Hf Hstep. revert f Hf.
  induction fuel as [|fuel IH]; intros f Hf; simpl.
  - destruct (Z.ltb_spec (i f) (_argc (this f))); [done|].
    intros [= <-]. split; [done|lia].
  - destruct (Z.ltb_spec (i f) (_argc (this f))).
    2:{ intros [= <-]. split; [done|lia]. }
    pose proof (body_sound behaviour f) as Hbody.
    destruct (body stod behaviour f) as [f1|e g m|u].
    + apply IH. by eapply Hstep.
    + intros [= <-]. destruct Hbody as (-> & -> & He). eauto.
    + by intros [= <-].
Qed.

(** A pass that gets past the null check runs the loop from [prologue] and,
    when the loop ends, the [epilogue]. *)
Lemma readArgs_unfold (behaviour : BEHAVIOUR) (fuel : nat) (g : GetOpt)
  (m : Memory floating_t) (p : addr) :
  _argv g = Some p ->
  readArgs stod behaviour fuel g m
  = match while_loop (body stod behaviour) fuel (prologue g m) with
    | None => None
    | Some (Returns f) => Some (Returns (epilogue (Some p) f))
    | Some (Throws e g' m') => Some (Throws e g' m')
    | Some (Undefined u) => Some (Undefined u)
    end.
Proof.
  intros Hp.
  unfold readArgs, __internal_readArgs_STRICT, __internal_readArgs_AS_IS,
    __internal_readArgs.
  rewrite Hp. by destruct behaviour.
Qed.

(** The invariant rule for a whole pass, for the object and the memory that
    come back from it. *)
Lemma readArgs_invariant (P : Frame floating_t -> Prop)
  (behaviour : BEHAVIOUR) (fuel : nat) (g : GetOpt) (m : Memory floating_t) :
  P (prologue g m) ->
  (forall f1 f2, P f1 -> iteration f1 f2 -> P f2) ->
  match readArgs stod behaviour fuel g m with
  | Some (Returns r) =>
      exists f, P f /\ (_argc (this f) <= i f)%Z /\ r = epilogue (_argv g) f
  | Some (Throws e g' m') =>
      e = no_argv /\ g' = g /\ m' = m /\ _argv g = None
      \/ exists f, P f /\ g' = this f /\ m' = mem f
                   /\ iteration_exception g' e
  | _ => True
  end.
Proof.
  intros Hstart Hstep.
  destruct (_argv g) as [p|] eqn:Hp.
  2:{ unfold readArgs. rewrite Hp. by left. }
  rewrite (readArgs_unfold _ _ _ _ _ Hp).
  destruct (while_loop _ fuel _) as [o|] eqn:Hloop; [|done].
  pose proof (while_loop_invariant P _ _ _ _ Hstart Hstep Hloop) as Ho.
  destruct o as [f|e g' m'|u]; [| |done].
  - destruct Ho. eauto.
  - right. destruct Ho as (f & Hf & -> & -> & He). eauto.
Qed.

(** The frame an expansion returns, spelled out. *)
Lemma expand_inv (flag : string) (f f' : Frame floating_t) :
  expand flag f = Returns f' ->
  exists (p a : addr) (old : list addr) (current : string) (lastFlag : ascii),
    let interior := Str.chars (Str.substr flag 1 (Str.sub (Str.size flag) 2)) in
    let fresh := seq (length (buffers (mem f))) (length interior) in
    let written :=
      buffers (mem f) ++ ((fun c => Some (Str.dash c)) <$> interior) in
    _argv (this f) = Some p
    /\ arrays (mem f) !! p = Some (Some old)
    /\ Str.back flag = Some lastFlag
    /\ (0 <= _argc (this f) <= Z.of_nat (length old))%Z
    /\ (0 <= i f)%Z
    /\ (take (Z.to_nat (_argc (this f))) old ++ fresh) !! Z.to_nat (i f)
       = Some a
    /\ written !! a = Some (Some current)
    /\ (2 <= String.length current)%nat
    /\ f' = mkFrame
              (set_argv (Some (length (arrays (mem f))))
                 (set_argc
                    (_argc (this f)
                     + Z.of_N (Str.size
                                 (Str.substr flag 1
                                    (Str.sub (Str.size flag) 2))))%Z
                    (set_allocs (allocs (this f) ++ fresh) (this f))))
              (set_arrays
                 (arrays (mem f)
                  ++ [Some (take (Z.to_nat (_argc (this f))) old ++ fresh)])
                 (set_buffers (<[a := Some (Str.dash lastFlag)]> written)
                    (mem f)))
              (i f) (invalid_flags f).
Proof.
  unfold expand. cbv zeta. intros H.
  repeat case_match; simplify_eq.
  match goal with
  | H : (_ || _) = false |- _ => apply orb_false_iff in H as [?%Z.ltb_ge ?%Z.ltb_ge]
  end.
  repeat match goal with
         | H : (_ <? _)%Z = false |- _ => apply Z.ltb_ge in H
         | H : (_ <? _)%nat = false |- _ => apply Nat.ltb_ge in H
         end.
  eexists _, _, _, _, _. repeat split; try eassumption; try lia; reflexivity.
Qed.

Lemma size_chars (s : string) :
  Z.of_N (Str.size s) = Z.of_nat (length (Str.chars s)).
Proof. unfold Str.size. rewrite length_chars. lia. Qed.

(** An iteration leaves the lookup tables and [_from_sys] alone. *)
Lemma iteration_registry (f f' : Frame floating_t) :
  iteration f f' ->
  registry_of (this f') = registry_of (this f)
  /\ _from_sys (this f') = _from_sys (this f).
Proof.
  intros [flag Hread|flag Hread|flag t f1 Hread Hnone Hsome Hexp|flag Hread|flag m1 n Hread Hw Hn]; try done.
  destruct (expand_inv _ _ _ Hexp) as (p & a & old & cur & lf & H).
  cbv zeta in H. destruct H as (_ & _ & _ & _ & _ & _ & _ & _ & ->). done.
Qed.

(** It appends to [options] and to [invalid_flags], if it touches them. *)
Lemma iteration_appends (f f' : Frame floating_t) :
  iteration f f' ->
  (exists added, options (this f') = options (this f) ++ added)
  /\ (exists added, invalid_flags f' = invalid_flags f ++ added).
Proof.
  assert (Hnil : forall l : list string, exists added, l = l ++ added).
  { intros l. exists []. by rewrite app_nil_r. }
  intros [flag Hread|flag Hread|flag t f1 Hread Hnone Hsome Hexp|flag Hread|flag m1 n Hread Hw Hn]; simpl;
    eauto.
  destruct (expand_inv _ _ _ Hexp) as (p & a & old & cur & lf & H).
  cbv zeta in H. destruct H as (_ & _ & _ & _ & _ & _ & _ & _ & ->).
  simpl. eauto.
Qed.

(** It creates and destroys no cell, and writes only cells that a spelling is
    bound to. *)
Lemma cell_write_cells (g : GetOpt) (m m' : Memory floating_t) :
  cell_write g m m' ->
  buffers m' = buffers m /\ arrays m' = arrays m
  /\ (forall data, unbound BOOL g data ->
                   bool_cells m' !! data = bool_cells m !! data)
  /\ (forall data, unbound FLOAT g data ->
                   float_cells m' !! data = float_cells m !! data)
  /\ (forall data, unbound INT g data ->
                   int_cells m' !! data = int_cells m !! data)
  /\ (forall data, unbound STR g data ->
                   str_cells m' !! data = str_cells m !! data)
  /\ length (bool_cells m') = length (bool_cells m)
  /\ length (float_cells m') = length (float_cells m)
  /\ length (int_cells m') = length (int_cells m)
  /\ length (str_cells m') = length (str_cells m).
Proof.
  intros [k d v Hk Hd|k d v Hk Hd|k d v Hk Hd|k d v Hk Hd]; simpl;
    rewrite ?length_insert; repeat split; try done;
    intros data Hun; apply list_lookup_insert_ne; intros ->;
    by apply (Hun k).
Qed.

Lemma iteration_cells (f f' : Frame floating_t) :
  iteration f f' ->
  (forall data, unbound BOOL (this f) data ->
                bool_cells (mem f') !! data = bool_cells (mem f) !! data)
  /\ (forall data, unbound FLOAT (this f) data ->
                   float_cells (mem f') !! data = float_cells (mem f) !! data)
  /\ (forall data, unbound INT (this f) data ->
                   int_cells (mem f') !! data = int_cells (mem f) !! data)
  /\ (forall data, unbound STR (this f) data ->
                   str_cells (mem f') !! data = str_cells (mem f) !! data)
  /\ length (bool_cells (mem f')) = length (bool_cells (mem f))
  /\ length (float_cells (mem f')) = length (float_cells (mem f))
  /\ length (int_cells (mem f')) = length (int_cells (mem f))
  /\ length (str_cells (mem f')) = length (str_cells (mem f)).
Proof.
  intros [flag Hread|flag Hread|flag t f1 Hread Hnone Hsome Hexp|flag Hread|flag m1 n Hread Hw Hn]; simpl;
    try done.
  - destruct (expand_inv _ _ _ Hexp) as (p & a & old & cur & lf & H).
    cbv zeta in H. destruct H as (_ & _ & _ & _ & _ & _ & _ & _ & ->). done.
  - destruct (cell_write_cells _ _ _ Hw) as (_ & _ & H). exact H.
Qed.

(** Its effect on the character buffers: [k] fresh buffers at the end, one
    per interior character of an expanded token, entered in [allocs] and
    counted in [_argc]; no buffer is deleted. *)
Lemma iteration_buffers (f f' : Frame floating_t) :
  iteration f f' ->
  exists k : nat,
    allocs (this f')
    = allocs (this f) ++ seq (length (buffers (mem f))) k
    /\ length (buffers (mem f')) = (length (buffers (mem f)) + k)%nat
    /\ _argc (this f') = (_argc (this f) + Z.of_nat k)%Z
    /\ (forall a, live (mem f) a -> live (mem f') a)
    /\ (forall a, (length (buffers (mem f)) <= a
                   < length (buffers (mem f')))%nat ->
                  live (mem f') a).
Proof.
  assert (Hsame : forall f1 : Frame floating_t,
            allocs (this f1) = allocs (this f) ->
            buffers (mem f1) = buffers (mem f) ->
            _argc (this f1) = _argc (this f) ->
            exists k : nat,
              allocs (this f1)
              = allocs (this f) ++ seq (length (buffers (mem f))) k
              /\ length (buffers (mem f1)) = (length (buffers (mem f)) + k)%nat
              /\ _argc (this f1) = (_argc (this f) + Z.of_nat k)%Z
              /\ (forall a, live (mem f) a -> live (mem f1) a)
              /\ (forall a, (length (buffers (mem f)) <= a
                             < length (buffers (mem f1)))%nat ->
                            live (mem f1) a)).
  { intros f1 Ha Hb Hc. exists 0%nat. unfold live. rewrite Ha, Hb, Hc. simpl.
    rewrite app_nil_r. repeat split; try done; lia. }
  intros [flag Hread|flag Hread|flag t f1 Hread Hnone Hsome Hexp|flag Hread|flag m1 n Hread Hw Hn];
    try (by apply Hsame).
  - destruct (expand_inv _ _ _ Hexp) as (p & a & old & cur & lf & H).
    cbv zeta in H.
    destruct H as (_ & _ & _ & _ & _ & _ & Ha & _ & ->). unfold live. simpl.
    set (interior := Str.chars (Str.substr flag 1 (Str.sub (Str.size flag) 2)))
      in *.
    exists (length interior).
    assert (Halt : (a < length (buffers (mem f)) + length interior)%nat).
    { apply lookup_lt_Some in Ha. rewrite length_app, length_fmap in Ha. lia. }
    split; [done|]. split.
    { by rewrite length_insert, length_app, length_fmap. }
    split; [by rewrite size_chars|].
    split.
    + intros b [text Hb]. destruct (decide (b = a)) as [->|Hne].
      * rewrite list_lookup_insert_eq; [by eexists|].
        rewrite length_app, length_fmap. lia.
      * rewrite list_lookup_insert_ne by done.
        rewrite (lookup_app_l_Some _ _ _ _ Hb). by eexists.
    + rewrite length_insert, length_app, length_fmap. intros b Hb.
      destruct (decide (b = a)) as [->|Hne].
      * rewrite list_lookup_insert_eq; [by eexists|].
        rewrite length_app, length_fmap. lia.
      * rewrite list_lookup_insert_ne by done.
        rewrite lookup_app_r by lia.
        rewrite list_lookup_fmap.
        destruct (interior !! (b - length (buffers (mem f)))%nat) eqn:Hi.
        -- by eexists.
        -- apply lookup_ge_None in Hi. lia.
  - apply Hsame; try done. simpl.
    by destruct (cell_write_cells _ _ _ Hw) as (-> & _).
Qed.

(** ** What a pass keeps *)

Lemma epilogue_object (backup : option addr) (f : Frame floating_t) :
  registry_of (epilogue backup f).1.2 = registry_of (this f)
  /\ _from_sys (epilogue backup f).1.2 = _from_sys (this f)
  /\ options (epilogue backup f).1.2 = options (this f)
  /\ _argc (epilogue backup f).1.2 = _argc (this f)
  /\ allocs (epilogue backup f).1.2 = []
  /\ (epilogue backup f).1.1 = invalid_flags f
  /\ bool_cells (epilogue backup f).2 = bool_cells (mem f)
  /\ float_cells (epilogue backup f).2 = float_cells (mem f)
  /\ int_cells (epilogue backup f).2 = int_cells (mem f)
  /\ str_cells (epilogue backup f).2 = str_cells (mem f)
  /\ buffers (epilogue backup f).2
     = delete_all (allocs (this f)) (buffers (mem f)).
Proof. unfold epilogue. case_decide; done. Qed.

(** X1: [readArgs] never changes the registry.  Whether the pass returns or
    throws, the five lookup tables and [_from_sys] are as before: parsing
    registers nothing and forgets nothing. *)
Theorem readArgs_keeps_registry (behaviour : BEHAVIOUR) (fuel : nat)
  (g : GetOpt) (m : Memory floating_t) :
  match readArgs stod behaviour fuel g m with
  | Some (Returns (_, g', _)) | Some (Throws _ g' _) =>
      registry_of g' = registry_of g /\ _from_sys g' = _from_sys g
  | _ => True
  end.
Proof.
  pose proof (readArgs_invariant
                (fun f => registry_of (this f) = registry_of g
                          /\ _from_sys (this f) = _from_sys g)
                behaviour fuel g m) as H.
  destruct (readArgs stod behaviour fuel g m) as [[[[inv g'] m']|e g' m'|]|];
    try done.
  - destruct H as (f & [Hr Hs] & _ & Hepi); [done| |].
    { intros f1 f2 [Hr Hs] [-> ->]%iteration_registry. done. }
    destruct (epilogue_object (_argv g) f) as (Hr' & Hs' & _).
    rewrite <- Hepi in Hr', Hs'. simpl in *. by rewrite Hr', Hs'.
  - destruct H as [(_ & -> & _)|(f & [Hr Hs] & -> & _)]; try done.
    intros f1 f2 [Hr Hs] [-> ->]%iteration_registry. done.
Qed.

(** X2: the options are append-only.  Whether the pass returns or throws, the
    options it leaves are the options it found followed by what it
    collected; nothing is ever removed from them. *)
Theorem readArgs_options_append_only (behaviour : BEHAVIOUR) (fuel : nat)
  (g : GetOpt) (m : Memory floating_t) :
  match readArgs stod behaviour fuel g m with
  | Some (Returns (_, g', _)) | Some (Throws _ g' _) =>
      exists collected, getOptions g' = getOptions g ++ collected
  | _ => True
  end.
Proof.
  pose proof (readArgs_invariant
                (fun f => exists collected,
                            options (this f) = options g ++ collected)
                behaviour fuel g m) as H.
  assert (Hstart : exists collected, options g = options g ++ collected).
  { exists []. by rewrite app_nil_r. }
  assert (Hstep : forall f1 f2 : Frame floating_t,
             (exists collected, options (this f1) = options g ++ collected) ->
             iteration f1 f2 ->
             exists collected, options (this f2) = options g ++ collected).
  { intros f1 f2 [c1 H1] [[c2 H2] _]%iteration_appends.
    exists (c1 ++ c2). by rewrite H2, H1, app_assoc. }
  destruct (readArgs stod behaviour fuel g m) as [[[[inv g'] m']|e g' m'|]|];
    try done.
  - destruct (H Hstart Hstep) as (f & Hf & _ & Hepi).
    destruct (epilogue_object (_argv g) f) as (_ & _ & Ho & _).
    rewrite <- Hepi in Ho. simpl in Ho. unfold getOptions. by rewrite Ho.
  - destruct (H Hstart Hstep) as [(_ & -> & _)|(f & Hf & -> & _)]; done.
Qed.

Lemma unbound_registry (t : TYPE) (g1 g2 : GetOpt) (data : addr) :
  registry_of g1 = registry_of g2 -> unbound t g1 data -> unbound t g2 data.
Proof.
  unfold registry_of, unbound. intros [= H1 H2 H3 H4 H5] Hun k.
  specialize (Hun k). destruct t; simpl in *; congruence.
Qed.

(** X3: a pass writes bound cells only.  Whether it returns or throws, it
    creates and destroys no storage cell, and a cell that no spelling of its
    type is bound to holds what it held before. *)
Theorem readArgs_writes_bound_cells_only (behaviour : BEHAVIOUR) (fuel : nat)
  (g : GetOpt) (m : Memory floating_t) :
  match readArgs stod behaviour fuel g m with
  | Some (Returns (_, _, m')) | Some (Throws _ _ m') =>
      (forall data, unbound BOOL g data ->
                    bool_cells m' !! data = bool_cells m !! data)
      /\ (forall data, unbound FLOAT g data ->
                       float_cells m' !! data = float_cells m !! data)
      /\ (forall data, unbound INT g data ->
                       int_cells m' !! data = int_cells m !! data)
      /\ (forall data, unbound STR g data ->
                       str_cells m' !! data = str_cells m !! data)
      /\ length (bool_cells m') = length (bool_cells m)
      /\ length (float_cells m') = length (float_cells m)
      /\ length (int_cells m') = length (int_cells m)
      /\ length (str_cells m') = length (str_cells m)
  | _ => True
  end.
Proof.
  set (Q := fun m' : Memory floating_t =>
      (forall data, unbound BOOL g data ->
                    bool_cells m' !! data = bool_cells m !! data)
      /\ (forall data, unbound FLOAT g data ->
                       float_cells m' !! data = float_cells m !! data)
      /\ (forall data, unbound INT g data ->
                       int_cells m' !! data = int_cells m !! data)
      /\ (forall data, unbound STR g data ->
                       str_cells m' !! data = str_cells m !! data)
      /\ length (bool_cells m') = length (bool_cells m)
      /\ length (float_cells m') = length (float_cells m)
      /\ length (int_cells m') = length (int_cells m)
      /\ length (str_cells m') = length (str_cells m)).
  pose proof (readArgs_invariant
                (fun f => registry_of (this f) = registry_of g /\ Q (mem f))
                behaviour fuel g m) as H.
  assert (Hstart : registry_of g = registry_of g /\ Q m) by done.
  assert (Hstep : forall f1 f2 : Frame floating_t,
             registry_of (this f1) = registry_of g /\ Q (mem f1) ->
             iteration f1 f2 ->
             registry_of (this f2) = registry_of g /\ Q (mem f2)).
  { intros f1 f2 [Hr HQ] Hit.
    destruct (iteration_registry _ _ Hit) as [Hr2 _].
    split; [congruence|].
    destruct (iteration_cells _ _ Hit)
      as (Hb & Hf & Hi & Hs & Lb & Lf & Li & Ls).
    destruct HQ as (Hb1 & Hf1 & Hi1 & Hs1 & Lb1 & Lf1 & Li1 & Ls1).
    unfold Q. rewrite Lb, Lf, Li, Ls.
    repeat split; try done; intros data Hun.
    - rewrite Hb; [by apply Hb1|]. eapply unbound_registry; [|exact Hun]. done.
    - rewrite Hf; [by apply Hf1|]. eapply unbound_registry; [|exact Hun]. done.
    - rewrite Hi; [by apply Hi1|]. eapply unbound_registry; [|exact Hun]. done.
    - rewrite Hs; [by apply Hs1|]. eapply unbound_registry; [|exact Hun]. done. }
  destruct (readArgs stod behaviour fuel g m) as [[[[inv g'] m']|e g' m'|]|];
    try done.
  - destruct (H Hstart Hstep) as (f & [_ HQ] & _ & Hepi).
    destruct (epilogue_object (_argv g) f)
      as (_ & _ & _ & _ & _ & _ & Eb & Ef & Ei & Es & _).
    rewrite <- Hepi in Eb, Ef, Ei, Es. simpl in *.
    unfold Q in HQ. by rewrite Eb, Ef, Ei, Es.
  - destruct (H Hstart Hstep) as [(_ & _ & -> & _)|(f & [_ HQ] & _ & -> & _)];
      done.
Qed.

(** ** Allocation and release *)


Lemma delete_all_other (ptrs : list addr) (bufs : list (option string))
  (a : addr) :
  a ∉ ptrs -> delete_all ptrs bufs !! a = bufs !! a.
Proof.
  unfold delete_all. revert bufs.
  induction ptrs as [|b ptrs IH]; intros bufs Hnot; simpl; [done|].
  apply not_elem_of_cons in Hnot as [Hne Hnot].
  rewrite IH by done. by rewrite list_lookup_insert_ne.
Qed.

Lemma delete_all_deleted (ptrs : list addr) (bufs : list (option string))
  (a : addr) :
  a ∈ ptrs -> (a < length bufs)%nat -> delete_all ptrs bufs !! a = Some None.
Proof.
  unfold delete_all. revert bufs.
  induction ptrs as [|b ptrs IH]; intros bufs Hin Hlt; simpl.
  - by apply elem_of_nil in Hin.
  - destruct (decide (a ∈ ptrs)) as [Hin'|Hnot].
    + apply IH; [done|]. by rewrite length_insert.
    + apply elem_of_cons in Hin as [->|]; [|done].
      pose proof (delete_all_other ptrs (<[b := None]> bufs) b Hnot) as H.
      unfold delete_all in H. rewrite H.
      by rewrite list_lookup_insert_eq.
Qed.

Lemma allocation_invariant_start (g : GetOpt) (m : Memory floating_t) :
  allocs g = [] -> allocation_invariant g m (prologue g m).
Proof.
  intros Hallocs. exists 0%nat. simpl. rewrite Hallocs.
  repeat split; try done; lia.
Qed.

Lemma allocation_invariant_step (g : GetOpt) (m : Memory floating_t)
  (f1 f2 : Frame floating_t) :
  allocation_invariant g m f1 -> iteration f1 f2 ->
  allocation_invariant g m f2.
Proof.
  intros (k1 & Ha1 & Hl1 & Hc1 & Hlive1 & Hnew1) Hit.
  destruct (iteration_buffers _ _ Hit) as (k2 & Ha2 & Hl2 & Hc2 & Hlive2 & Hnew2).
  exists (k1 + k2)%nat. rewrite Ha2, Ha1, Hl2, Hl1, Hc2, Hc1.
  split; [by rewrite seq_app|]. split; [lia|]. split; [lia|].
  split; [by auto|].
  intros a Ha. destruct (decide (a < length (buffers (mem f1)))%nat).
  - apply Hlive2, Hnew1. lia.
  - apply Hnew2. lia.
Qed.

Lemma cell_write_buffers (g : GetOpt) (m m' : Memory floating_t) :
  cell_write g m m' -> buffers m' = buffers m /\ arrays m' = arrays m.
Proof. by intros []. Qed.


Lemma expansion_invariant_start (g : GetOpt) (m : Memory floating_t) :
  expansion_invariant g m (prologue g m).
Proof. exists []. simpl. by rewrite app_nil_r. Qed.

Lemma expansion_invariant_step (g : GetOpt) (m : Memory floating_t)
  (f1 f2 : Frame floating_t) :
  expansion_invariant g m f1 -> iteration f1 f2 ->
  expansion_invariant g m f2.
Proof.
  intros (vectors & Harrays & Hargv) Hit.
  destruct Hit
    as [flag Hread|flag Hread|flag t f' Hread Hnone Hsome Hexp|flag Hread
       |flag m1 n Hread Hw Hn];
    try (by exists vectors).
  - destruct (expand_inv _ _ _ Hexp)
      as (p & a & old & current & lastFlag & Hp & Hold & _ & _ & _ & _ & _
          & _ & ->).
    cbv zeta.
    exists (vectors
            ++ [take (Z.to_nat (_argc (this f1))) old
                ++ seq (length (buffers (mem f1)))
                     (length (Str.chars
                                (Str.substr flag 1
                                   (Str.sub (Str.size flag) 2))))]).
    simpl. split.
    { by rewrite Harrays, fmap_app, app_assoc. }
    assert (Hlast : Some (length (arrays (mem f1)))
                    = Some (length (arrays m)
                            + length (vectors ++ [take (Z.to_nat (_argc (this f1))) old
                ++ seq (length (buffers (mem f1)))
                     (length (Str.chars
                                (Str.substr flag 1
                                   (Str.sub (Str.size flag) 2))))]) - 1)%nat).
    { rewrite Harrays, !length_app, length_fmap. simpl. f_equal. lia. }
    destruct vectors as [|v vectors].
    + simpl in *. split; [by rewrite Hlast|].
      exists p. split; [congruence|].
      rewrite Harrays, app_nil_r in Hold. by apply lookup_lt_Some in Hold.
    + destruct Hargv as [_ Hcaller]. simpl. split; [|done].
      simpl in Hlast. by rewrite Hlast.
  - destruct (cell_write_buffers _ _ _ Hw) as [_ Ha].
    exists vectors. simpl. by rewrite Ha.
Qed.

(** The arrays at the end of a returning pass and at a throw. *)
Lemma expansion_invariant_arrays (g : GetOpt) (m : Memory floating_t)
  (f : Frame floating_t) :
  expansion_invariant g m f ->
  (forall p, (p < length (arrays m))%nat ->
             arrays (mem f) !! p = arrays m !! p)
  /\ (forall p, (length (arrays m) <= p < length (arrays (mem f)))%nat ->
                array_live (mem f) p)
  /\ (length (arrays (mem f)) = length (arrays m) ->
      _argv (this f) = _argv g)
  /\ ((length (arrays m) < length (arrays (mem f)))%nat ->
      _argv (this f) = Some (length (arrays (mem f)) - 1)%nat
      /\ exists p, _argv g = Some p /\ (p < length (arrays m))%nat).
Proof.
  intros (vectors & Harrays & Hargv).
  assert (Hlen : length (arrays (mem f))
                 = (length (arrays m) + length vectors)%nat).
  { by rewrite Harrays, length_app, length_fmap. }
  split; [|split; [|split]].
  - intros p Hp. by rewrite Harrays, lookup_app_l.
  - intros p Hp. unfold array_live. rewrite Harrays, lookup_app_r by lia.
    rewrite list_lookup_fmap.
    destruct (lookup_lt_is_Some_2 vectors (p - length (arrays m)))
      as [v Hv]; [lia|].
    rewrite Hv. by eexists.
  - intros Hsame. destruct vectors; [done|]. simpl in Hlen. lia.
  - intros Hmore. destruct vectors as [|v vectors]; [simpl in Hlen; lia|].
    destruct Hargv as [Hlast Hcaller]. split; [|done].
    rewrite Hlast, Hlen. done.
Qed.


(** X5: what the destructor releases after a throw.  On a parser without
    pending allocations, when the pass throws: [allocs] lists distinct, live
    buffers, none of them a buffer that existed before the pass; once the
    destructor has run, every buffer that was live before the pass is still
    live and every three-byte buffer the pass allocated is deleted.  The
    destructor frees no array: every expansion vector the pass allocated is
    still allocated after it, and [_argv] is not the caller's any more but
    the last of them. *)
Theorem destructor_after_throw (behaviour : BEHAVIOUR) (fuel : nat)
  (g : GetOpt) (m : Memory floating_t) :
  allocs g = [] ->
  match readArgs stod behaviour fuel g m with
  | Some (Throws e g' m') =>
      NoDup (allocs g')
      /\ (forall a, a ∈ allocs g' ->
                    live m' a /\ (length (buffers m) <= a)%nat)
      /\ (forall a, live m a -> live (destructor g' m') a)
      /\ (forall a, (length (buffers m) <= a < length (buffers m'))%nat ->
                    deleted (destructor g' m') a)
      /\ arrays (destructor g' m') = arrays m'
      /\ (forall p, (p < length (arrays m))%nat ->
                    arrays m' !! p = arrays m !! p)
      /\ (forall p, (length (arrays m) <= p < length (arrays m'))%nat ->
                    array_live (destructor g' m') p)
      /\ (length (arrays m') = length (arrays m) -> _argv g' = _argv g)
      /\ ((length (arrays m) < length (arrays m'))%nat ->
          _argv g' = Some (length (arrays m') - 1)%nat
          /\ _argv g' <> _argv g)
  | _ => True
  end.
Proof.
  intros Hallocs.
  pose proof (readArgs_invariant
                (fun f => allocation_invariant g m f
                          /\ expansion_invariant g m f)
                behaviour fuel g m
                (conj (allocation_invariant_start g m Hallocs)
                   (expansion_invariant_start g m))
                (fun f1 f2 H Hit =>
                   conj (allocation_invariant_step g m f1 f2 (proj1 H) Hit)
                     (expansion_invariant_step g m f1 f2 (proj2 H) Hit)))
    as H.
  destruct (readArgs stod behaviour fuel g m) as [[[[inv g'] m']|e g' m'|]|];
    try done.
  assert (allocation_invariant g m (mkFrame g' m' 0 [])
          /\ expansion_invariant g m (mkFrame g' m' 0 []))
    as [(k & Ha & Hl & _ & Hlive & Hnew) Hexp].
  { destruct H as [(_ & -> & -> & _)|(f & Hf & -> & -> & _)].
    - split; [by apply (allocation_invariant_start g m)|].
      apply (expansion_invariant_start g m).
    - destruct Hf as [Hf1 Hf2]. split.
      + destruct Hf1 as (k & ?). by exists k.
      + destruct Hf2 as (vectors & ?). by exists vectors. }
  destruct (expansion_invariant_arrays g m _ Hexp)
    as (Hold & Hnewv & Hnone & Hsome).
  simpl in *. unfold destructor, live, deleted, array_live in *. simpl.
  split; [rewrite Ha; apply NoDup_seq|].
  split; [|split; [|split; [|split; [|split; [|split; [|split]]]]]];
    try done.
  - intros a Hin. rewrite Ha, elem_of_seq in Hin.
    split; [apply Hnew|]; lia.
  - intros a [text Hlv]. destruct (Hlive a) as [text' Hlv']; [by eexists|].
    exists text'. rewrite delete_all_other; [done|].
    rewrite Ha, elem_of_seq. apply lookup_lt_Some in Hlv. lia.
  - intros a Hrange. apply delete_all_deleted; [|lia].
    rewrite Ha, elem_of_seq. lia.
  - intros Hmore. destruct (Hsome Hmore) as [Hlast (p0 & Hcaller & Hp0)].
    split; [done|]. rewrite Hlast, Hcaller. intros [= ?]. lia.
Qed.

(** ** Tokens and their parts *)

Lemma index_cons (pat : string) (c : ascii) (s : string) :
  String.index 0 pat (String c s)
  = if String.prefix pat (String c s) then Some 0%nat
    else match String.index 0 pat s with
         | Some n => Some (S n)
         | None => None
         end.
Proof. reflexivity. Qed.

Lemma prefix_cons (a : ascii) (pat : string) (c : ascii) (s : string) :
  String.prefix (String a pat) (String c s)
  = if ascii_dec a c then String.prefix pat s else false.
Proof. reflexivity. Qed.

Lemma prefix_empty (s : string) : String.prefix EmptyString s = true.
Proof. by destruct s. Qed.

Lemma index_equals_cons (c : ascii) (s : string) :
  String.index 0 "=" (String c s)
  = if Ascii.eqb c "=" then Some 0%nat
    else S <$> String.index 0 "=" s.
Proof.
  rewrite index_cons, prefix_cons, prefix_empty.
  destruct (ascii_dec "=" c) as [<-|Hne]; [done|].
  destruct (Ascii.eqb_spec c "=") as [->|_]; [done|].
  by destruct (String.index 0 "=" s).
Qed.

Lemma index_equals_with_value (name value : string) :
  no_equals name ->
  String.index 0 "=" (with_value name value) = Some (String.length name).
Proof.
  unfold no_equals, with_value.
  induction name as [|c name IH]; intros Hno.
  - change (EmptyString +:+ String "=" value) with (String "=" value).
    by rewrite index_equals_cons.
  - change (String c name +:+ String "=" value)
      with (String c (name +:+ String "=" value)).
    rewrite index_equals_cons in Hno |- *.
    destruct (Ascii.eqb c "="); [done|].
    destruct (String.index 0 "=" name); [done|].
    by rewrite IH.
Qed.

Lemma substring_whole (s : string) :
  String.substring 0 (String.length s) s = s.
Proof. induction s as [|c s IH]; simpl; [done|by rewrite IH]. Qed.

Lemma substring_front (s t : string) :
  String.substring 0 (String.length s) (s +:+ t) = s.
Proof.
  induction s as [|c s IH]; simpl; [by destruct t|by rewrite IH].
Qed.

Lemma substring_back (s t : string) :
  String.substring (String.length s) (String.length t) (s +:+ t) = t.
Proof.
  induction s as [|c s IH]; simpl; [apply substring_whole|done].
Qed.

Lemma append_cons (d : ascii) (s t : string) :
  String d s +:+ t = String d (s +:+ t).
Proof. reflexivity. Qed.

Lemma append_after_char (s : string) (c : ascii) (t : string) :
  s +:+ String c t = (s +:+ String c EmptyString) +:+ t.
Proof.
  induction s as [|d s IH]; [done|]. rewrite !append_cons. by f_equal.
Qed.

Lemma length_append_char (s : string) (c : ascii) :
  String.length (s +:+ String c EmptyString) = (String.length s + 1)%nat.
Proof.
  induction s as [|d s IH]; [done|]. rewrite append_cons. simpl. by f_equal.
Qed.

Lemma length_with_value (name value : string) :
  String.length (with_value name value)
  = (String.length name + 1 + String.length value)%nat.
Proof.
  unfold with_value. induction name as [|c name IH]; [simpl; lia|].
  rewrite append_cons. simpl. by rewrite IH.
Qed.

(** [name=value] splits at its first equals sign into the flag-only part
    [name] and the suffix [value]. *)
Lemma with_value_parts (name value : string) :
  no_equals name -> fits (with_value name value) ->
  Str.find "=" (with_value name value) = Str.size name
  /\ Str.find "=" (with_value name value) <> Str.npos
  /\ flag_only_of (with_value name value) = name
  /\ Str.substr (with_value name value)
       (Str.add (Str.find "=" (with_value name value)) 1) Str.npos
     = value.
Proof.
  intros Hno Hfits. unfold fits, Str.size in Hfits.
  rewrite length_with_value in Hfits.
  assert (Hfind : Str.find "=" (with_value name value) = Str.size name).
  { unfold Str.find. by rewrite index_equals_with_value. }
  assert (Hnpos : Str.npos = 18446744073709551615%N) by reflexivity.
  split; [done|]. split; [rewrite Hfind; unfold Str.size; lia|].
  split.
  - unfold flag_only_of, Str.substr. rewrite Hfind.
    rewrite N.sub_0_r, N.min_l.
    2:{ unfold Str.size. rewrite length_with_value. lia. }
    unfold Str.size. rewrite Nat2N.id. apply substring_front.
  - rewrite Hfind. unfold Str.substr, Str.add, Str.size.
    rewrite length_with_value.
    replace ((N.of_nat (String.length name) + 1) mod Str.modulus)%N
      with (N.of_nat (String.length name + 1)).
    2:{ rewrite N.mod_small; [lia|]. unfold Str.modulus. lia. }
    rewrite N.min_r by lia.
    replace (N.to_nat (N.of_nat (String.length name + 1 + String.length value)
                       - N.of_nat (String.length name + 1)))
      with (String.length value) by lia.
    rewrite Nat2N.id. unfold with_value.
    rewrite append_after_char, <- (length_append_char name "=").
    apply substring_back.
Qed.

Lemma no_equals_find (name : string) :
  no_equals name -> Str.find "=" name = Str.npos.
Proof. unfold no_equals, Str.find. by intros ->. Qed.

Lemma no_equals_flag_only (name : string) :
  no_equals name -> fits name -> flag_only_of name = name.
Proof.
  intros Hno Hfits. apply flag_only_of_no_equals; [|by apply no_equals_find].
  unfold fits in Hfits. lia.
Qed.

Lemma prefix_append (pat s t : string) :
  String.prefix pat s = true -> String.prefix pat (s +:+ t) = true.
Proof.
  revert s. induction pat as [|a pat IH]; intros s; [intros _; apply prefix_empty|].
  destruct s as [|c s]; [done|].
  change (String c s +:+ t) with (String c (s +:+ t)).
  rewrite !prefix_cons. destruct (ascii_dec a c); [apply IH|done].
Qed.

Lemma find_at_front (pat s : string) :
  Str.find pat s = 0%N -> s <> EmptyString -> String.prefix pat s = true.
Proof.
  unfold Str.find. destruct s as [|c s]; [done|]. intros H _.
  rewrite index_cons in H.
  destruct (String.prefix pat (String c s)); [done|].
  destruct (String.index 0 pat s); [|done]. lia.
Qed.

(** A token that starts with the long marker still does so with a value
    attached. *)
Lemma long_marker_with_value (name value : string) :
  Str.find "--" name = 0%N -> Str.find "--" (with_value name value) = 0%N.
Proof.
  intros H. destruct name as [|c name]; [done|].
  apply find_at_front in H; [|done].
  apply (prefix_append _ _ (String "=" value)) in H.
  unfold Str.find, with_value.
  change (String c name +:+ String "=" value)
    with (String c (name +:+ String "=" value)) in *.
  by rewrite index_cons, H.
Qed.

(** ** The rules for [name=value] *)

(** The iteration on a token [name=value] whose name the registry has: the
    lookup and the test for the long marker. *)
Lemma body_with_value (behaviour : BEHAVIOUR) (f : Frame floating_t)
  (name value : string) (t : TYPE) :
  no_equals name -> fits (with_value name value) ->
  takes_equals behaviour name ->
  read_argv (this f) (mem f) (i f) = Returns (with_value name value) ->
  main_lookup (this f) !! name = Some t ->
  Str.find "=" (with_value name value) <> Str.npos
  /\ Str.substr (with_value name value)
       (Str.add (Str.find "=" (with_value name value)) 1) Str.npos = value
  /\ takes_equals behaviour (with_value name value)
  /\ body stod behaviour f
     = match behaviour, t with
       | STRICT, BOOL => bool_STRICT (with_value name value) name f
       | STRICT, FLOAT =>
           HANDLE_NUMERIC_FLAGS FLOAT stod store_float
             (with_value name value) name f
       | STRICT, INT =>
           HANDLE_NUMERIC_FLAGS INT stoi store_int
             (with_value name value) name f
       | STRICT, STR =>
           HANDLE_NUMERIC_FLAGS STR no_conversion store_str
             (with_value name value) name f
       | AS_IS, BOOL => bool_AS_IS (with_value name value) name f
       | AS_IS, FLOAT =>
           HANDLE_NUMERIC_FLAGS_AS_IS FLOAT stod store_float
             (with_value name value) name f
       | AS_IS, INT =>
           HANDLE_NUMERIC_FLAGS_AS_IS INT stoi store_int
             (with_value name value) name f
       | AS_IS, STR =>
           HANDLE_NUMERIC_FLAGS_AS_IS STR no_conversion store_str
             (with_value name value) name f
       end.
Proof.
  intros Hno Hfits Hform Hread Hmain.
  destruct (with_value_parts name value Hno Hfits) as (_ & Hne & Honly & Hsuf).
  split; [done|]. split; [done|]. split.
  { destruct behaviour; [|done]. by apply long_marker_with_value. }
  destruct behaviour; unfold body, body_STRICT, body_AS_IS;
    rewrite Hread; simpl; rewrite Honly, Hmain; by destruct t.
Qed.

(** X6: a boolean flag with a value attached.  For a registered boolean
    spelling [name] and a token [name=value] (in STRICT for long names, in
    AS_IS for every name): the cell becomes [false] when the quote-stripped
    value is the text 0 and [true] for every other value, the empty one
    included; one token is consumed and nothing else changes. *)
Theorem boolean_with_value (behaviour : BEHAVIOUR) (f : Frame floating_t)
  (name value : string) (data : addr) (old : bool) :
  no_equals name -> fits (with_value name value) ->
  takes_equals behaviour name ->
  read_argv (this f) (mem f) (i f) = Returns (with_value name value) ->
  main_lookup (this f) !! name = Some BOOL ->
  bool_lookup (this f) !! name = Some data ->
  bool_cells (mem f) !! data = Some old ->
  body stod behaviour f
  = Returns
      (advance 1
         (assign_bool data (negb (String.eqb (stripQuotes value) "0")) f)).
Proof.
  intros Hno Hfits Hform Hread Hmain Hdata Hold.
  destruct (body_with_value behaviour f name value BOOL Hno Hfits Hform
              Hread Hmain) as (Hne & Hsuf & Hlong & ->).
  apply N.eqb_neq in Hne.
  destruct behaviour; unfold bool_STRICT, bool_AS_IS, at_lookup; simpl;
    rewrite Hdata; simpl in *; rewrite ?Hlong; simpl; rewrite Hne;
    unfold bool_of_suffix; rewrite Hsuf;
    unfold store_bool, store; rewrite Hold; simpl;
    by destruct (String.eqb (stripQuotes value) "0").
Qed.

(** X7: a long boolean flag without a value, in STRICT.  For a registered
    boolean spelling that starts with the long marker and has no equals
    sign: the cell becomes [true], one token is consumed, and the token after
    it is not looked at. *)
Theorem strict_long_boolean_alone (f : Frame floating_t) (name : string)
  (data : addr) (old : bool) :
  no_equals name -> fits name ->
  Str.find "--" name = 0%N ->
  read_argv (this f) (mem f) (i f) = Returns name ->
  main_lookup (this f) !! name = Some BOOL ->
  bool_lookup (this f) !! name = Some data ->
  bool_cells (mem f) !! data = Some old ->
  body stod STRICT f = Returns (advance 1 (assign_bool data true f)).
Proof.
  intros Hno Hfits Hlong Hread Hmain Hdata Hold.
  unfold body, body_STRICT. rewrite Hread. simpl.
  rewrite (no_equals_flag_only _ Hno Hfits), Hmain.
  unfold bool_STRICT, at_lookup. simpl. rewrite Hdata. simpl.
  rewrite Hlong, (no_equals_find _ Hno). simpl.
  unfold store_bool, store. by rewrite Hold.
Qed.

(** X8: an integer flag with a value attached.  For a registered integer
    spelling [name] and a token [name=value] (in STRICT for long names, in
    AS_IS for every name): when [std::stoi] converts the quote-stripped
    value, the result is stored and one token consumed; when it throws, the
    iteration throws its exception and has changed nothing. *)
Theorem integer_with_value (behaviour : BEHAVIOUR) (f : Frame floating_t)
  (name value : string) (data : addr) (old : Z) :
  no_equals name -> fits (with_value name value) ->
  takes_equals behaviour name ->
  read_argv (this f) (mem f) (i f) = Returns (with_value name value) ->
  main_lookup (this f) !! name = Some INT ->
  int_lookup (this f) !! name = Some data ->
  int_cells (mem f) !! data = Some old ->
  body stod behaviour f
  = match stoi (stripQuotes value) with
    | inr v => Returns (advance 1 (assign_int data v f))
    | inl e => Throws (raise_conversion e) (this f) (mem f)
    end.
Proof.
  intros Hno Hfits Hform Hread Hmain Hdata Hold.
  destruct (body_with_value behaviour f name value INT Hno Hfits Hform
              Hread Hmain) as (Hne & Hsuf & Hlong & ->).
  apply N.eqb_neq in Hne.
  destruct behaviour;
    unfold HANDLE_NUMERIC_FLAGS, HANDLE_NUMERIC_FLAGS_AS_IS, at_lookup; simpl;
    rewrite Hdata; simpl in *; rewrite ?Hlong; simpl; rewrite Hne; simpl;
    unfold assign_converted; rewrite Hsuf;
    (destruct (stoi (stripQuotes value)); [done|]);
    unfold store_int, store; by rewrite Hold.
Qed.

(** X9: a floating flag with a value attached: as for an integer flag, with
    [std::stod]. *)
Theorem floating_with_value (behaviour : BEHAVIOUR) (f : Frame floating_t)
  (name value : string) (data : addr) (old : floating_t) :
  no_equals name -> fits (with_value name value) ->
  takes_equals behaviour name ->
  read_argv (this f) (mem f) (i f) = Returns (with_value name value) ->
  main_lookup (this f) !! name = Some FLOAT ->
  float_lookup (this f) !! name = Some data ->
  float_cells (mem f) !! data = Some old ->
  body stod behaviour f
  = match stod (stripQuotes value) with
    | inr v => Returns (advance 1 (assign_float data v f))
    | inl e => Throws (raise_conversion e) (this f) (mem f)
    end.
Proof.
  intros Hno Hfits Hform Hread Hmain Hdata Hold.
  destruct (body_with_value behaviour f name value FLOAT Hno Hfits Hform
              Hread Hmain) as (Hne & Hsuf & Hlong & ->).
  apply N.eqb_neq in Hne.
  destruct behaviour;
    unfold HANDLE_NUMERIC_FLAGS, HANDLE_NUMERIC_FLAGS_AS_IS, at_lookup; simpl;
    rewrite Hdata; simpl in *; rewrite ?Hlong; simpl; rewrite Hne; simpl;
    unfold assign_converted; rewrite Hsuf;
    (destruct (stod (stripQuotes value)); [done|]);
    unfold store_float, store; by rewrite Hold.
Qed.

(** X10: a string flag with a value attached.  For a registered string
    spelling [name] and a token [name=value] (in STRICT for long names, in
    AS_IS for every name): the quote-stripped value is stored as it is, one
    token is consumed, and the iteration cannot throw. *)
Theorem string_with_value (behaviour : BEHAVIOUR) (f : Frame floating_t)
  (name value : string) (data : addr) (old : string) :
  no_equals name -> fits (with_value name value) ->
  takes_equals behaviour name ->
  read_argv (this f) (mem f) (i f) = Returns (with_value name value) ->
  main_lookup (this f) !! name = Some STR ->
  str_lookup (this f) !! name = Some data ->
  str_cells (mem f) !! data = Some old ->
  body stod behaviour f
  = Returns (advance 1 (assign_str data (stripQuotes value) f)).
Proof.
  intros Hno Hfits Hform Hread Hmain Hdata Hold.
  destruct (body_with_value behaviour f name value STR Hno Hfits Hform
              Hread Hmain) as (Hne & Hsuf & Hlong & ->).
  apply N.eqb_neq in Hne.
  destruct behaviour;
    unfold HANDLE_NUMERIC_FLAGS, HANDLE_NUMERIC_FLAGS_AS_IS, at_lookup; simpl;
    rewrite Hdata; simpl in *; rewrite ?Hlong; simpl; rewrite Hne; simpl;
    unfold assign_converted, no_conversion; rewrite Hsuf;
    unfold store_str, store; by rewrite Hold.
Qed.

(** ** The rules for a value in another token *)

(** The iteration on a token of a registered flag whose value is not
    attached. *)
Lemma body_takes_next (behaviour : BEHAVIOUR) (f : Frame floating_t)
  (flag : string) (t : TYPE) :
  read_argv (this f) (mem f) (i f) = Returns flag ->
  main_lookup (this f) !! flag_only_of flag = Some t ->
  body stod behaviour f
  = match behaviour, t with
    | STRICT, BOOL => bool_STRICT flag (flag_only_of flag) f
    | STRICT, FLOAT =>
        HANDLE_NUMERIC_FLAGS FLOAT stod store_float flag (flag_only_of flag) f
    | STRICT, INT =>
        HANDLE_NUMERIC_FLAGS INT stoi store_int flag (flag_only_of flag) f
    | STRICT, STR =>
        HANDLE_NUMERIC_FLAGS STR no_conversion store_str flag
          (flag_only_of flag) f
    | AS_IS, BOOL => bool_AS_IS flag (flag_only_of flag) f
    | AS_IS, FLOAT =>
        HANDLE_NUMERIC_FLAGS_AS_IS FLOAT stod store_float flag
          (flag_only_of flag) f
    | AS_IS, INT =>
        HANDLE_NUMERIC_FLAGS_AS_IS INT stoi store_int flag
          (flag_only_of flag) f
    | AS_IS, STR =>
        HANDLE_NUMERIC_FLAGS_AS_IS STR no_conversion store_str flag
          (flag_only_of flag) f
    end.
Proof.
  intros Hread Hmain.
  destruct behaviour; unfold body, body_STRICT, body_AS_IS;
    rewrite Hread; simpl; rewrite Hmain; by destruct t.
Qed.

Lemma takes_next_tests (behaviour : BEHAVIOUR) (flag : string) :
  takes_next behaviour flag ->
  match behaviour with
  | STRICT => N.eqb (Str.find "--" flag) 0 = false
  | AS_IS => N.eqb (Str.find "=" flag) Str.npos = true
  end.
Proof.
  destruct behaviour; simpl; intros H; [by apply N.eqb_neq|by apply N.eqb_eq].
Qed.

(** X11: a boolean flag without a value examines a fixed position.  For a
    registered boolean flag whose value is not attached (STRICT: a token that
    does not start with the long marker; AS_IS: a token without an equals
    sign), the token examined is the one at position 1 of the vector in
    STRICT and at position 0 in AS_IS, wherever the flag stands.  If its
    quote-stripped text is 0, two tokens are passed and the cell keeps its
    value; otherwise the cell becomes [true], and two tokens are passed if
    the text is 1 or the cell was [true] already, one token if not. *)
Theorem boolean_without_value (behaviour : BEHAVIOUR) (f : Frame floating_t)
  (flag examined : string) (data : addr) (old : bool) :
  takes_next behaviour flag ->
  read_argv (this f) (mem f) (i f) = Returns flag ->
  main_lookup (this f) !! flag_only_of flag = Some BOOL ->
  bool_lookup (this f) !! flag_only_of flag = Some data ->
  bool_cells (mem f) !! data = Some old ->
  read_argv (this f) (mem f) (examined_position behaviour) = Returns examined ->
  examined_position behaviour = (if behaviour is STRICT then 1 else 0)%Z
  /\ body stod behaviour f
     = Returns
         (if String.eqb (stripQuotes examined) "0" then advance 2 f
          else if String.eqb (stripQuotes examined) "1" || old
               then advance 2 (assign_bool data true f)
               else advance 1 (assign_bool data true f)).
Proof.
  intros Hform Hread Hmain Hdata Hold Hexamined.
  split; [by destruct behaviour|].
  rewrite (body_takes_next behaviour f flag BOOL Hread Hmain).
  pose proof (takes_next_tests _ _ Hform) as Htest.
  destruct behaviour; unfold bool_STRICT, bool_AS_IS, at_lookup; simpl;
    rewrite Hdata; simpl; rewrite Htest.
  - by rewrite (bool_of_next_spec data 0 f examined old Hexamined Hold).
  - apply N.eqb_eq in Htest. rewrite Htest.
    by rewrite (bool_of_next_spec data Str.npos f examined old Hexamined Hold).
Qed.

(** The shared second half of the two macros: the next token is converted
    and stored, and two tokens are consumed. *)
Lemma value_from_next {A : Type} (behaviour : BEHAVIOUR) (t : TYPE)
  (conversion : string -> conversion_exn + A)
  (assign : addr -> A -> Frame floating_t -> outcome floating_t (Frame floating_t))
  (f : Frame floating_t) (flag next : string) (data : addr) :
  takes_next behaviour flag ->
  typed_lookup t (this f) !! flag_only_of flag = Some data ->
  (i f + 1 < _argc (this f))%Z ->
  read_argv (this f) (mem f) (i f + 1) = Returns next ->
  (if behaviour is STRICT
   then HANDLE_NUMERIC_FLAGS t conversion assign flag (flag_only_of flag) f
   else HANDLE_NUMERIC_FLAGS_AS_IS t conversion assign flag
          (flag_only_of flag) f)
  = match conversion (stripQuotes next) with
    | inr v => outcome_bind (fun f1 => Returns (advance 2 f1)) (assign data v f)
    | inl e => Throws (raise_conversion e) (this f) (mem f)
    end.
Proof.
  intros Hform Hdata Hlt Hnext.
  pose proof (takes_next_tests _ _ Hform) as Htest.
  assert (Hge : (i f + 1 >=? _argc (this f))%Z = false).
  { rewrite Z.geb_leb. apply Z.leb_gt. lia. }
  destruct behaviour;
    unfold HANDLE_NUMERIC_FLAGS, HANDLE_NUMERIC_FLAGS_AS_IS, at_lookup;
    rewrite Hdata; simpl; rewrite Htest; simpl; rewrite Hge, Hnext; simpl;
    unfold assign_converted; by destruct (conversion (stripQuotes next)).
Qed.

(** X12: an integer flag takes the next token.  For a registered integer flag
    whose value is not attached and which is not the last token: the token
    after it is the value, whatever it looks like.  When [std::stoi] converts
    its quote-stripped text the result is stored and two tokens are consumed;
    when it throws, the iteration throws and has changed nothing.  In STRICT
    a short token may carry an equals sign and a suffix: they are ignored. *)
Theorem integer_from_next_token (behaviour : BEHAVIOUR)
  (f : Frame floating_t) (flag next : string) (data : addr) (old : Z) :
  takes_next behaviour flag ->
  read_argv (this f) (mem f) (i f) = Returns flag ->
  main_lookup (this f) !! flag_only_of flag = Some INT ->
  int_lookup (this f) !! flag_only_of flag = Some data ->
  int_cells (mem f) !! data = Some old ->
  (i f + 1 < _argc (this f))%Z ->
  read_argv (this f) (mem f) (i f + 1) = Returns next ->
  body stod behaviour f
  = match stoi (stripQuotes next) with
    | inr v => Returns (advance 2 (assign_int data v f))
    | inl e => Throws (raise_conversion e) (this f) (mem f)
    end.
Proof.
  intros Hform Hread Hmain Hdata Hold Hlt Hnext.
  rewrite (body_takes_next behaviour f flag INT Hread Hmain).
  pose proof (value_from_next behaviour INT stoi store_int f flag next data
                Hform Hdata Hlt Hnext) as H.
  destruct behaviour; rewrite H;
    (destruct (stoi (stripQuotes next)); [done|]);
    unfold store_int, store; by rewrite Hold.
Qed.

(** X13: a floating flag takes the next token: as for an integer flag, with
    [std::stod]. *)
Theorem floating_from_next_token (behaviour : BEHAVIOUR)
  (f : Frame floating_t) (flag next : string) (data : addr)
  (old : floating_t) :
  takes_next behaviour flag ->
  read_argv (this f) (mem f) (i f) = Returns flag ->
  main_lookup (this f) !! flag_only_of flag = Some FLOAT ->
  float_lookup (this f) !! flag_only_of flag = Some data ->
  float_cells (mem f) !! data = Some old ->
  (i f + 1 < _argc (this f))%Z ->
  read_argv (this f) (mem f) (i f + 1) = Returns next ->
  body stod behaviour f
  = match stod (stripQuotes next) with
    | inr v => Returns (advance 2 (assign_float data v f))
    | inl e => Throws (raise_conversion e) (this f) (mem f)
    end.
Proof.
  intros Hform Hread Hmain Hdata Hold Hlt Hnext.
  rewrite (body_takes_next behaviour f flag FLOAT Hread Hmain).
  pose proof (value_from_next behaviour FLOAT stod store_float f flag next
                data Hform Hdata Hlt Hnext) as H.
  destruct behaviour; rewrite H;
    (destruct (stod (stripQuotes next)); [done|]);
    unfold store_float, store; by rewrite Hold.
Qed.

(** X14: a string flag takes the next token.  For a registered string flag
    whose value is not attached and which is not the last token: the
    quote-stripped text of the token after it is stored, whatever it looks
    like (another flag included), two tokens are consumed and the iteration
    cannot throw. *)
Theorem string_from_next_token (behaviour : BEHAVIOUR)
  (f : Frame floating_t) (flag next : string) (data : addr) (old : string) :
  takes_next behaviour flag ->
  read_argv (this f) (mem f) (i f) = Returns flag ->
  main_lookup (this f) !! flag_only_of flag = Some STR ->
  str_lookup (this f) !! flag_only_of flag = Some data ->
  str_cells (mem f) !! data = Some old ->
  (i f + 1 < _argc (this f))%Z ->
  read_argv (this f) (mem f) (i f + 1) = Returns next ->
  body stod behaviour f
  = Returns (advance 2 (assign_str data (stripQuotes next) f)).
Proof.
  intros Hform Hread Hmain Hdata Hold Hlt Hnext.
  rewrite (body_takes_next behaviour f flag STR Hread Hmain).
  pose proof (value_from_next behaviour STR no_conversion store_str f flag
                next data Hform Hdata Hlt Hnext) as H.
  destruct behaviour; rewrite H; unfold no_conversion, store_str, store;
    by rewrite Hold.
Qed.

(** X15: a value flag that is the last token is reported.  For a registered
    floating, integer or string flag whose value is not attached and which
    has no token after it: the whole token is appended to the unrecognized
    flags, one token is consumed, and nothing is stored. *)
Theorem value_flag_at_the_end (behaviour : BEHAVIOUR) (f : Frame floating_t)
  (flag : string) (t : TYPE) (data : addr) :
  t <> BOOL ->
  takes_next behaviour flag ->
  read_argv (this f) (mem f) (i f) = Returns flag ->
  main_lookup (this f) !! flag_only_of flag = Some t ->
  typed_lookup t (this f) !! flag_only_of flag = Some data ->
  (_argc (this f) <= i f + 1)%Z ->
  body stod behaviour f = Returns (advance 1 (push_invalid flag f)).
Proof.
  intros Ht Hform Hread Hmain Hdata Hlast.
  rewrite (body_takes_next behaviour f flag t Hread Hmain).
  pose proof (takes_next_tests _ _ Hform) as Htest.
  assert (Hge : (i f + 1 >=? _argc (this f))%Z = true).
  { rewrite Z.geb_leb. apply Z.leb_le. lia. }
  destruct behaviour, t; try done;
    unfold HANDLE_NUMERIC_FLAGS, HANDLE_NUMERIC_FLAGS_AS_IS, at_lookup;
    rewrite Hdata; simpl; rewrite Htest; simpl; by rewrite Hge.
Qed.

(** X16: a long string flag without an equals sign is reported in STRICT.  The
    token is appended to the unrecognized flags, one token is consumed, the
    cell and everything else are as before, and the token after it is not
    taken as the value. *)
Theorem strict_long_string_without_equals (f : Frame floating_t)
  (flag : string) (data : addr) :
  read_argv (this f) (mem f) (i f) = Returns flag ->
  Str.find "--" flag = 0%N ->
  Str.find "=" flag = Str.npos ->
  main_lookup (this f) !! flag_only_of flag = Some STR ->
  str_lookup (this f) !! flag_only_of flag = Some data ->
  body stod STRICT f = Returns (advance 1 (push_invalid flag f)).
Proof.
  intros Hread Hlong Hequals Hmain Hdata.
  rewrite (body_takes_next STRICT f flag STR Hread Hmain).
  unfold HANDLE_NUMERIC_FLAGS, at_lookup. simpl. rewrite Hdata. simpl.
  by rewrite Hlong, Hequals.
Qed.

(** ** Edge cases of a pass *)

(** X17: nothing to parse.  With an argument vector supplied, no pending
    allocations and no token at or after the start position (1 for a
    system-style vector, 0 otherwise), [readArgs] returns at once, with any
    fuel: no unrecognized flag, and the object and the memory exactly as they
    were. *)
Theorem readArgs_nothing_to_parse (behaviour : BEHAVIOUR) (fuel : nat)
  (g : GetOpt) (m : Memory floating_t) (p : addr) :
  _argv g = Some p ->
  allocs g = [] ->
  (_argc g <= (if _from_sys g then 1 else 0))%Z ->
  readArgs stod behaviour fuel g m = Some (Returns ([], g, m)).
Proof.
  intros Hp Hallocs Hargc. rewrite (readArgs_unfold _ _ _ _ _ Hp).
  assert (Hloop : while_loop (body stod behaviour) fuel (prologue g m)
                  = Some (Returns (prologue g m))).
  { destruct fuel; simpl;
      destruct (Z.ltb_spec (if _from_sys g then 1 else 0) (_argc g));
      done || lia. }
  rewrite Hloop. unfold epilogue. simpl. rewrite Hallocs, decide_True by done.
  destruct g, m. simpl in *. by subst.
Qed.

(** X18: parsing without any registered flag is undefined.  With an empty
    registry and a readable token at the start position, the first iteration
    dereferences [main_lookup.begin()], which is [end()]. *)
Theorem readArgs_without_flags (behaviour : BEHAVIOUR) (fuel : nat)
  (g : GetOpt) (m : Memory floating_t) (p : addr) (flag : string) :
  _argv g = Some p ->
  main_lookup g = ∅ ->
  ((if _from_sys g then 1 else 0) < _argc g)%Z ->
  read_argv g m (if _from_sys g then 1 else 0) = Returns flag ->
  readArgs stod behaviour (S fuel) g m = Some (Undefined begin_of_empty_map).
Proof.
  intros Hp Hempty Hargc Hread. rewrite (readArgs_unfold _ _ _ _ _ Hp).
  simpl. destruct (Z.ltb_spec (if _from_sys g then 1 else 0) (_argc g));
    [|lia].
  assert (Hbody : body stod behaviour (prologue g m)
                  = Undefined begin_of_empty_map).
  { destruct behaviour; unfold body, body_STRICT, body_AS_IS; simpl;
      rewrite Hread; simpl; rewrite Hempty, lookup_empty;
      unfold not_in_lookup; simpl; rewrite Hempty;
      by rewrite (proj2 (map_begin_None (∅ : gmap string TYPE))). }
  by rewrite Hbody.
Qed.

(** ** Exceptions *)

(** Where the exception of an iteration comes from. *)
Lemma body_throws (behaviour : BEHAVIOUR) (f : Frame floating_t) (e : exn)
  (g : GetOpt) (m : Memory floating_t) :
  body stod behaviour f = Throws e g m ->
  conversion_failed stod f e \/ (e = out_of_range /\ at_failed f).
Proof.
  destruct (read_argv (this f) (mem f) (i f)) as [flag| |] eqn:Hread.
  2:{ by apply read_argv_never_throws in Hread. }
  2:{ destruct behaviour; unfold body, body_STRICT, body_AS_IS;
        by rewrite Hread. }
  destruct behaviour;
    unfold body, body_STRICT, body_AS_IS; rewrite Hread; simpl;
    unfold bool_STRICT, bool_AS_IS,
      HANDLE_NUMERIC_FLAGS, HANDLE_NUMERIC_FLAGS_AS_IS, bool_of_next,
      assign_converted, store_bool, store_float, store_int, store_str,
      not_in_lookup, at_lookup, load, store, no_conversion,
      mbind, mret, outcome_mbind, outcome_mret, outcome_bind;
    intros H; repeat case_match; simplify_eq; simpl in *;
    try (exfalso; eapply read_argv_never_throws; eassumption);
    try (exfalso; eapply expand_never_throws; eassumption);
    try (right; split; [done|]; eexists _, _; by repeat split);
    left; eexists flag, _, _; (split; [done|]);
    (split;
     [first [ left; split; [|reflexivity];
              match goal with
              | H : negb (N.eqb _ _) = true |- _ =>
                  apply negb_true_iff, N.eqb_neq in H; exact H
              end
            | right; eassumption ]|]);
    (split; [|reflexivity]);
    first [ left; split; eassumption | right; split; eassumption ].
Qed.

(** X19: an iteration that throws has changed nothing, and on a well-formed
    registry it throws because a conversion failed.  The object and the
    memory at the [throw] are those the iteration started with.  If every
    spelling of the main table is in the table of its type, as after any
    sequence of registrations, the exception does not come from [at]: the
    token at [i] is a registered integer or floating flag, [std::stoi] or
    [std::stod] throws on the quote-stripped text of its value (what follows
    its equals sign, or the next token), and the exception is the one it
    throws. *)
Theorem throwing_iteration_changes_nothing (behaviour : BEHAVIOUR)
  (f : Frame floating_t) (e : exn) (g : GetOpt) (m : Memory floating_t) :
  body stod behaviour f = Throws e g m ->
  g = this f /\ m = mem f
  /\ (registry_wf (this f) -> conversion_failed stod f e).
Proof.
  intros Hthrow.
  pose proof (body_sound behaviour f) as Hsound.
  rewrite Hthrow in Hsound. destruct Hsound as (-> & -> & _).
  split; [done|]. split; [done|]. intros Hwf.
  destruct (body_throws _ _ _ _ _ Hthrow)
    as [Hconv|(_ & flag & t & _ & Hmain & Htyped)]; [done|].
  destruct (Hwf _ _ Hmain) as [data Hdata]. congruence.
Qed.

(** ** Registration *)

Lemma getlines_nonempty (flagName : string) : getlines flagName <> [].
Proof.
  destruct flagName as [|c r]; [done|]. simpl.
  destruct (Ascii.eqb c ","); [done|]. by destruct (getlines r).
Qed.

(** X20: the aliases of a registration are the texts between the commas.
    Joined with commas, the pieces that the [getline] loop of [SETUP_FLAG]
    reads give the alias list back, and no piece has a comma: the loop
    registers every alias, the last one and empty ones included, and nothing
    else. *)
Theorem getlines_round_trip (flagName : string) :
  String.concat "," (getlines flagName) = flagName
  /\ Forall no_comma (getlines flagName).
Proof.
  induction flagName as [|c r [IHjoin IHno]].
  - split; [done|]. repeat constructor. unfold no_comma. simpl.
    apply not_elem_of_nil.
  - simpl. destruct (Ascii.eqb_spec c ",") as [->|Hne].
    + split.
      * pose proof (getlines_nonempty r) as Hr.
        destruct (getlines r) as [|piece pieces]; [done|].
        simpl in *. by rewrite IHjoin.
      * constructor; [|done]. unfold no_comma. simpl. apply not_elem_of_nil.
    + pose proof (getlines_nonempty r) as Hr.
      destruct (getlines r) as [|piece pieces]; [done|].
      apply Forall_cons in IHno as [Hpiece Hpieces].
      split.
      * destruct pieces as [|piece' pieces]; simpl in *; by rewrite <- IHjoin.
      * constructor; [|done]. unfold no_comma in *. simpl.
        rewrite elem_of_cons. intros [?|?]; [congruence|done].
Qed.

Lemma insert_alias_other (t t' : TYPE) (p : addr) (g : GetOpt)
  (flag alias : string) :
  flag <> alias ->
  main_lookup (insert_alias t p g flag) !! alias = main_lookup g !! alias
  /\ typed_lookup t' (insert_alias t p g flag) !! alias
     = typed_lookup t' g !! alias.
Proof.
  intros Hne. rewrite main_lookup_insert_alias, typed_lookup_insert_alias.
  assert (Hins : forall (V : Type) (v : V) (tbl : gmap string V),
             map_insert flag v tbl !! alias = tbl !! alias).
  { intros V v tbl. unfold map_insert.
    destruct (tbl !! flag); [done|]. by rewrite lookup_insert_ne. }
  split; [apply Hins|]. case_decide; [|done]. subst. apply Hins.
Qed.

Lemma insert_alias_fresh (t : TYPE) (p : addr) (g : GetOpt) (alias : string) :
  main_lookup g !! alias = None ->
  typed_lookup t g !! alias = None ->
  main_lookup (insert_alias t p g alias) !! alias = Some t
  /\ typed_lookup t (insert_alias t p g alias) !! alias = Some p.
Proof.
  intros Hmain Htyped.
  rewrite main_lookup_insert_alias, typed_lookup_insert_alias.
  rewrite decide_True by done. unfold map_insert.
  rewrite Hmain, Htyped. by rewrite !lookup_insert_eq.
Qed.

Lemma SETUP_FLAG_other (t t' : TYPE) (flagName alias : string) (p : addr)
  (g : GetOpt) :
  alias ∉ getlines flagName ->
  main_lookup (SETUP_FLAG t flagName p g) !! alias = main_lookup g !! alias
  /\ typed_lookup t' (SETUP_FLAG t flagName p g) !! alias
     = typed_lookup t' g !! alias.
Proof.
  unfold SETUP_FLAG. generalize (getlines flagName) as pieces.
  intros pieces. revert g.
  induction pieces as [|flag pieces IH]; intros g Hnot; [done|].
  apply not_elem_of_cons in Hnot as [Hne Hnot]. simpl.
  destruct (IH (insert_alias t p g flag) Hnot) as [-> ->].
  by apply insert_alias_other.
Qed.

Lemma SETUP_FLAG_fresh (t : TYPE) (flagName alias : string) (p : addr)
  (g : GetOpt) :
  alias ∈ getlines flagName ->
  main_lookup g !! alias = None ->
  typed_lookup t g !! alias = None ->
  main_lookup (SETUP_FLAG t flagName p g) !! alias = Some t
  /\ typed_lookup t (SETUP_FLAG t flagName p g) !! alias = Some p.
Proof.
  unfold SETUP_FLAG. generalize (getlines flagName) as pieces.
  intros pieces. revert g.
  induction pieces as [|flag pieces IH]; intros g Hin Hmain Htyped.
  - by apply elem_of_nil in Hin.
  - simpl. destruct (decide (flag = alias)) as [->|Hne].
    + destruct (insert_alias_fresh t p g alias Hmain Htyped) as [Hm Ht].
      clear IH Hin.
      revert Hm Ht. generalize (insert_alias t p g alias) as g1.
      clear. induction pieces as [|flag pieces IH]; intros g1 Hm Ht; [done|].
      simpl. apply IH.
      * rewrite main_lookup_insert_alias. by apply map_insert_kept.
      * rewrite typed_lookup_insert_alias, decide_True by done.
        by apply map_insert_kept.
    + apply elem_of_cons in Hin as [->|Hin]; [done|].
      destruct (insert_alias_other t t p g flag alias Hne) as [Hm Ht].
      apply IH; [done| |]; congruence.
Qed.

Lemma register_SETUP_FLAG (r : registration floating_t) (g : GetOpt)
  (m : Memory floating_t) :
  (register r g m).1.2
  = SETUP_FLAG (registration_type r) (registration_names r)
      (register r g m).1.1 g.
Proof. by destruct r. Qed.

(** X21: all fresh aliases of one registration share its new cell and its
    type.  After any registration call, the handle it returned was no cell
    before the call and is a cell that holds the default after it; the cells
    that existed keep their values; and every alias of its list that was in
    no table before resolves to the type of the call and to that handle. *)
Theorem registration_binds_fresh_aliases (r : registration floating_t)
  (g : GetOpt) (m : Memory floating_t) :
  let '(handle, g', m') := register r g m in
  new_cell r handle m
  /\ holds_default r handle m'
  /\ (forall data,
        bool_cells m !! data = None \/ bool_cells m' !! data = bool_cells m !! data)
  /\ (forall data,
        int_cells m !! data = None \/ int_cells m' !! data = int_cells m !! data)
  /\ (forall data,
        str_cells m !! data = None \/ str_cells m' !! data = str_cells m !! data)
  /\ (forall data,
        float_cells m !! data = None
        \/ float_cells m' !! data = float_cells m !! data)
  /\ forall alias,
       alias ∈ getlines (registration_names r) ->
       main_lookup g !! alias = None ->
       typed_lookup (registration_type r) g !! alias = None ->
       main_lookup g' !! alias = Some (registration_type r)
       /\ typed_lookup (registration_type r) g' !! alias = Some handle.
Proof.
  assert (Happ : forall (A : Type) (l : list A) (x : A) (data : addr),
             l !! data = None \/ (l ++ [x]) !! data = l !! data).
  { intros A l x data. destruct (l !! data) eqn:Hl; [right|by left].
    by apply lookup_app_l_Some. }
  assert (Hnew : forall (A : Type) (l : list A) (x : A),
             (l ++ [x]) !! length l = Some x).
  { intros A l x. rewrite lookup_app_r by lia. by rewrite Nat.sub_diag. }
  destruct r;
    unfold register, flagBoolean, flagFloating, flagInt, flagString;
    cbv zeta; simpl;
    (split; [by apply lookup_ge_None_2|]);
    (split; [apply Hnew|]); repeat (split; [by auto|]);
    intros alias Hin Hmain Htyped; by apply SETUP_FLAG_fresh.
Qed.

(** X22: a registration touches the entries of its own aliases only.  A
    spelling that is not one of the pieces of the alias list has, in the main
    table and in all four typed tables, the entry it had before. *)
Theorem registration_leaves_other_spellings (r : registration floating_t)
  (g : GetOpt) (m : Memory floating_t) (spelling : string) :
  spelling ∉ getlines (registration_names r) ->
  let '(_, g', _) := register r g m in
  main_lookup g' !! spelling = main_lookup g !! spelling
  /\ forall t, typed_lookup t g' !! spelling = typed_lookup t g !! spelling.
Proof.
  intros Hnot. pose proof (register_SETUP_FLAG r g m) as Hg.
  destruct (register r g m) as [[handle g'] m']. simpl in Hg. subst g'.
  split.
  - by destruct (SETUP_FLAG_other (registration_type r) BOOL
                   (registration_names r) spelling handle g Hnot).
  - intros t.
    by destruct (SETUP_FLAG_other (registration_type r) t
                   (registration_names r) spelling handle g Hnot).
Qed.

(** X23: registrations keep the registry well formed.  After any sequence of
    registration calls on a default-constructed parser, every spelling of the
    main table is in the table of its type, so that [at] in the parse finds
    what [find] found. *)
Theorem registered_parser_is_well_formed
  (rs : list (registration floating_t)) :
  registry_wf (registers rs GetOpt_default Memory_empty).1.
Proof.
  assert (H : forall (g : GetOpt) (m : Memory floating_t),
             registry_wf g -> registry_wf (registers rs g m).1).
  { induction rs as [|r rs IH]; intros g m Hwf; [done|].
    simpl. apply IH. by apply register_wf. }
  apply H, GetOpt_default_wf.
Qed.

(** ** [stripQuotes] *)

Lemma find_char_front (q : ascii) (s : string) :
  Str.find (String q EmptyString) (String q s) = 0%N.
Proof.
  unfold Str.find. rewrite index_cons, prefix_cons, prefix_empty.
  by destruct (ascii_dec q q).
Qed.

Lemma find_last_of_from_end (c : ascii) (pos : N) (s : string) :
  (pos + N.of_nat (String.length s) < Str.npos)%N ->
  Str.find_last_of_from c pos (s +:+ String c EmptyString)
  = (pos + N.of_nat (String.length s))%N.
Proof.
  revert pos. induction s as [|d s IH]; intros pos Hlt.
  - simpl. rewrite Ascii.eqb_refl. simpl. lia.
  - rewrite append_cons. simpl String.length in *.
    cbn [Str.find_last_of_from]. rewrite IH by lia.
    destruct (N.eqb_spec (pos + 1 + N.of_nat (String.length s)) Str.npos);
      lia.
Qed.

Lemma find_last_of_from_back (c : ascii) (pos : N) (s : string) :
  s <> EmptyString ->
  (pos + N.of_nat (String.length s) < Str.npos)%N ->
  Str.find_last_of_from c pos s
  = (pos + N.of_nat (String.length s) - 1)%N ->
  Str.back s = Some c.
Proof.
  revert pos. induction s as [|d s IH]; intros pos Hne Hlt; [done|].
  simpl String.length in *. cbn [Str.find_last_of_from].
  destruct s as [|d' s].
  - simpl. destruct (Ascii.eqb_spec c d) as [->|]; [done|]. intros H.
    unfold Str.npos, Str.modulus in *. lia.
  - destruct (N.eqb_spec (Str.find_last_of_from c (pos + 1) (String d' s))
                Str.npos) as [Hnone|Hsome].
    + simpl String.length in *.
      destruct (Ascii.eqb c d); intros H; lia.
    + intros H. change (Str.back (String d (String d' s)))
        with (Str.back (String d' s)).
      apply (IH (pos + 1)%N); [done|simpl String.length in *; lia|].
      rewrite H. simpl String.length. lia.
Qed.

Lemma quoted_by_ends (q : ascii) (s : string) :
  fits s -> quoted_by q s = true -> Str.front s = q /\ Str.back s = Some q.
Proof.
  unfold fits, quoted_by. intros Hfits [Hfront Hback]%andb_prop.
  apply N.eqb_eq in Hfront, Hback.
  destruct s as [|c s]; [done|].
  apply find_at_front in Hfront; [|done].
  rewrite prefix_cons in Hfront.
  destruct (ascii_dec q c) as [<-|]; [|done].
  split; [done|].
  apply (find_last_of_from_back q 0); [done|unfold Str.size in *; lia|].
  unfold Str.find_last_of in Hback. rewrite Hback.
  unfold Str.sub, Str.size in *. simpl String.length in *.
  unfold Str.npos, Str.modulus in *.
  rewrite (N.mod_small 1) by lia.
  replace (N.of_nat (S (String.length s)) + 2 ^ 64 - 1)%N
    with (N.of_nat (String.length s) + 1 * 2 ^ 64)%N by lia.
  rewrite N.Div0.mod_add, N.mod_small; lia.
Qed.

(** X24: [stripQuotes] changes a text only if it starts and ends with the same
    quote.  A text that [stripQuotes] does not return as it is starts with a
    double or single quote and ends with that same character: texts without
    quotes, with a quote at one end only, or with two different quotes come
    back unchanged. *)
Theorem stripQuotes_only_matching_quotes (s : string) :
  fits s ->
  stripQuotes s <> s ->
  exists q, is_quote q /\ Str.front s = q /\ Str.back s = Some q.
Proof.
  intros Hfits Hne. unfold stripQuotes in Hne.
  destruct (quoted_by dquote s) eqn:Hd.
  - exists dquote. split; [by left|]. by apply quoted_by_ends.
  - destruct (quoted_by squote s) eqn:Hs; [|done].
    exists squote. split; [by right|]. by apply quoted_by_ends.
Qed.

Lemma quoted_by_quoted (q : ascii) (s : string) :
  fits (quoted q s) -> quoted_by q (quoted q s) = true.
Proof.
  unfold fits, quoted, quoted_by, Str.size. intros Hfits.
  simpl String.length in Hfits. rewrite length_append_char in Hfits.
  rewrite find_char_front. simpl.
  apply N.eqb_eq. unfold Str.find_last_of.
  cbn [Str.find_last_of_from].
  rewrite find_last_of_from_end by lia.
  unfold Str.sub, Str.size. simpl String.length.
  rewrite length_append_char.
  unfold Str.npos, Str.modulus in *.
  destruct (N.eqb_spec (0 + 1 + N.of_nat (String.length s)) (2 ^ 64 - 1));
    [lia|].
  rewrite (N.mod_small 1) by lia.
  replace (N.of_nat (S (String.length s + 1)) + 2 ^ 64 - 1)%N
    with (N.of_nat (String.length s) + 1 + 1 * 2 ^ 64)%N by lia.
  rewrite N.Div0.mod_add, N.mod_small; lia.
Qed.

(** X25: [stripQuotes] takes a pair of matching quotes off.  For either quote
    character [q] and every text [s], quotes inside it included, the
    quote-stripped form of [q s q] is [s]; and a lone quote character is
    stripped to the empty text. *)
Theorem stripQuotes_quoted (q : ascii) (s : string) :
  is_quote q ->
  fits (quoted q s) ->
  stripQuotes (quoted q s) = s
  /\ stripQuotes (String q EmptyString) = EmptyString.
Proof.
  intros Hq Hfits. split.
  - unfold stripQuotes.
    assert (Hyes : quoted_by dquote (quoted q s) || quoted_by squote (quoted q s)
                   = true).
    { destruct Hq as [-> | ->]; rewrite quoted_by_quoted by done;
        [done|apply orb_true_r]. }
    rewrite Hyes. unfold Str.substr, Str.sub, Str.size.
    unfold fits, Str.size, quoted in *.
    simpl String.length in *. rewrite length_append_char in *.
    unfold Str.npos, Str.modulus in *.
    rewrite (N.mod_small 2) by lia.
    replace (N.of_nat (S (String.length s + 1)) + 2 ^ 64 - 2)%N
      with (N.of_nat (String.length s) + 1 * 2 ^ 64)%N by lia.
    rewrite N.Div0.mod_add, N.mod_small by lia.
    rewrite N.min_l by lia. rewrite Nat2N.id.
    change (N.to_nat 1) with 1%nat. simpl. apply substring_front.
  - by destruct Hq as [-> | ->].
Qed.

(** ** Passes that do not return, and passes that do *)

Lemma read_argv_inv (g : GetOpt) (m : Memory floating_t) (k : Z)
  (flag : string) :
  read_argv g m k = Returns flag ->
  exists (p a : addr) (arr : list addr),
    _argv g = Some p
    /\ arrays m !! p = Some (Some arr)
    /\ (0 <= k)%Z
    /\ arr !! Z.to_nat k = Some a
    /\ buffers m !! a = Some (Some flag).
Proof.
  unfold read_argv. intros H. repeat case_match; simplify_eq.
  match goal with H : (_ <? _)%Z = false |- _ => apply Z.ltb_ge in H end.
  eauto 10.
Qed.

Lemma stands_on_dash_equals_step (behaviour : BEHAVIOUR)
  (f : Frame floating_t) :
  stands_on_dash_equals f ->
  exists f', body stod behaviour f = Returns f' /\ stands_on_dash_equals f'.
Proof.
  intros (Hi & [t Hreg] & Hdash & (first & Hfirst & Hfront)
          & p & a & arr & Hargv & Harr & Hlen & Ha & Hbuf).
  assert (Hi0 : (i f <? 0)%Z = false) by (apply Z.ltb_ge; lia).
  assert (Hread : read_argv (this f) (mem f) (i f) = Returns "-=").
  { unfold read_argv. by rewrite Hargv, Harr, Hi0, Ha, Hbuf. }
  assert (Hbody : body stod behaviour f = expand "-=" f).
  { destruct behaviour; unfold body, body_STRICT, body_AS_IS;
      rewrite Hread; simpl;
      change (flag_only_of "-=") with "-"; rewrite Hdash;
      unfold not_in_lookup; rewrite Hfirst, Hfront; simpl;
      change (Str.substr "-=" 0 2) with "-="; by rewrite Hreg. }
  rewrite Hbody. unfold expand. cbv zeta.
  rewrite Hargv, Harr. simpl.
  assert (Hno : ((_argc (this f) <? 0)%Z
                 || (Z.of_nat (length arr) <? _argc (this f))%Z) = false).
  { apply orb_false_iff. split; apply Z.ltb_ge; lia. }
  rewrite Hno, Hi0, !app_nil_r.
  assert (Htake : take (Z.to_nat (_argc (this f))) arr !! Z.to_nat (i f)
                  = Some a).
  { rewrite lookup_take_lt by lia. done. }
  rewrite Htake, Hbuf. simpl.
  eexists. split; [reflexivity|].
  unfold stands_on_dash_equals. simpl.
  split; [lia|]. split; [by eexists|]. split; [done|].
  split; [by eauto|].
  eexists _, a, _. split; [reflexivity|].
  split. { rewrite lookup_app_r by lia. by rewrite Nat.sub_diag. }
  split. { rewrite length_take. lia. }
  split; [done|].
  apply list_lookup_insert_eq. by eapply lookup_lt_Some.
Qed.

(** X26: the loop can run for ever.  Whenever the loop stands on a token [-=]
    while [-=] is a registered spelling, [-] is none and the first key of the
    registry starts with the marker, no amount of fuel ends it: the token is
    not its own flag-only part, so it is expanded, and having no interior
    character it is rewritten to itself. *)
Theorem loop_on_dash_equals_never_ends (behaviour : BEHAVIOUR) (fuel : nat)
  (f : Frame floating_t) :
  stands_on_dash_equals f ->
  while_loop (body stod behaviour) fuel f = None.
Proof.
  revert f. induction fuel as [|fuel IH]; intros f Hf.
  - destruct Hf as (Hi & _). simpl.
    destruct (Z.ltb_spec (i f) (_argc (this f))); [done|lia].
  - destruct (stands_on_dash_equals_step behaviour f Hf) as (f' & Hbody & Hf').
    destruct Hf as (Hi & _). simpl.
    destruct (Z.ltb_spec (i f) (_argc (this f))); [|lia].
    rewrite Hbody. by apply IH.
Qed.

Lemma token_weight_pos (text : string) : (1 <= token_weight text)%nat.
Proof.
  unfold token_weight. destruct (Nat.leb_spec (String.length text) 2); lia.
Qed.

Lemma buffer_weight_pos (bufs : list (option string)) (a : addr) :
  (1 <= buffer_weight bufs a)%nat.
Proof.
  unfold buffer_weight. repeat case_match; try lia. apply token_weight_pos.
Qed.

Lemma sum_list_drop_le (n : nat) (l : list nat) :
  (sum_list (drop n l) <= sum_list l)%nat.
Proof.
  revert n. induction l as [|x l IH]; intros [|n]; simpl; try lia.
  specialize (IH n). lia.
Qed.

Lemma sum_list_fmap_le {A : Type} (w w' : A -> nat) (l : list A) :
  (forall x, (w' x <= w x)%nat) ->
  (sum_list (w' <$> l) <= sum_list (w <$> l))%nat.
Proof.
  intros Hle. induction l as [|x l IH]; csimpl; [lia|].
  specialize (Hle x). lia.
Qed.

Lemma sum_list_fmap_ones {A : Type} (w : A -> nat) (l : list A) :
  Forall (fun x => w x = 1%nat) l -> sum_list (w <$> l) = length l.
Proof. induction 1 as [|x l Hx _ IH]; csimpl; [done|]. lia. Qed.

Lemma length_substring (a b : nat) (s : string) :
  String.length (String.substring a b s)
  = Nat.min b (String.length s - a).
Proof.
  revert a b. induction s as [|c s IH]; intros [|a] [|b]; simpl; try done.
  all: rewrite IH; lia.
Qed.

(** The interior of a token of at least two characters that fits. *)
Lemma length_interior (flag : string) :
  fits flag -> (2 <= String.length flag)%nat ->
  length (Str.chars (Str.substr flag 1 (Str.sub (Str.size flag) 2)))
  = (String.length flag - 2)%nat.
Proof.
  unfold fits, Str.size. intros Hfits Hlen.
  rewrite length_chars. unfold Str.substr, Str.sub, Str.size.
  unfold Str.npos, Str.modulus in *.
  rewrite (N.mod_small 2) by lia.
  replace (N.of_nat (String.length flag) + 2 ^ 64 - 2)%N
    with (N.of_nat (String.length flag - 2) + 1 * 2 ^ 64)%N by lia.
  rewrite N.Div0.mod_add, N.mod_small by lia.
  rewrite length_substring. lia.
Qed.

(** A token of at most two characters is its own first two characters. *)
Lemma substr_2_short (flag : string) :
  (String.length flag <= 2)%nat -> Str.substr flag 0 2 = flag.
Proof.
  intros Hlen. unfold Str.substr, Str.size.
  rewrite N.sub_0_r, N.min_r by lia. rewrite Nat2N.id.
  apply substring_whole.
Qed.

Lemma expanded_token_is_long (g : GetOpt) (flag : string) (t : TYPE) :
  short_spellings_plain g -> fits flag ->
  main_lookup g !! flag_only_of flag = None ->
  main_lookup g !! Str.substr flag 0 2 = Some t ->
  (3 <= String.length flag)%nat.
Proof.
  intros Hplain Hfits Hnone Hsome.
  destruct (Nat.le_gt_cases (String.length flag) 2) as [Hshort|]; [|lia].
  rewrite (substr_2_short _ Hshort) in Hsome.
  assert (Hno : no_equals flag) by (apply Hplain; [by eexists|done]).
  rewrite (no_equals_flag_only _ Hno Hfits) in Hnone. congruence.
Qed.

(** An iteration that advances leaves less weight. *)
Lemma remaining_weight_advance (f f' : Frame floating_t) (flag : string)
  (n : Z) :
  read_argv (this f) (mem f) (i f) = Returns flag ->
  (i f < _argc (this f))%Z ->
  (1 <= n)%Z ->
  _argv (this f') = _argv (this f) ->
  _argc (this f') = _argc (this f) ->
  arrays (mem f') = arrays (mem f) ->
  buffers (mem f') = buffers (mem f) ->
  i f' = (i f + n)%Z ->
  (remaining_weight f' < remaining_weight f)%nat.
Proof.
  intros Hread Hlt Hn Hargv Hargc Harrays Hbuffers Hi.
  destruct (read_argv_inv _ _ _ _ Hread)
    as (p & a & arr & Hp & Harr & Hi0 & Ha & Hbuf).
  unfold remaining_weight. rewrite Hargv, Hargc, Harrays, Hbuffers, Hi, Hp, Harr.
  set (l := take (Z.to_nat (_argc (this f))) arr).
  assert (Hl : l !! Z.to_nat (i f) = Some a).
  { unfold l. rewrite lookup_take_lt by lia. done. }
  replace (Z.to_nat (i f + n)) with (S (Z.to_nat (i f)) + Z.to_nat (n - 1))%nat
    by lia.
  rewrite <- drop_drop, (drop_S _ _ _ Hl), !fmap_drop. csimpl.
  pose proof (sum_list_drop_le (Z.to_nat (n - 1))
                (drop (S (Z.to_nat (i f)))
                   (buffer_weight (buffers (mem f)) <$> l))) as Hle.
  rewrite <- ?fmap_drop in Hle |- *.
  pose proof (buffer_weight_pos (buffers (mem f)) a). lia.
Qed.

(** The buffers after an expansion: an old pointer weighs no more than
    before, a fresh one weighs one. *)
Lemma weight_after_expand_old (bufs : list (option string))
  (cs : list ascii) (a x : addr) (c : ascii) :
  (a < length bufs)%nat ->
  (buffer_weight
     (<[a := Some (Str.dash c)]>
        (bufs ++ ((fun c => Some (Str.dash c)) <$> cs))) x
   <= buffer_weight bufs x)%nat.
Proof.
  intros Ha. unfold buffer_weight.
  destruct (decide (a = x)) as [<-|Hne].
  - rewrite list_lookup_insert_eq by (rewrite length_app; lia).
    change (token_weight (Str.dash c)) with 1%nat.
    repeat case_match; try lia. apply token_weight_pos.
  - rewrite list_lookup_insert_ne by done.
    destruct (decide (x < length bufs)%nat).
    + by rewrite lookup_app_l by done.
    + rewrite lookup_app_r by lia.
      rewrite (lookup_ge_None_2 bufs x) by lia.
      rewrite list_lookup_fmap. by destruct (cs !! _).
Qed.

Lemma weight_after_expand_fresh (bufs : list (option string))
  (cs : list ascii) (a : addr) (c : ascii) :
  (a < length bufs)%nat ->
  Forall
    (fun x =>
       buffer_weight
         (<[a := Some (Str.dash c)]>
            (bufs ++ ((fun c => Some (Str.dash c)) <$> cs))) x = 1%nat)
    (seq (length bufs) (length cs)).
Proof.
  intros Ha. apply Forall_forall. intros x Hx%elem_of_seq.
  unfold buffer_weight.
  rewrite list_lookup_insert_ne by lia.
  rewrite lookup_app_r by lia.
  rewrite list_lookup_fmap. by destruct (cs !! _).
Qed.

(** An expansion of a token of three characters or more leaves less
    weight. *)
Lemma remaining_weight_expand (f f' : Frame floating_t) (flag : string) :
  fits flag -> (3 <= String.length flag)%nat ->
  read_argv (this f) (mem f) (i f) = Returns flag ->
  (i f < _argc (this f))%Z ->
  expand flag f = Returns f' ->
  (remaining_weight f' < remaining_weight f)%nat.
Proof.
  intros Hfits Hlen Hread Hlt Hexp.
  destruct (read_argv_inv _ _ _ _ Hread)
    as (p0 & a0 & arr & Hp0 & Harr0 & Hi0 & Ha0 & Hbuf).
  destruct (expand_inv _ _ _ Hexp)
    as (p & a & old & current & lastFlag & Hp & Harr & Hback & Hargc & _
        & Ha & Hcur & _ & ->).
  cbv zeta in *.
  rewrite Hp0 in Hp. injection Hp as <-.
  rewrite Harr0 in Harr. injection Harr as <-.
  set (interior := Str.chars (Str.substr flag 1 (Str.sub (Str.size flag) 2)))
    in *.
  set (front := take (Z.to_nat (_argc (this f))) arr) in *.
  assert (Hfront : front !! Z.to_nat (i f) = Some a0).
  { unfold front. by rewrite lookup_take_lt by lia. }
  assert (Hfrontlen : length front = Z.to_nat (_argc (this f))).
  { unfold front. rewrite length_take. lia. }
  rewrite lookup_app_l in Ha by lia.
  rewrite Hfront in Ha. injection Ha as <-.
  assert (Hbound : (a0 < length (buffers (mem f)))%nat).
  { apply lookup_lt_is_Some. by eexists. }
  assert (Hinterior : length interior = (String.length flag - 2)%nat).
  { apply length_interior; [done|lia]. }
  unfold remaining_weight. simpl.
  rewrite (list_lookup_middle _ [] _ _ eq_refl).
  rewrite Hp0, Harr0. fold front.
  rewrite size_chars. fold interior.
  rewrite take_ge by (rewrite length_app, length_seq; lia).
  rewrite drop_app_le by lia.
  rewrite (drop_S _ _ _ Hfront). csimpl.
  rewrite fmap_app, sum_list_with_app.
  rewrite (sum_list_fmap_ones _ _
             (weight_after_expand_fresh _ interior _ lastFlag Hbound)).
  rewrite length_seq, Hinterior.
  pose proof (weight_after_expand_old (buffers (mem f)) interior a0 a0
                lastFlag Hbound) as Hhere.
  unfold buffer_weight at 1 in Hhere.
  rewrite list_lookup_insert_eq in Hhere by (rewrite length_app; lia).
  change (token_weight (Str.dash lastFlag)) with 1%nat in Hhere.
  assert (Hwas : buffer_weight (buffers (mem f)) a0 = String.length flag).
  { unfold buffer_weight, token_weight. rewrite Hbuf.
    destruct (Nat.leb_spec (String.length flag) 2); [lia|done]. }
  assert (Hnow :
    buffer_weight
      (<[a0 := Some (Str.dash lastFlag)]>
         (buffers (mem f) ++ ((fun c => Some (Str.dash c)) <$> interior))) a0
    = 1%nat).
  { unfold buffer_weight.
    by rewrite list_lookup_insert_eq by (rewrite length_app; lia). }
  rewrite Hnow, Hwas.
  pose proof (sum_list_fmap_le (buffer_weight (buffers (mem f)))
                (buffer_weight
                   (<[a0 := Some (Str.dash lastFlag)]>
                      (buffers (mem f)
                       ++ ((fun c => Some (Str.dash c)) <$> interior))))
                (drop (S (Z.to_nat (i f))) front)
                (fun x => weight_after_expand_old _ interior a0 x lastFlag
                            Hbound)) as Hrest.
  lia.
Qed.

(** An expansion writes texts of two characters only. *)
Lemma expand_buffers_fit (f f' : Frame floating_t) (flag : string) :
  buffers_fit (mem f) -> expand flag f = Returns f' -> buffers_fit (mem f').
Proof.
  intros Hfit Hexp.
  destruct (expand_inv _ _ _ Hexp)
    as (p & a & old & current & lastFlag & _ & _ & _ & _ & _
        & _ & _ & _ & ->).
  cbv zeta. unfold buffers_fit. simpl. intros x text Hx.
  rewrite list_lookup_insert in Hx. case_decide.
  { injection Hx as <-. by vm_compute. }
  apply lookup_app_Some in Hx as [Hx|[_ Hx]]; [by eapply Hfit|].
  rewrite list_lookup_fmap in Hx.
  destruct (_ !! _); [|done]. injection Hx as <-. by vm_compute.
Qed.

(** The two conditions under which every expansion makes progress: they are
    kept by an iteration, which then leaves less weight. *)
Lemma iteration_progress (f f' : Frame floating_t) :
  short_spellings_plain (this f) -> buffers_fit (mem f) ->
  (i f < _argc (this f))%Z ->
  iteration f f' ->
  short_spellings_plain (this f') /\ buffers_fit (mem f')
  /\ (remaining_weight f' < remaining_weight f)%nat.
Proof.
  intros Hplain Hfit Hlt Hit.
  assert (Hreg : short_spellings_plain (this f')).
  { destruct (iteration_registry _ _ Hit) as [Hr _].
    unfold registry_of in Hr. injection Hr as Hmain _ _ _ _.
    unfold short_spellings_plain. by rewrite Hmain. }
  split; [done|].
  destruct Hit
    as [flag Hread|flag Hread|flag t f1 Hread Hnone Hsome Hexp|flag Hread
       |flag m1 n Hread Hw Hn].
  - split; [done|]. by eapply (remaining_weight_advance _ _ flag 1).
  - split; [done|]. by eapply (remaining_weight_advance _ _ flag 1).
  - split; [by eapply expand_buffers_fit|].
    destruct (read_argv_inv _ _ _ _ Hread)
      as (p0 & a0 & arr & _ & _ & _ & _ & Hbuf).
    assert (Hfits : fits flag) by (by eapply Hfit).
    eapply remaining_weight_expand; try eassumption.
    by apply (expanded_token_is_long (this f) flag t).
  - split; [done|]. by eapply (remaining_weight_advance _ _ flag 2).
  - destruct (cell_write_buffers _ _ _ Hw) as [Hb Ha].
    split.
    + unfold buffers_fit. simpl. by rewrite Hb.
    + eapply (remaining_weight_advance _ _ flag n); try done.
      destruct Hn; lia.
Qed.

(** The loop ends within as many iterations as the tokens that are left
    weigh. *)
Lemma while_loop_terminates (behaviour : BEHAVIOUR) (fuel : nat)
  (f : Frame floating_t) :
  short_spellings_plain (this f) -> buffers_fit (mem f) ->
  (remaining_weight f < fuel)%nat ->
  finished (while_loop (body stod behaviour) fuel f) = true.
Proof.
  revert f. induction fuel as [|fuel IH]; intros f Hplain Hfit Hw; [lia|].
  simpl. destruct (Z.ltb_spec (i f) (_argc (this f))); [|done].
  pose proof (body_sound behaviour f) as Hbody.
  destruct (body stod behaviour f) as [f1|e g m|u]; [|done|done].
  destruct (iteration_progress _ _ Hplain Hfit ltac:(done) Hbody)
    as (Hplain1 & Hfit1 & Hless).
  apply IH; [done|done|lia].
Qed.

(** X27: a pass ends when no short spelling has an equals sign.  On a parser
    in which no spelling of one or two characters has an equals sign, and on
    buffers whose texts fit a [size_type], the loop makes at most as many
    iterations as the tokens from the start position weigh (a token of more
    than two characters weighs its length, any other token one): with more
    fuel than that, [readArgs] returns, throws or stops at an undefined
    operation. *)
Theorem readArgs_terminates (behaviour : BEHAVIOUR) (fuel : nat)
  (g : GetOpt) (m : Memory floating_t) :
  short_spellings_plain g -> buffers_fit m ->
  (remaining_weight (prologue g m) < fuel)%nat ->
  finished (readArgs stod behaviour fuel g m) = true.
Proof.
  intros Hplain Hfit Hfuel.
  destruct (_argv g) as [p|] eqn:Hp.
  2:{ unfold readArgs. by rewrite Hp. }
  rewrite (readArgs_unfold _ _ _ _ _ Hp).
  pose proof (while_loop_terminates behaviour fuel (prologue g m)
                Hplain Hfit Hfuel) as Hloop.
  destruct (while_loop _ fuel _) as [[f|e g' m'|u]|]; done.
Qed.

(** The two conditions can be tested. *)
Lemma short_spellings_plainb_sound (g : GetOpt) :
  short_spellings_plainb g = true -> short_spellings_plain g.
Proof.
  unfold short_spellings_plainb. rewrite forallb_forall.
  intros Hall k [t Hk] Hlen. unfold no_equals.
  specialize (Hall k). rewrite <- list_elem_of_In in Hall.
  assert (Hin : k ∈ (map_to_list (main_lookup g)).*1).
  { apply list_elem_of_fmap. exists (k, t). split; [done|].
    by apply elem_of_map_to_list. }
  specialize (Hall Hin).
  apply Nat.leb_le in Hlen. rewrite Hlen in Hall. simpl in Hall.
  by destruct (String.index 0 "=" k).
Qed.

Lemma buffers_fitb_sound (m : Memory floating_t) :
  buffers_fitb m = true -> buffers_fit m.
Proof.
  unfold buffers_fitb. rewrite forallb_forall.
  intros Hall a text Ha. unfold fits.
  specialize (Hall (Some text)). rewrite <- list_elem_of_In in Hall.
  apply N.ltb_lt, Hall. by eapply list_elem_of_lookup_2.
Qed.

End Properties.

(** * Closed instances *)

(** C6, as the claim states it: after [-a] is registered as a boolean flag and
    then again as an integer flag, the main table still holds the tag [BOOL],
    and parsing [prog -a 7] writes the boolean cell and leaves the integer
    cell at its default; after [-a] is registered twice as a boolean flag, the
    table still points to the first cell, and parsing [prog -a] writes the
    first cell and not the second. *)
Lemma C6_later_registration_does_not_overwrite :
  (let '(first, second, g, m) := registered_twice (F := no_float) in
   main_lookup g !! "-a" = Some BOOL
   /\ main_lookup g !! "-a" <> Some INT
   /\ match readArgs no_stod STRICT 2 g m with
      | Some (Returns (_, g', m')) =>
          bool_cells m' !! first = Some true
          /\ int_cells m' !! second = Some 0%Z
          /\ getOptions g' = ["7"]
      | _ => False
      end)
  /\ (let '(first, second, g, m) := registered_again (F := no_float) in
      first <> second
      /\ bool_lookup g !! "-a" = Some first
      /\ match readArgs no_stod STRICT 1 g m with
         | Some (Returns (_, _, m')) =>
             bool_cells m' !! first = Some true
             /\ bool_cells m' !! second = Some false
         | _ => False
         end).
Proof.
  split.
  - open_scenario (tuple4_eta (@registered_twice no_float)).
    vm_compute. done.
  - open_scenario (tuple4_eta (@registered_again no_float)).
    vm_compute. done.
Qed.

(** The amended C6 at work: [-a] is a boolean flag with the cell [0]; a
    later [flagInt] on the same alias changes neither. *)
Lemma C6_earlier_registration_is_kept_witness :
  let g := (registered_again (F := no_float)).1.2 in
  let m := (registered_again (F := no_float)).2 in
  main_lookup g !! "-a" = Some BOOL
  /\ typed_lookup BOOL g !! "-a" = Some 0%nat
  /\ let '(_, g', _) := register (call_flagInt "-a" 5) g m in
     main_lookup g' !! "-a" = Some BOOL
     /\ typed_lookup BOOL g' !! "-a" = Some 0%nat.
Proof.
  cbv zeta.
  assert (H1 : main_lookup (registered_again (F := no_float)).1.2 !! "-a"
               = Some BOOL) by (vm_compute; reflexivity).
  assert (H2 : typed_lookup BOOL (registered_again (F := no_float)).1.2 !! "-a"
               = Some 0%nat) by (vm_compute; reflexivity).
  split; [exact H1|]. split; [exact H2|].
  exact (C6_earlier_registration_is_kept (call_flagInt "-a" 5) _
           (registered_again (F := no_float)).2 "-a" BOOL 0%nat H1 H2).
Defined.

(** C7, as the claim states it: with [-a] and [/b] registered, the token [/x]
    is not in the registry and its first character is the first character of
    the registered spelling [/b]; yet both dialects append it to the options
    and advance, because the first key of the registry is [-a]. *)
Lemma C7_registered_marker_taken_as_option :
  let g := (two_markers (F := no_float)).1 in
  let m := (two_markers (F := no_float)).2 in
  read_argv g m 0 = Returns "/x"
  /\ main_lookup g !! flag_only_of "/x" = None
  /\ spec_looks_flag_like g "/x"
  /\ map_begin (main_lookup g) = Some "-a"
  /\ body no_stod STRICT (prologue g m)
     = Returns (advance 1 (push_option "/x" (prologue g m)))
  /\ body no_stod AS_IS (prologue g m)
     = Returns (advance 1 (push_option "/x" (prologue g m))).
Proof.
  cbv zeta. repeat apply conj; try (vm_compute; reflexivity).
  exists "/b". split; [|reflexivity]. vm_compute. eauto.
Qed.

(** The amended C7 at work on the same input: the first key is [-a], the
    token [/x] starts with another character, and it is taken as an option. *)
Lemma C7_flag_like_iff_first_key_witness :
  let f := prologue (two_markers (F := no_float)).1
             (two_markers (F := no_float)).2 in
  read_argv (this f) (mem f) (i f) = Returns "/x"
  /\ main_lookup (this f) !! flag_only_of "/x" = None
  /\ map_begin (main_lookup (this f)) = Some "-a"
  /\ (Str.front "/x" <> Str.front "-a" <->
      body no_stod STRICT f = Returns (advance 1 (push_option "/x" f))).
Proof.
  cbv zeta.
  set (f := prologue (two_markers (F := no_float)).1
              (two_markers (F := no_float)).2).
  assert (H1 : read_argv (this f) (mem f) (i f) = Returns "/x")
    by (vm_compute; reflexivity).
  assert (H2 : main_lookup (this f) !! flag_only_of "/x" = None)
    by (vm_compute; reflexivity).
  assert (H3 : map_begin (main_lookup (this f)) = Some "-a")
    by (vm_compute; reflexivity).
  exact (conj H1 (conj H2 (conj H3
           (proj2 (C7_flag_like_iff_first_key no_stod STRICT f "/x" "-a"
                     H1 H2 H3))))).
Defined.

(** C8 at work: [--count] is an integer flag with the default [7]; the token
    [--count] is reported and the cell still holds [7]. *)
Lemma C8_numeric_long_form_without_equals_witness :
  let f := prologue (long_count (F := no_float)).1.2
             (long_count (F := no_float)).2 in
  read_argv (this f) (mem f) (i f) = Returns "--count"
  /\ main_lookup (this f) !! flag_only_of "--count" = Some INT
  /\ int_cells (mem f) !! (long_count (F := no_float)).1.1 = Some 7%Z
  /\ body no_stod STRICT f
     = Returns (mkFrame (this f) (mem f) 2 ["--count"]).
Proof.
  cbv zeta.
  set (f := prologue (long_count (F := no_float)).1.2
              (long_count (F := no_float)).2).
  assert (H1 : read_argv (this f) (mem f) (i f) = Returns "--count")
    by (vm_compute; reflexivity).
  assert (H2 : main_lookup (this f) !! flag_only_of "--count" = Some INT)
    by (vm_compute; reflexivity).
  assert (H3 : typed_lookup INT (this f) !! flag_only_of "--count"
               = Some 0%nat) by (vm_compute; reflexivity).
  split; [exact H1|]. split; [exact H2|]. split; [vm_compute; reflexivity|].
  exact (C8_numeric_long_form_without_equals no_stod f "--count" INT 0%nat
           (or_introl eq_refl) H1 eq_refl eq_refl H2 H3).
Defined.

(** C9 at work: a default-constructed parser has no argument vector. *)
Lemma C9_no_argv_iff_unset_witness :
  _argv GetOpt_default = None
  /\ readArgs no_stod STRICT 0 GetOpt_default (Memory_empty (floating_t := no_float))
     = Some (Throws no_argv GetOpt_default Memory_empty).
Proof.
  split; [reflexivity|].
  exact (proj2 (C9_no_argv_iff_unset no_stod STRICT 0 GetOpt_default
                  Memory_empty) eq_refl).
Defined.

(** ** Instances of the further properties *)

Ltac computed :=
  vm_compute; first [reflexivity | discriminate | exact I | lia].


(** X5 at work: the pass over [-vv -n x] expands the cluster, allocating one
    buffer and one vector, and throws at the value [x] of [-n]; after the
    destructor the vector is still allocated and [_argv] points to it. *)
Lemma destructor_after_throw_witness :
  let g := (four_flags ["-vv"; "-n"; "x"] false).1 in
  let m := (four_flags ["-vv"; "-n"; "x"] false).2 in
  allocs g = []
  /\ match readArgs whole_stod STRICT 10 g m with
     | Some (Throws e g' m') =>
         e = raise_conversion conv_invalid_argument
         /\ arrays (destructor g' m')
            = [Some [0; 1; 2]; Some [0; 1; 2; 3]]%nat
         /\ _argv g = Some 0%nat
         /\ _argv g' = Some 1%nat
     | _ => False
     end
  /\ match readArgs whole_stod STRICT 10 g m with
     | Some (Throws e g' m') =>
         NoDup (allocs g')
         /\ (forall a, a ∈ allocs g' ->
                       live m' a /\ (length (buffers m) <= a)%nat)
         /\ (forall a, live m a -> live (destructor g' m') a)
         /\ (forall a, (length (buffers m) <= a < length (buffers m'))%nat ->
                       deleted (destructor g' m') a)
         /\ arrays (destructor g' m') = arrays m'
         /\ (forall p, (p < length (arrays m))%nat ->
                       arrays m' !! p = arrays m !! p)
         /\ (forall p, (length (arrays m) <= p < length (arrays m'))%nat ->
                       array_live (destructor g' m') p)
         /\ (length (arrays m') = length (arrays m) -> _argv g' = _argv g)
         /\ ((length (arrays m) < length (arrays m'))%nat ->
             _argv g' = Some (length (arrays m') - 1)%nat
             /\ _argv g' <> _argv g)
     | _ => True
     end.
Proof.
  cbv zeta.
  assert (H : allocs (four_flags ["-vv"; "-n"; "x"] false).1 = [])
    by computed.
  split; [exact H|]. split; [by vm_compute|].
  exact (destructor_after_throw whole_stod STRICT 10
           (four_flags ["-vv"; "-n"; "x"] false).1
           (four_flags ["-vv"; "-n"; "x"] false).2 H).
Defined.

(** X6 at work: [--verbose=no] sets the boolean cell to [true]. *)
Lemma boolean_with_value_witness :
  let f := prologue (four_flags ["--verbose=no"] false).1
             (four_flags ["--verbose=no"] false).2 in
  read_argv (this f) (mem f) (i f) = Returns (with_value "--verbose" "no")
  /\ bool_cells (mem f) !! 0%nat = Some false
  /\ body whole_stod STRICT f = Returns (advance 1 (assign_bool 0 true f)).
Proof.
  cbv zeta.
  set (f := prologue (four_flags ["--verbose=no"] false).1
              (four_flags ["--verbose=no"] false).2).
  assert (H1 : no_equals "--verbose") by computed.
  assert (H2 : fits (with_value "--verbose" "no")) by computed.
  assert (H3 : takes_equals STRICT "--verbose") by computed.
  assert (H4 : read_argv (this f) (mem f) (i f)
               = Returns (with_value "--verbose" "no")) by computed.
  assert (H5 : main_lookup (this f) !! "--verbose" = Some BOOL) by computed.
  assert (H6 : bool_lookup (this f) !! "--verbose" = Some 0%nat) by computed.
  assert (H7 : bool_cells (mem f) !! 0%nat = Some false) by computed.
  split; [exact H4|]. split; [exact H7|].
  exact (boolean_with_value whole_stod STRICT f "--verbose" "no" 0%nat false
           H1 H2 H3 H4 H5 H6 H7).
Defined.

(** X7 at work: in [--verbose 0] the token [0] is not looked at. *)
Lemma strict_long_boolean_alone_witness :
  let f := prologue (four_flags ["--verbose"; "0"] false).1
             (four_flags ["--verbose"; "0"] false).2 in
  read_argv (this f) (mem f) (i f) = Returns "--verbose"
  /\ body whole_stod STRICT f = Returns (advance 1 (assign_bool 0 true f)).
Proof.
  cbv zeta.
  set (f := prologue (four_flags ["--verbose"; "0"] false).1
              (four_flags ["--verbose"; "0"] false).2).
  assert (H1 : no_equals "--verbose") by computed.
  assert (H2 : fits "--verbose") by computed.
  assert (H3 : Str.find "--" "--verbose" = 0%N) by computed.
  assert (H4 : read_argv (this f) (mem f) (i f) = Returns "--verbose")
    by computed.
  assert (H5 : main_lookup (this f) !! "--verbose" = Some BOOL) by computed.
  assert (H6 : bool_lookup (this f) !! "--verbose" = Some 0%nat) by computed.
  assert (H7 : bool_cells (mem f) !! 0%nat = Some false) by computed.
  split; [exact H4|].
  exact (strict_long_boolean_alone whole_stod f "--verbose" 0%nat false
           H1 H2 H3 H4 H5 H6 H7).
Defined.

(** X8 at work: in AS_IS, [-n=12] stores [12]. *)
Lemma integer_with_value_witness :
  let f := prologue (four_flags ["-n=12"] false).1
             (four_flags ["-n=12"] false).2 in
  read_argv (this f) (mem f) (i f) = Returns (with_value "-n" "12")
  /\ body whole_stod AS_IS f = Returns (advance 1 (assign_int 0 12 f)).
Proof.
  cbv zeta.
  set (f := prologue (four_flags ["-n=12"] false).1
              (four_flags ["-n=12"] false).2).
  assert (H1 : no_equals "-n") by computed.
  assert (H2 : fits (with_value "-n" "12")) by computed.
  assert (H3 : takes_equals AS_IS "-n") by computed.
  assert (H4 : read_argv (this f) (mem f) (i f)
               = Returns (with_value "-n" "12")) by computed.
  assert (H5 : main_lookup (this f) !! "-n" = Some INT) by computed.
  assert (H6 : int_lookup (this f) !! "-n" = Some 0%nat) by computed.
  assert (H7 : int_cells (mem f) !! 0%nat = Some 0%Z) by computed.
  split; [exact H4|].
  exact (integer_with_value whole_stod AS_IS f "-n" "12" 0%nat 0%Z
           H1 H2 H3 H4 H5 H6 H7).
Defined.

(** X9 at work: [--ratio=3] stores what the conversion gives. *)
Lemma floating_with_value_witness :
  let f := prologue (four_flags ["--ratio=3"] false).1
             (four_flags ["--ratio=3"] false).2 in
  read_argv (this f) (mem f) (i f) = Returns (with_value "--ratio" "3")
  /\ body whole_stod STRICT f = Returns (advance 1 (assign_float 0 3%Z f)).
Proof.
  cbv zeta.
  set (f := prologue (four_flags ["--ratio=3"] false).1
              (four_flags ["--ratio=3"] false).2).
  assert (H1 : no_equals "--ratio") by computed.
  assert (H2 : fits (with_value "--ratio" "3")) by computed.
  assert (H3 : takes_equals STRICT "--ratio") by computed.
  assert (H4 : read_argv (this f) (mem f) (i f)
               = Returns (with_value "--ratio" "3")) by computed.
  assert (H5 : main_lookup (this f) !! "--ratio" = Some FLOAT) by computed.
  assert (H6 : float_lookup (this f) !! "--ratio" = Some 0%nat) by computed.
  assert (H7 : float_cells (mem f) !! 0%nat = Some 0%Z) by computed.
  split; [exact H4|].
  exact (floating_with_value whole_stod STRICT f "--ratio" "3" 0%nat 0%Z
           H1 H2 H3 H4 H5 H6 H7).
Defined.

(** X10 at work: [--output='a b'] stores the text without its quotes. *)
Lemma string_with_value_witness :
  let f := prologue (four_flags ["--output='a b'"] false).1
             (four_flags ["--output='a b'"] false).2 in
  read_argv (this f) (mem f) (i f) = Returns (with_value "--output" "'a b'")
  /\ body whole_stod STRICT f = Returns (advance 1 (assign_str 0 "a b" f)).
Proof.
  cbv zeta.
  set (f := prologue (four_flags ["--output='a b'"] false).1
              (four_flags ["--output='a b'"] false).2).
  assert (H1 : no_equals "--output") by computed.
  assert (H2 : fits (with_value "--output" "'a b'")) by computed.
  assert (H3 : takes_equals STRICT "--output") by computed.
  assert (H4 : read_argv (this f) (mem f) (i f)
               = Returns (with_value "--output" "'a b'")) by computed.
  assert (H5 : main_lookup (this f) !! "--output" = Some STR) by computed.
  assert (H6 : str_lookup (this f) !! "--output" = Some 0%nat) by computed.
  assert (H7 : str_cells (mem f) !! 0%nat = Some EmptyString) by computed.
  split; [exact H4|].
  exact (string_with_value whole_stod STRICT f "--output" "'a b'" 0%nat
           EmptyString H1 H2 H3 H4 H5 H6 H7).
Defined.

(** X11 at work: in [x 0 -v] the flag stands at position 2; STRICT examines
    the token [0] at position 1, passes two tokens and stores nothing. *)
Lemma boolean_without_value_witness :
  let f := advance 2
             (prologue (four_flags ["x"; "0"; "-v"] false).1
                (four_flags ["x"; "0"; "-v"] false).2) in
  read_argv (this f) (mem f) (i f) = Returns "-v"
  /\ read_argv (this f) (mem f) 1 = Returns "0"
  /\ examined_position STRICT = 1%Z
  /\ body whole_stod STRICT f = Returns (advance 2 f).
Proof.
  cbv zeta.
  set (f := advance 2
              (prologue (four_flags ["x"; "0"; "-v"] false).1
                 (four_flags ["x"; "0"; "-v"] false).2)).
  assert (H1 : takes_next STRICT "-v") by computed.
  assert (H2 : read_argv (this f) (mem f) (i f) = Returns "-v") by computed.
  assert (H3 : main_lookup (this f) !! flag_only_of "-v" = Some BOOL)
    by computed.
  assert (H4 : bool_lookup (this f) !! flag_only_of "-v" = Some 0%nat)
    by computed.
  assert (H5 : bool_cells (mem f) !! 0%nat = Some false) by computed.
  assert (H6 : read_argv (this f) (mem f) (examined_position STRICT)
               = Returns "0") by computed.
  split; [exact H2|]. split; [exact H6|].
  exact (boolean_without_value whole_stod STRICT f "-v" "0" 0%nat false
           H1 H2 H3 H4 H5 H6).
Defined.

(** X12 at work: in AS_IS, [-n 5] stores [5] and passes both tokens. *)
Lemma integer_from_next_token_witness :
  let f := prologue (four_flags ["-n"; "5"] false).1
             (four_flags ["-n"; "5"] false).2 in
  read_argv (this f) (mem f) (i f) = Returns "-n"
  /\ read_argv (this f) (mem f) (i f + 1) = Returns "5"
  /\ body whole_stod AS_IS f = Returns (advance 2 (assign_int 0 5 f)).
Proof.
  cbv zeta.
  set (f := prologue (four_flags ["-n"; "5"] false).1
              (four_flags ["-n"; "5"] false).2).
  assert (H1 : takes_next AS_IS "-n") by computed.
  assert (H2 : read_argv (this f) (mem f) (i f) = Returns "-n") by computed.
  assert (H3 : main_lookup (this f) !! flag_only_of "-n" = Some INT)
    by computed.
  assert (H4 : int_lookup (this f) !! flag_only_of "-n" = Some 0%nat)
    by computed.
  assert (H5 : int_cells (mem f) !! 0%nat = Some 0%Z) by computed.
  assert (H6 : (i f + 1 < _argc (this f))%Z) by computed.
  assert (H7 : read_argv (this f) (mem f) (i f + 1) = Returns "5")
    by computed.
  split; [exact H2|]. split; [exact H7|].
  exact (integer_from_next_token whole_stod AS_IS f "-n" "5" 0%nat 0%Z
           H1 H2 H3 H4 H5 H6 H7).
Defined.

(** X13 at work: in [-r oops] the conversion throws, and the iteration with
    it. *)
Lemma floating_from_next_token_witness :
  let f := prologue (four_flags ["-r"; "oops"] false).1
             (four_flags ["-r"; "oops"] false).2 in
  read_argv (this f) (mem f) (i f) = Returns "-r"
  /\ read_argv (this f) (mem f) (i f + 1) = Returns "oops"
  /\ body whole_stod STRICT f
     = Throws (raise_conversion conv_invalid_argument) (this f) (mem f).
Proof.
  cbv zeta.
  set (f := prologue (four_flags ["-r"; "oops"] false).1
              (four_flags ["-r"; "oops"] false).2).
  assert (H1 : takes_next STRICT "-r") by computed.
  assert (H2 : read_argv (this f) (mem f) (i f) = Returns "-r") by computed.
  assert (H3 : main_lookup (this f) !! flag_only_of "-r" = Some FLOAT)
    by computed.
  assert (H4 : float_lookup (this f) !! flag_only_of "-r" = Some 0%nat)
    by computed.
  assert (H5 : float_cells (mem f) !! 0%nat = Some 0%Z) by computed.
  assert (H6 : (i f + 1 < _argc (this f))%Z) by computed.
  assert (H7 : read_argv (this f) (mem f) (i f + 1) = Returns "oops")
    by computed.
  split; [exact H2|]. split; [exact H7|].
  exact (floating_from_next_token whole_stod STRICT f "-r" "oops" 0%nat 0%Z
           H1 H2 H3 H4 H5 H6 H7).
Defined.

(** X14 at work: in [-o -v] the flag [-v] is stored as the value of [-o]. *)
Lemma string_from_next_token_witness :
  let f := prologue (four_flags ["-o"; "-v"] false).1
             (four_flags ["-o"; "-v"] false).2 in
  read_argv (this f) (mem f) (i f) = Returns "-o"
  /\ read_argv (this f) (mem f) (i f + 1) = Returns "-v"
  /\ body whole_stod STRICT f = Returns (advance 2 (assign_str 0 "-v" f)).
Proof.
  cbv zeta.
  set (f := prologue (four_flags ["-o"; "-v"] false).1
              (four_flags ["-o"; "-v"] false).2).
  assert (H1 : takes_next STRICT "-o") by computed.
  assert (H2 : read_argv (this f) (mem f) (i f) = Returns "-o") by computed.
  assert (H3 : main_lookup (this f) !! flag_only_of "-o" = Some STR)
    by computed.
  assert (H4 : str_lookup (this f) !! flag_only_of "-o" = Some 0%nat)
    by computed.
  assert (H5 : str_cells (mem f) !! 0%nat = Some EmptyString) by computed.
  assert (H6 : (i f + 1 < _argc (this f))%Z) by computed.
  assert (H7 : read_argv (this f) (mem f) (i f + 1) = Returns "-v")
    by computed.
  split; [exact H2|]. split; [exact H7|].
  exact (string_from_next_token whole_stod STRICT f "-o" "-v" 0%nat
           EmptyString H1 H2 H3 H4 H5 H6 H7).
Defined.

(** X15 at work: a lone [-n] is reported. *)
Lemma value_flag_at_the_end_witness :
  let f := prologue (four_flags ["-n"] false).1 (four_flags ["-n"] false).2 in
  read_argv (this f) (mem f) (i f) = Returns "-n"
  /\ main_lookup (this f) !! flag_only_of "-n" = Some INT
  /\ body whole_stod AS_IS f = Returns (advance 1 (push_invalid "-n" f)).
Proof.
  cbv zeta.
  set (f := prologue (four_flags ["-n"] false).1 (four_flags ["-n"] false).2).
  assert (H1 : INT <> BOOL) by discriminate.
  assert (H2 : takes_next AS_IS "-n") by computed.
  assert (H3 : read_argv (this f) (mem f) (i f) = Returns "-n") by computed.
  assert (H4 : main_lookup (this f) !! flag_only_of "-n" = Some INT)
    by computed.
  assert (H5 : typed_lookup INT (this f) !! flag_only_of "-n" = Some 0%nat)
    by computed.
  assert (H6 : (_argc (this f) <= i f + 1)%Z) by computed.
  split; [exact H3|]. split; [exact H4|].
  exact (value_flag_at_the_end whole_stod AS_IS f "-n" INT 0%nat
           H1 H2 H3 H4 H5 H6).
Defined.

(** X16 at work: in [--output file] the flag is reported and [file] is left
    for the next iteration. *)
Lemma strict_long_string_without_equals_witness :
  let f := prologue (four_flags ["--output"; "file"] false).1
             (four_flags ["--output"; "file"] false).2 in
  read_argv (this f) (mem f) (i f) = Returns "--output"
  /\ main_lookup (this f) !! flag_only_of "--output" = Some STR
  /\ body whole_stod STRICT f
     = Returns (advance 1 (push_invalid "--output" f)).
Proof.
  cbv zeta.
  set (f := prologue (four_flags ["--output"; "file"] false).1
              (four_flags ["--output"; "file"] false).2).
  assert (H1 : read_argv (this f) (mem f) (i f) = Returns "--output")
    by computed.
  assert (H2 : Str.find "--" "--output" = 0%N) by computed.
  assert (H3 : Str.find "=" "--output" = Str.npos) by computed.
  assert (H4 : main_lookup (this f) !! flag_only_of "--output" = Some STR)
    by computed.
  assert (H5 : str_lookup (this f) !! flag_only_of "--output" = Some 0%nat)
    by computed.
  split; [exact H1|]. split; [exact H4|].
  exact (strict_long_string_without_equals whole_stod f "--output" 0%nat
           H1 H2 H3 H4 H5).
Defined.

(** X17 at work: the system-style vector [prog] holds the program name
    only. *)
Lemma readArgs_nothing_to_parse_witness :
  let g := (four_flags ["prog"] true).1 in
  let m := (four_flags ["prog"] true).2 in
  _argv g = Some 0%nat
  /\ _argc g = 1%Z
  /\ readArgs whole_stod AS_IS 0 g m = Some (Returns ([], g, m)).
Proof.
  cbv zeta.
  assert (H1 : _argv (four_flags ["prog"] true).1 = Some 0%nat) by computed.
  assert (H2 : allocs (four_flags ["prog"] true).1 = []) by computed.
  assert (H3 : (_argc (four_flags ["prog"] true).1
                <= (if _from_sys (four_flags ["prog"] true).1 then 1 else 0))%Z)
    by computed.
  split; [exact H1|]. split; [computed|].
  exact (readArgs_nothing_to_parse whole_stod AS_IS 0
           (four_flags ["prog"] true).1 (four_flags ["prog"] true).2 0%nat
           H1 H2 H3).
Defined.

(** X18 at work: no flag is registered and the vector is [file.txt]. *)
Lemma readArgs_without_flags_witness :
  let g := (no_flags (F := no_float)).1 in
  let m := (no_flags (F := no_float)).2 in
  main_lookup g = ∅
  /\ read_argv g m 0 = Returns "file.txt"
  /\ readArgs no_stod STRICT 1 g m = Some (Undefined begin_of_empty_map).
Proof.
  cbv zeta.
  assert (H1 : _argv (no_flags (F := no_float)).1 = Some 0%nat) by computed.
  assert (H2 : main_lookup (no_flags (F := no_float)).1 = ∅) by computed.
  assert (H3 : ((if _from_sys (no_flags (F := no_float)).1 then 1 else 0)
                < _argc (no_flags (F := no_float)).1)%Z) by computed.
  assert (H4 : read_argv (no_flags (F := no_float)).1
                 (no_flags (F := no_float)).2
                 (if _from_sys (no_flags (F := no_float)).1 then 1 else 0)
               = Returns "file.txt") by computed.
  split; [exact H2|]. split; [computed|].
  exact (readArgs_without_flags no_stod STRICT 0 (no_flags (F := no_float)).1
           (no_flags (F := no_float)).2 0%nat "file.txt" H1 H2 H3 H4).
Defined.

(** X19 at work: the iteration on [-n x] throws the [std::invalid_argument]
    of [std::stoi] on the next token [x]. *)
Lemma throwing_iteration_changes_nothing_witness :
  let f := prologue (four_flags ["-n"; "x"] false).1
             (four_flags ["-n"; "x"] false).2 in
  body whole_stod STRICT f
  = Throws (raise_conversion conv_invalid_argument) (this f) (mem f)
  /\ stoi (stripQuotes "x") = inl conv_invalid_argument
  /\ (registry_wf (this f) ->
      conversion_failed whole_stod f (raise_conversion conv_invalid_argument)).
Proof.
  cbv zeta.
  set (f := prologue (four_flags ["-n"; "x"] false).1
              (four_flags ["-n"; "x"] false).2).
  assert (H : body whole_stod STRICT f
              = Throws (raise_conversion conv_invalid_argument) (this f)
                  (mem f)) by computed.
  split; [exact H|]. split; [computed|].
  exact (proj2 (proj2 (throwing_iteration_changes_nothing whole_stod STRICT f
                         (raise_conversion conv_invalid_argument) (this f)
                         (mem f) H))).
Defined.

(** X22 at work: a registration of [-x,--extra] leaves [-n] as it is. *)
Lemma registration_leaves_other_spellings_witness :
  let g := (four_flags [] false).1 in
  let m := (four_flags [] false).2 in
  ("-n" ∉ getlines "-x,--extra")
  /\ let '(_, g', _) := register (call_flagBoolean "-x,--extra" true) g m in
     main_lookup g' !! "-n" = main_lookup g !! "-n"
     /\ forall t, typed_lookup t g' !! "-n" = typed_lookup t g !! "-n".
Proof.
  cbv zeta.
  assert (H : "-n" ∉ getlines "-x,--extra").
  { vm_compute. intros Hin.
    repeat (apply elem_of_cons in Hin as [Hin|Hin]; [discriminate|]).
    by apply elem_of_nil in Hin. }
  split; [exact H|].
  exact (registration_leaves_other_spellings
           (call_flagBoolean "-x,--extra" true) (four_flags [] false).1
           (four_flags [] false).2 "-n" H).
Defined.

(** X24 at work: the text ['x'] is changed, and it has a single quote at
    both ends. *)
Lemma stripQuotes_only_matching_quotes_witness :
  fits "'x'"
  /\ stripQuotes "'x'" <> "'x'"
  /\ exists q, is_quote q /\ Str.front "'x'" = q /\ Str.back "'x'" = Some q.
Proof.
  assert (H1 : fits "'x'") by computed.
  assert (H2 : stripQuotes "'x'" <> "'x'") by computed.
  exact (conj H1 (conj H2 (stripQuotes_only_matching_quotes "'x'" H1 H2))).
Defined.

(** X25 at work: the text [it's] between single quotes. *)
Lemma stripQuotes_quoted_witness :
  is_quote squote
  /\ stripQuotes (quoted squote "it's") = "it's"
  /\ stripQuotes (String squote EmptyString) = EmptyString.
Proof.
  assert (H1 : is_quote squote) by (right; reflexivity).
  assert (H2 : fits (quoted squote "it's")) by computed.
  exact (conj H1 (stripQuotes_quoted squote "it's" H1 H2)).
Defined.

(** X26 at work: the scenario [self_expanding] starts on such a frame. *)
Lemma loop_on_dash_equals_never_ends_witness :
  let f := prologue (self_expanding (F := no_float)).1
             (self_expanding (F := no_float)).2 in
  stands_on_dash_equals f
  /\ while_loop (body no_stod AS_IS) 1000 f = None.
Proof.
  cbv zeta.
  set (f := prologue (self_expanding (F := no_float)).1
              (self_expanding (F := no_float)).2).
  assert (H : stands_on_dash_equals f).
  { split; [split; computed|].
    split; [exists BOOL; computed|].
    split; [computed|].
    split; [exists "-="; split; computed|].
    exists 0%nat, 0%nat, [0%nat].
    split; [computed|]. split; [computed|]. split; [computed|].
    split; computed. }
  exact (conj H (loop_on_dash_equals_never_ends no_stod AS_IS 1000 f H)).
Defined.

(** X27 at work: the vector [-abc] weighs four, so five units of fuel are
    enough. *)
Lemma readArgs_terminates_witness :
  let g := (clustered (F := no_float)).1.2 in
  let m := (clustered (F := no_float)).2 in
  short_spellings_plain g
  /\ buffers_fit m
  /\ remaining_weight (prologue g m) = 4%nat
  /\ finished (readArgs no_stod STRICT 5 g m) = true.
Proof.
  cbv zeta.
  assert (H1 : short_spellings_plain (clustered (F := no_float)).1.2)
    by (apply short_spellings_plainb_sound; computed).
  assert (H2 : buffers_fit (clustered (F := no_float)).2)
    by (apply buffers_fitb_sound; computed).
  assert (H3 : remaining_weight
                 (prologue (clustered (F := no_float)).1.2
                    (clustered (F := no_float)).2) = 4%nat) by computed.
  split; [exact H1|]. split; [exact H2|]. split; [exact H3|].
  refine (readArgs_terminates no_stod STRICT 5
            (clustered (F := no_float)).1.2 (clustered (F := no_float)).2
            H1 H2 _).
  rewrite H3. lia.
Defined.

(** X3 at work: after [-a] has been registered a second time, no spelling
    points to the second cell; the pass over [prog -a] leaves it alone. *)
Lemma readArgs_writes_bound_cells_only_witness :
  let g := (registered_again (F := no_float)).1.2 in
  let m := (registered_again (F := no_float)).2 in
  unbound BOOL g 1%nat
  /\ returned (readArgs no_stod STRICT 5 g m) = true
  /\ match readArgs no_stod STRICT 5 g m with
     | Some (Returns (_, _, m')) =>
         bool_cells m' !! 1%nat = bool_cells m !! 1%nat
     | _ => True
     end.
Proof.
  cbv zeta.
  assert (Hmap : bool_lookup (registered_again (F := no_float)).1.2
                 = {[ "-a" := 0%nat ]}) by computed.
  assert (Hu : unbound BOOL (registered_again (F := no_float)).1.2 1%nat).
  { unfold unbound, typed_lookup. rewrite Hmap. intros k Hk.
    apply lookup_singleton_Some in Hk as [_ Hk]. discriminate. }
  split; [exact Hu|]. split; [computed|].
  pose proof (readArgs_writes_bound_cells_only no_stod STRICT 5
                (registered_again (F := no_float)).1.2
                (registered_again (F := no_float)).2) as H.
  destruct (readArgs no_stod STRICT 5 (registered_again (F := no_float)).1.2
              (registered_again (F := no_float)).2)
    as [[[[? ?] m']|? ? ?|?]|]; try exact I.
  exact (proj1 H 1%nat Hu).
Defined.

(** X21 at work: [-x,--extra] is registered as an integer flag after the four
    flags; its second alias is new. *)
Lemma registration_binds_fresh_aliases_witness :
  let r := call_flagInt (floating_t := whole_float) "-x,--extra" 5 in
  let g := (four_flags [] false).1 in
  let m := (four_flags [] false).2 in
  main_lookup g !! "--extra" = None
  /\ let '(handle, g', m') := register r g m in
     new_cell r handle m
     /\ holds_default r handle m'
     /\ main_lookup g' !! "--extra" = Some INT
     /\ typed_lookup INT g' !! "--extra" = Some handle.
Proof.
  cbv zeta.
  assert (H1 : "--extra" ∈ getlines "-x,--extra")
    by (apply (list_elem_of_lookup_2 _ 1%nat); computed).
  assert (H2 : main_lookup (four_flags [] false).1 !! "--extra" = None)
    by computed.
  assert (H3 : typed_lookup INT (four_flags [] false).1 !! "--extra" = None)
    by computed.
  split; [exact H2|].
  pose proof (registration_binds_fresh_aliases
                (call_flagInt (floating_t := whole_float) "-x,--extra" 5)
                (four_flags [] false).1 (four_flags [] false).2) as H.
  destruct (register (call_flagInt "-x,--extra" 5) (four_flags [] false).1
              (four_flags [] false).2) as [[handle g'] m'].
  destruct H as (Hn & Hd & _ & _ & _ & _ & Halias).
  split; [exact Hn|]. split; [exact Hd|].
  exact (Halias "--extra" H1 H2 H3).
Defined.
